(** * OAuth 2.1 authorization server of the MCP bridge (src/auth/oauth.ts)

    A shallow embedding of the in-memory authorization server: dynamic client
    registration, the authorization endpoint, the token endpoint with PKCE,
    and bearer-token validation.  The three module-level [Map]s become
    finite maps in an explicit server state; [Date.now()] and
    [crypto.randomBytes] read from oracles carried by that state; every
    handler is a function from a request and a state to a response and a
    state, with the early [return]s of the source written as nested
    conditionals in the same order. *)

From Stdlib Require Import ZArith String Ascii List Lia Bool.
From Stdlib Require QArith DecimalString.
From stdpp Require Import base option gmap strings list.

Local Open Scope Z_scope.
Local Open Scope string_scope.

(** ** Platform library: Node's [crypto] and [Buffer]

    [crypto.createHash("sha256")] and [Buffer.toString("base64url")] are not
    code of the repository; they are modelled after FIPS 180-4 and
    RFC 4648 section 5 (URL-safe alphabet, no padding) and checked against
    the published test vectors below.  A JavaScript string is modelled by
    its UTF-8 byte sequence, which is what [Hash.update] hashes. *)

Module Node.

(** 32-bit words are integers in [0, 2^32); additions wrap around. *)
Definition w32 (x : Z) : Z := x mod 4294967296.

Definition add32 (x y : Z) : Z := w32 (x + y).

Definition rotr (n x : Z) : Z :=
  Z.lor (Z.shiftr x n) (w32 (Z.shiftl x (32 - n))).

Definition not32 (x : Z) : Z := Z.lxor x 4294967295.

Definition Ch (x y z : Z) : Z :=
  Z.lxor (Z.land x y) (Z.land (not32 x) z).

Definition Maj (x y z : Z) : Z :=
  Z.lxor (Z.lxor (Z.land x y) (Z.land x z)) (Z.land y z).

Definition Sigma0 (x : Z) : Z :=
  Z.lxor (Z.lxor (rotr 2 x) (rotr 13 x)) (rotr 22 x).

Definition Sigma1 (x : Z) : Z :=
  Z.lxor (Z.lxor (rotr 6 x) (rotr 11 x)) (rotr 25 x).

Definition sigma0 (x : Z) : Z :=
  Z.lxor (Z.lxor (rotr 7 x) (rotr 18 x)) (Z.shiftr x 3).

Definition sigma1 (x : Z) : Z :=
  Z.lxor (Z.lxor (rotr 17 x) (rotr 19 x)) (Z.shiftr x 10).

(** The round constants are the first 32 bits of the fractional parts of
    the cube roots of the first 64 primes, the initial hash value those of
    the square roots of the first 8 primes (FIPS 180-4, sections 4.2.2 and
    5.3.3); they are computed here from that definition. *)
Definition is_prime (n : nat) : bool :=
  forallb (fun d => negb (Nat.eqb (n mod d) 0)) (seq 2 (n - 2)).

Definition primes : list Z :=
  map Z.of_nat (List.filter is_prime (seq 2 310)).

(** The integer cube root below [2 ^ bits], one bit at a time. *)
Fixpoint icbrt (bits : nat) (n r : Z) : Z :=
  match bits with
  | O => r
  | S b =>
      let r' := r + 2 ^ Z.of_nat b in
      icbrt b n (if Z.leb (r' * r' * r') n then r' else r)
  end.

Definition K256 : list Z :=
  Eval vm_compute in map (fun p => w32 (icbrt 36 (p * 2 ^ 96) 0)) primes.

Definition H256 : list Z :=
  Eval vm_compute in map (fun p => w32 (Z.sqrt (p * 2 ^ 64))) (firstn 8 primes).

(** Padding: a 1 bit, zeros up to 56 mod 64 bytes, the bit length on
    64 bits, big-endian. *)
Definition be_bytes (n : nat) (x : Z) : list Z :=
  map (fun i => Z.land (Z.shiftr x (8 * Z.of_nat i)) 255) (rev (seq 0 n)).

Definition pad (msg : list Z) : list Z :=
  let len := Z.of_nat (length msg) in
  let zeros := Z.to_nat ((55 - len) mod 64) in
  msg ++ 128 :: repeat 0 zeros ++ be_bytes 8 (8 * len).

Fixpoint be_words (bs : list Z) : list Z :=
  match bs with
  | b0 :: b1 :: b2 :: b3 :: rest =>
      (b0 * 16777216 + b1 * 65536 + b2 * 256 + b3) :: be_words rest
  | _ => []
  end.

(** The message schedule, most recent word first: [ws] holds
    W(t-1), W(t-2), ... *)
Fixpoint schedule (n : nat) (ws : list Z) : list Z :=
  match n with
  | O => ws
  | S n' =>
      let w := add32 (add32 (sigma1 (nth 1 ws 0)) (nth 6 ws 0))
                     (add32 (sigma0 (nth 14 ws 0)) (nth 15 ws 0)) in
      schedule n' (w :: ws)
  end.

Record regs := Regs { ra : Z; rb : Z; rc : Z; rd : Z;
                      re : Z; rf : Z; rg : Z; rh : Z }.

Definition round (s : regs) (kw : Z * Z) : regs :=
  let t1 := add32 (add32 (add32 (rh s) (Sigma1 (re s)))
                         (add32 (Ch (re s) (rf s) (rg s)) (fst kw)))
                  (snd kw) in
  let t2 := add32 (Sigma0 (ra s)) (Maj (ra s) (rb s) (rc s)) in
  Regs (add32 t1 t2) (ra s) (rb s) (rc s) (add32 (rd s) t1) (re s) (rf s) (rg s).

Definition regs_of (h : list Z) : regs :=
  Regs (nth 0 h 0) (nth 1 h 0) (nth 2 h 0) (nth 3 h 0)
       (nth 4 h 0) (nth 5 h 0) (nth 6 h 0) (nth 7 h 0).

Definition compress (h : list Z) (block : list Z) : list Z :=
  let ws := rev (schedule 48 (rev block)) in
  let s0 := regs_of h in
  let s := fold_left round (combine K256 ws) s0 in
  [ add32 (ra s0) (ra s); add32 (rb s0) (rb s);
    add32 (rc s0) (rc s); add32 (rd s0) (rd s);
    add32 (re s0) (re s); add32 (rf s0) (rf s);
    add32 (rg s0) (rg s); add32 (rh s0) (rh s) ].

Fixpoint blocks (n : nat) (h : list Z) (ws : list Z) : list Z :=
  match n with
  | O => h
  | S n' => blocks n' (compress h (firstn 16 ws)) (skipn 16 ws)
  end.

Definition sha256 (msg : list Z) : list Z :=
  let ws := be_words (pad msg) in
  flat_map (be_bytes 4) (blocks (length ws / 16) H256 ws).

(** [Buffer.toString("base64url")]: RFC 4648 section 5 without padding. *)
Definition alphabet : string :=
  "ABCDEFGHIJKLMNOPQRSTUVWXYZabcdefghijklmnopqrstuvwxyz0123456789-_".

Definition sextet (n : Z) : ascii :=
  match String.get (Z.to_nat (n mod 64)) alphabet with
  | Some c => c
  | None => "A"%char
  end.

Fixpoint base64url (bs : list Z) : string :=
  match bs with
  | [] => ""
  | [b0] =>
      String (sextet (b0 / 4)) (String (sextet (b0 * 16)) "")
  | [b0; b1] =>
      String (sextet (b0 / 4))
        (String (sextet (b0 * 16 + b1 / 16))
           (String (sextet (b1 * 4)) ""))
  | b0 :: b1 :: b2 :: rest =>
      String (sextet (b0 / 4))
        (String (sextet (b0 * 16 + b1 / 16))
           (String (sextet (b1 * 4 + b2 / 64))
              (String (sextet b2) (base64url rest))))
  end.

(** The bytes of a string (its UTF-8 encoding). *)
Definition bytes_of (s : string) : list Z :=
  map (fun b => Z.of_N (Byte.to_N b)) (list_byte_of_string s).

(** [crypto.createHash("sha256").update(s).digest("base64url")] *)
Definition sha256_base64url (s : string) : string :=
  base64url (sha256 (bytes_of s)).

(** [String.prototype.slice(0, n)] on an ASCII string *)
Definition slice0 (n : nat) (s : string) : string := substring 0 n s.

End Node.

(** ** Platform library: the WHATWG [URL] class

    [new URL(s)] either throws (here [None]) or yields an object with the
    getters below and a mutable list of query parameters.  The handlers
    are written against this interface; the laws say that
    [searchParams.set] only touches the parameter it names. *)
Class UrlApi := {
  URL : Type;
  new_URL : string -> option URL;
  URL_protocol : URL -> string;
  URL_hostname : URL -> string;
  searchParams_set : string -> string -> URL -> URL;
  searchParams_get : string -> URL -> option string;
  URL_toString : URL -> string;
  searchParams_get_set :
    forall k v u, searchParams_get k (searchParams_set k v u) = Some v;
  searchParams_get_set_ne :
    forall k k' v u, k <> k' ->
      searchParams_get k' (searchParams_set k v u) = searchParams_get k' u;
  searchParams_set_protocol :
    forall k v u, URL_protocol (searchParams_set k v u) = URL_protocol u;
  searchParams_set_hostname :
    forall k v u, URL_hostname (searchParams_set k v u) = URL_hostname u
}.

(** A string of ASCII characters only. *)
Fixpoint ascii_text (s : string) : bool :=
  match s with
  | EmptyString => true
  | String c r => Z.ltb (Z.of_nat (nat_of_ascii c)) 128 && ascii_text r
  end.

(** The other components of a URL, none of which [searchParams.set]
    changes, and the serializer: what [toString] returns parses back to the
    same URL, for every URL that came out of [new URL] and has since had
    parameters set to ASCII text only ([URL_valid]). *)
Class UrlRecord `{UrlApi} := {
  URL_username : URL -> string;
  URL_password : URL -> string;
  URL_port : URL -> string;
  URL_pathname : URL -> string;
  URL_hash : URL -> string;
  URL_valid : URL -> Prop;
  searchParams_set_username :
    forall k v u, URL_username (searchParams_set k v u) = URL_username u;
  searchParams_set_password :
    forall k v u, URL_password (searchParams_set k v u) = URL_password u;
  searchParams_set_port :
    forall k v u, URL_port (searchParams_set k v u) = URL_port u;
  searchParams_set_pathname :
    forall k v u, URL_pathname (searchParams_set k v u) = URL_pathname u;
  searchParams_set_hash :
    forall k v u, URL_hash (searchParams_set k v u) = URL_hash u;
  new_URL_valid : forall s u, new_URL s = Some u -> URL_valid u;
  searchParams_set_valid :
    forall k v u, URL_valid u -> ascii_text k = true -> ascii_text v = true ->
      URL_valid (searchParams_set k v u);
  URL_toString_parse : forall u, URL_valid u -> new_URL (URL_toString u) = Some u
}.

(** An instance used to run the handlers on concrete requests: the URL
    parser, the serializer and the form-encoded query of the URL Standard
    (sections 1.3, 3.5, 4.4, 4.5 and 5) on a fragment of the inputs.
    Inside the fragment it follows the standard state by state: leading
    and trailing spaces and controls are stripped and tabs and newlines
    removed; the scheme is lower-cased; a special scheme ([http], [https],
    [ws], [wss], [ftp]) takes any number of slashes or backslashes before
    the authority, the others take an authority after [//], a path after
    one slash, an opaque path otherwise; credentials end at the last [@];
    a domain is lower-cased and, when it ends in a number, read as an IPv4
    address (decimal, octal or hexadecimal parts) and written back as four
    decimal numbers; a port is digits up to 65535 and the scheme's default
    port is dropped; dot segments are resolved; each component is
    percent-encoded with its own set; [searchParams.set] rewrites the whole
    query in form encoding.  Outside the fragment the instance answers
    [None] although [new URL] may accept the input: the [file] scheme, IPv6
    literals, percent-escapes and punycode labels in a domain, a space in
    an opaque path, any character outside ASCII, and a query with the
    escape of a byte outside ASCII. *)
Module SimpleUrl.

(** *** Characters *)

Definition code (c : ascii) : Z := Z.of_nat (nat_of_ascii c).

Definition among (l : list Z) (c : ascii) : bool := existsb (Z.eqb (code c)) l.

Definition between (lo hi : Z) (c : ascii) : bool :=
  Z.leb lo (code c) && Z.leb (code c) hi.

Definition char (c : ascii) (d : ascii) : bool := Ascii.eqb c d.

Definition is_digit : ascii -> bool := between 48 57.
Definition is_upper : ascii -> bool := between 65 90.
Definition is_alpha (c : ascii) : bool := is_upper c || between 97 122 c.
Definition is_alnum (c : ascii) : bool := is_alpha c || is_digit c.

Definition lower (c : ascii) : ascii :=
  if is_upper c then ascii_of_nat (Z.to_nat (code c + 32)) else c.

Fixpoint lowercase (s : string) : string :=
  match s with
  | EmptyString => EmptyString
  | String c r => String (lower c) (lowercase r)
  end.

Fixpoint all (p : ascii -> bool) (s : string) : bool :=
  match s with
  | EmptyString => true
  | String c r => p c && all p r
  end.

Definition any (p : ascii -> bool) (s : string) : bool := negb (all (fun c => negb (p c)) s).

(** *** Splitting *)

Fixpoint break (p : ascii -> bool) (s : string) : string * string :=
  match s with
  | EmptyString => (EmptyString, EmptyString)
  | String c r =>
      if p c then (EmptyString, s)
      else let '(a, b) := break p r in (String c a, b)
  end.

Definition tail (s : string) : string :=
  match s with EmptyString => EmptyString | String _ r => r end.

(** The pieces between the characters that satisfy [p]; [n] separators
    give [n + 1] pieces. *)
Fixpoint pieces (p : ascii -> bool) (s : string) : list string :=
  match s with
  | EmptyString => [EmptyString]
  | String c r =>
      if p c then EmptyString :: pieces p r
      else match pieces p r with
           | piece :: more => String c piece :: more
           | [] => [String c EmptyString]
           end
  end.

(** What precedes and what follows the last [c] of [s]. *)
Fixpoint break_last (c : ascii) (s : string) : option (string * string) :=
  match s with
  | EmptyString => None
  | String d r =>
      match break_last c r with
      | Some (a, b) => Some (String d a, b)
      | None => if Ascii.eqb d c then Some (EmptyString, r) else None
      end
  end.

Fixpoint drop_while (p : ascii -> bool) (s : string) : string :=
  match s with
  | String c r => if p c then drop_while p r else s
  | EmptyString => EmptyString
  end.

Fixpoint drop_end (p : ascii -> bool) (s : string) : string :=
  match s with
  | EmptyString => EmptyString
  | String c r =>
      match drop_end p r with
      | EmptyString => if p c then EmptyString else String c EmptyString
      | r' => String c r'
      end
  end.

Fixpoint remove (p : ascii -> bool) (s : string) : string :=
  match s with
  | EmptyString => EmptyString
  | String c r => if p c then remove p r else String c (remove p r)
  end.

(** *** Percent-encoding (URL Standard, section 1.3) *)

Definition c0_set (c : ascii) : bool := Z.ltb (code c) 32 || Z.ltb 126 (code c).
Definition fragment_set (c : ascii) : bool := c0_set c || among [32; 34; 60; 62; 96] c.
Definition query_set (c : ascii) : bool := c0_set c || among [32; 34; 35; 60; 62] c.
Definition special_query_set (c : ascii) : bool := query_set c || among [39] c.
Definition path_set (c : ascii) : bool := query_set c || among [63; 94; 96; 123; 125] c.
Definition userinfo_set (c : ascii) : bool :=
  path_set c || among [47; 58; 59; 61; 64; 91; 92; 93; 124] c.
Definition urlencoded_set (c : ascii) : bool := negb (is_alnum c || among [42; 45; 46; 95] c).

Definition hex_digit (n : Z) : ascii :=
  match String.get (Z.to_nat n) "0123456789ABCDEF" with
  | Some c => c
  | None => "0"%char
  end.

Definition percent (c : ascii) : string :=
  String "%" (String (hex_digit (code c / 16)) (String (hex_digit (code c mod 16)) "")).

Fixpoint encode (set : ascii -> bool) (s : string) : string :=
  match s with
  | EmptyString => EmptyString
  | String c r => if set c then percent c ++ encode set r else String c (encode set r)
  end.

Definition hex_value (c : ascii) : option Z :=
  if is_digit c then Some (code c - 48)
  else if between 65 70 c then Some (code c - 55)
  else if between 97 102 c then Some (code c - 87)
  else None.

Fixpoint percent_decode (s : string) : string :=
  match s with
  | String "%" (String a (String b r) as rest) =>
      match hex_value a, hex_value b with
      | Some x, Some y => String (ascii_of_nat (Z.to_nat (16 * x + y))) (percent_decode r)
      | _, _ => String "%" (percent_decode rest)
      end
  | String c r => String c (percent_decode r)
  | EmptyString => EmptyString
  end.

(** *** application/x-www-form-urlencoded (URL Standard, section 5) *)

Fixpoint plus_to_space (s : string) : string :=
  match s with
  | EmptyString => EmptyString
  | String c r => String (if char "+" c then " "%char else c) (plus_to_space r)
  end.

Definition parse_pair (piece : string) : string * string :=
  let '(name, value) := break (char "=") piece in
  (percent_decode (plus_to_space name), percent_decode (plus_to_space (tail value))).

Definition parse_query (q : string) : list (string * string) :=
  map parse_pair (List.filter (fun piece => negb (piece =? "")%string) (pieces (char "&") q)).

Fixpoint form_encode (s : string) : string :=
  match s with
  | EmptyString => EmptyString
  | String c r =>
      if char " " c then String "+" (form_encode r)
      else if urlencoded_set c then percent c ++ form_encode r
      else String c (form_encode r)
  end.

Definition pair_string (p : string * string) : string :=
  form_encode (fst p) ++ "=" ++ form_encode (snd p).

Fixpoint serialize (l : list (string * string)) : string :=
  match l with
  | [] => ""
  | [p] => pair_string p
  | p :: more => pair_string p ++ "&" ++ serialize more
  end.

(** The characters the form serializer writes for a name or a value. *)
Definition form_char (c : ascii) : bool :=
  is_alnum c || among [37; 42; 43; 45; 46; 95] c.

(** [URLSearchParams.prototype.set] and [get] on the list of pairs. *)
Fixpoint set (k v : string) (l : list (string * string)) : list (string * string) :=
  match l with
  | [] => [(k, v)]
  | (k', v') :: r =>
      if (k =? k')%string
      then (k, v) :: List.filter (fun p => negb (k =? fst p)%string) r
      else (k', v') :: set k v r
  end.

Fixpoint get (k : string) (l : list (string * string)) : option string :=
  match l with
  | [] => None
  | (k', v') :: r => if (k =? k')%string then Some v' else get k r
  end.

(** *** Numbers *)

Definition digit (radix : Z) (c : ascii) : option Z :=
  match hex_value c with
  | Some v => if Z.ltb v radix then Some v else None
  | None => None
  end.

Fixpoint number (radix acc : Z) (s : string) : option Z :=
  match s with
  | EmptyString => Some acc
  | String c r =>
      match digit radix c with
      | Some v => number radix (acc * radix + v) r
      | None => None
      end
  end.

Definition decimal (n : Z) : string :=
  DecimalString.NilZero.string_of_uint (N.to_uint (Z.to_N n)).

(** *** Hosts (URL Standard, section 3.5) *)

(** The IPv4 number parser. *)
Definition ipv4_number (s : string) : option Z :=
  match s with
  | EmptyString => None
  | String "0" (String x r) =>
      if among [88; 120] x then number 16 0 r else number 8 0 (String x r)
  | _ => number 10 0 s
  end.

(** The parts of a host between its dots, a last empty part dropped. *)
Definition parts (host : string) : list string :=
  let ps := pieces (char ".") host in
  match rev ps with
  | EmptyString :: (p :: more) => rev (p :: more)
  | _ => ps
  end.

Definition ends_in_number (host : string) : bool :=
  match rev (pieces (char ".") host) with
  | [EmptyString] => false
  | EmptyString :: last :: _ | last :: _ =>
      (negb (last =? "")%string && all is_digit last)
      || match ipv4_number last with Some _ => true | None => false end
  | [] => false
  end.

Fixpoint numbers (ps : list string) : option (list Z) :=
  match ps with
  | [] => Some []
  | p :: more =>
      match ipv4_number p, numbers more with
      | Some n, Some ns => Some (n :: ns)
      | _, _ => None
      end
  end.

Definition ipv4 (host : string) : option Z :=
  let ps := parts host in
  if Nat.ltb 4 (length ps) then None
  else
    match numbers ps with
    | None => None
    | Some ns =>
        match rev ns with
        | [] => None
        | last :: others =>
            if existsb (Z.ltb 255) others then None
            else if Z.leb (256 ^ Z.of_nat (5 - length ns)) last then None
            else Some (fold_left (fun acc n => 256 * acc + n) (rev others) 0
                         * 256 ^ Z.of_nat (4 - length others) + last)
        end
    end.

Definition ipv4_string (n : Z) : string :=
  decimal (n / 16777216) ++ "." ++ decimal (n / 65536 mod 256) ++ "."
    ++ decimal (n / 256 mod 256) ++ "." ++ decimal (n mod 256).

Definition forbidden_host (c : ascii) : bool :=
  among [0; 9; 10; 13; 32; 35; 47; 58; 60; 62; 63; 64; 91; 92; 93; 94; 124] c.

Definition forbidden_domain (c : ascii) : bool :=
  forbidden_host c || Z.ltb (code c) 32 || among [37; 127] c.

(** The host of a special scheme: a domain or an IPv4 address.  [None] is
    failure, and also a host outside the fragment: one with a
    percent-escape or a punycode label. *)
Definition parse_domain (h : string) : option string :=
  let d := lowercase h in
  if any (char "%") h || existsb (String.prefix "xn--") (pieces (char ".") d) then None
  else if (d =? "")%string || any forbidden_domain d then None
  else if ends_in_number d then option_map ipv4_string (ipv4 d)
  else Some d.

(** The host of any other scheme, kept as it is written. *)
Definition parse_opaque_host (h : string) : option string :=
  if any forbidden_host h then None else Some (encode c0_set h).

(** *** The URL record and its parser (URL Standard, section 4) *)

Inductive Path :=
| segments (l : list string)
| opaque (s : string).

(** What precedes the query: scheme, credentials, host, port and path. *)
Record Base := mkBase {
  scheme : string;
  username : string;
  password : string;
  host : option string;
  port : option Z;
  path : Path }.

Record t := Make {
  base : Base;
  query : option string;
  fragment : option string;
  params : list (string * string) }.   (* the list of its [searchParams] *)

#[global] Instance Path_eq_dec : EqDecision Path.
Proof. solve_decision. Defined.

#[global] Instance Base_eq_dec : EqDecision Base.
Proof. solve_decision. Defined.

Definition default_port (scheme : string) : option Z :=
  if (scheme =? "http")%string then Some 80
  else if (scheme =? "https")%string then Some 443
  else if (scheme =? "ws")%string then Some 80
  else if (scheme =? "wss")%string then Some 443
  else if (scheme =? "ftp")%string then Some 21
  else None.

Definition special (scheme : string) : bool :=
  match default_port scheme with Some _ => true | None => false end.

Definition scheme_char (c : ascii) : bool := is_alnum c || among [43; 45; 46] c.

(** The scheme, lower-cased, and what follows its colon. *)
Definition split_scheme (s : string) : option (string * string) :=
  match s with
  | String c _ =>
      if is_alpha c then
        let '(sch, rest) := break (fun d => negb (scheme_char d)) s in
        match rest with
        | String ":" rest' => Some (lowercase sch, rest')
        | _ => None
        end
      else None
  | EmptyString => None
  end.

(** The port state: digits only, at most 65535, the scheme's default port
    left out. *)
Definition parse_port (dflt : option Z) (digits : string) : option (option Z) :=
  match digits with
  | EmptyString => Some None
  | _ =>
      match number 10 0 digits with
      | Some n =>
          if Z.ltb 65535 n then None
          else if bool_decide (dflt = Some n) then Some None
          else Some (Some n)
      | None => None
      end
  end.

(** The authority and host states: credentials up to the last [@], then
    host and port.  IPv6 literals are outside the fragment. *)
Definition parse_authority (sp : bool) (dflt : option Z) (a : string)
  : option (string * string * string * option Z) :=
  let '(cred, hostport) :=
    match break_last "@" a with
    | Some (c, h) => (Some c, h)
    | None => (None, a)
    end in
  let '(user, pass) := break (char ":") (default "" cred) in
  let '(h, p) := break (char ":") hostport in
  if any (among [91; 93]) hostport then None
  else if (h =? "")%string
          && (sp || negb (p =? "")%string
              || match cred with Some _ => true | None => false end) then None
  else
    match (if sp then parse_domain h else parse_opaque_host h), parse_port dflt (tail p) with
    | Some hst, Some prt =>
        Some (encode userinfo_set user, encode userinfo_set (tail pass), hst, prt)
    | _, _ => None
    end.

Definition single_dot (seg : string) : bool :=
  existsb (String.eqb (lowercase seg)) ["."; "%2e"].

Definition double_dot (seg : string) : bool :=
  existsb (String.eqb (lowercase seg)) [".."; ".%2e"; "%2e."; "%2e%2e"].

(** The path state over the raw segments, the path built so far held in
    reverse. *)
Fixpoint walk (built : list string) (segs : list string) : list string :=
  match segs with
  | [] => rev built
  | seg :: rest =>
      let last := match rest with [] => true | _ => false end in
      if double_dot seg then
        walk (if last then EmptyString :: List.tail built else List.tail built) rest
      else if single_dot seg then
        walk (if last then EmptyString :: built else built) rest
      else walk (encode path_set seg :: built) rest
  end.

Definition parse_base (b : string) : option Base :=
  match split_scheme b with
  | None => None
  | Some (sch, r) =>
      let dflt := default_port sch in
      if (sch =? "file")%string then None
      else if special sch then
        let slash := among [47; 92] in
        let '(a, p) := break slash (drop_while slash r) in
        match parse_authority true dflt a with
        | Some (user, pass, hst, prt) =>
            Some (mkBase sch user pass (Some hst) prt
                    (segments (walk [] (pieces slash (tail p)))))
        | None => None
        end
      else
        match r with
        | String "/" (String "/" r2) =>
            let '(a, p) := break (char "/") r2 in
            match parse_authority false dflt a with
            | Some (user, pass, hst, prt) =>
                Some (mkBase sch user pass (Some hst) prt
                        (segments (match p with
                                   | EmptyString => []
                                   | String _ p' => walk [] (pieces (char "/") p')
                                   end)))
            | None => None
            end
        | String "/" r1 =>
            Some (mkBase sch "" "" None None (segments (walk [] (pieces (char "/") r1))))
        | _ =>
            if any (char " ") r then None
            else Some (mkBase sch "" "" None None (opaque (encode c0_set r)))
        end
  end.

(** *** The serializer *)

Definition print_path (p : Path) : string :=
  match p with
  | segments l => String.concat "" (map (fun seg => "/" ++ seg) l)
  | opaque s => s
  end.

Definition print_base (b : Base) : string :=
  scheme b ++ ":"
    ++ match host b with
       | Some h =>
           "//"
             ++ (if (username b =? "")%string && (password b =? "")%string then ""
                 else username b
                        ++ (if (password b =? "")%string then "" else ":" ++ password b)
                        ++ "@")
             ++ h
             ++ match port b with Some n => ":" ++ decimal n | None => "" end
       | None =>
           match path b with
           | segments (EmptyString :: _ :: _) => "/."
           | _ => ""
           end
       end
    ++ print_path (path b).

Definition toString (u : t) : string :=
  print_base (base u)
    ++ match query u with Some q => "?" ++ q | None => "" end
    ++ match fragment u with Some f => "#" ++ f | None => "" end.

(** *** The parser *)

(** The query percent-encode set of a scheme. *)
Definition query_chars (sch : string) : ascii -> bool :=
  if special sch then special_query_set else query_set.

(** What holds of every URL the parser returns, and of every URL obtained
    from one by [set_param] with ASCII arguments: its serialization has no
    character that the parser would strip or escape, and what precedes the
    query parses back to the same. *)
Definition valid (u : t) : bool :=
  all (fun c => Z.ltb 32 (code c) && Z.ltb (code c) 127 && negb (among [35; 63] c))
      (print_base (base u))
  && bool_decide (parse_base (print_base (base u)) = Some (base u))
  && all (fun c => negb (query_chars (scheme (base u)) c)) (default "" (query u))
  && all (fun c => negb (fragment_set c)) (default "" (fragment u))
  && bool_decide (params u = parse_query (default "" (query u)))
  && forallb (fun p => ascii_text (fst p) && ascii_text (snd p)) (params u).

Definition preprocess (s : string) : string :=
  remove (among [9; 10; 13])
    (drop_end (fun c => Z.leb (code c) 32) (drop_while (fun c => Z.leb (code c) 32) s)).

(** [new URL(s)] without a base, on ASCII input: [None] is the
    [TypeError]. *)
Definition parse (s : string) : option t :=
  let s := preprocess s in
  let '(bq, f) := break (char "#") s in
  let '(b, q) := break (char "?") bq in
  match parse_base b with
  | None => None
  | Some bs =>
      let qry := match q with
                 | String _ q' => Some (encode (query_chars (scheme bs)) q')
                 | EmptyString => None
                 end in
      let frg := match f with
                 | String _ f' => Some (encode fragment_set f')
                 | EmptyString => None
                 end in
      let u := Make bs qry frg (parse_query (default "" qry)) in
      if ascii_text s && valid u then Some u else None
  end.

(** [url.searchParams.set(k, v)]: the list is changed and the query is
    its serialization. *)
Definition set_param (k v : string) (u : t) : t :=
  let l := set k v (params u) in
  Make (base u) (Some (serialize l)) (fragment u) l.

(** The getters. *)
Definition protocol (u : t) : string := scheme (base u) ++ ":".
Definition hostname (u : t) : string := default "" (host (base u)).
Definition port_string (u : t) : string :=
  match port (base u) with Some n => decimal n | None => "" end.
Definition pathname (u : t) : string := print_path (path (base u)).
Definition hash (u : t) : string :=
  match fragment u with
  | Some (String c f) => String "#" (String c f)
  | _ => ""
  end.

End SimpleUrl.

#[export, refine] Instance simpleUrlApi : UrlApi := {|
  URL := SimpleUrl.t;
  new_URL := SimpleUrl.parse;
  URL_protocol := SimpleUrl.protocol;
  URL_hostname := SimpleUrl.hostname;
  searchParams_set := SimpleUrl.set_param;
  searchParams_get := fun k u => SimpleUrl.get k (SimpleUrl.params u);
  URL_toString := SimpleUrl.toString;
  searchParams_set_protocol := fun _ _ _ => eq_refl;
  searchParams_set_hostname := fun _ _ _ => eq_refl
|}.
Proof.
  - intros k v u. cbn [SimpleUrl.set_param SimpleUrl.params].
    induction (SimpleUrl.params u) as [|[a b] l IH]; cbn [SimpleUrl.set SimpleUrl.get].
    + now rewrite String.eqb_refl.
    + destruct (String.eqb_spec k a) as [->|Hka]; cbn [SimpleUrl.get].
      * now rewrite String.eqb_refl.
      * destruct (String.eqb_spec k a); [contradiction | exact IH].
  - intros k k' v u Hne. cbn [SimpleUrl.set_param SimpleUrl.params].
    induction (SimpleUrl.params u) as [|[a b] l IH]; cbn [SimpleUrl.set SimpleUrl.get].
    + destruct (String.eqb_spec k' k); [congruence | reflexivity].
    + destruct (String.eqb_spec k a) as [->|Hka]; cbn [SimpleUrl.get].
      * destruct (String.eqb_spec k' a); [congruence|].
        clear IH. induction l as [|[c d] l IH]; [reflexivity|].
        cbn [List.filter SimpleUrl.get fst].
        destruct (String.eqb_spec a c) as [->|Hac]; cbn [negb SimpleUrl.get].
        -- destruct (String.eqb_spec k' c); [congruence | exact IH].
        -- destruct (String.eqb_spec k' c); [reflexivity | exact IH].
      * destruct (String.eqb_spec k' a); [reflexivity | exact IH].
Defined.

(** ** Data model (oauth.ts, lines 14-45) *)

Module AuthorizationCode.
Record t := Make {
  code : string;
  clientId : string;
  redirectUri : string;
  codeChallenge : string;
  codeChallengeMethod : string;
  expiresAt : Z;
  used : bool }.

(** [authCode.used = true] on the object held by the map *)
Definition mark_used (a : t) : t :=
  Make (code a) (clientId a) (redirectUri a) (codeChallenge a)
       (codeChallengeMethod a) (expiresAt a) true.
End AuthorizationCode.

Module RegisteredClient.
Record t := Make {
  clientId : string;
  clientSecret : option string;
  redirectUris : list string;
  clientName : option string;
  createdAt : Z }.
End RegisteredClient.

Module AccessToken.
Record t := Make {
  token : string;
  clientId : string;
  expiresAt : Z }.
End AccessToken.

Definition TOKEN_EXPIRY_SECONDS : Z := 3600.
Definition CODE_EXPIRY_SECONDS : Z := 600.

(** The process state: the three module-level maps, and the two sources the
    handlers read from the outside world.  [clock n] is the value of the
    n-th coming call of [Date.now()] (milliseconds), [entropy n] the n-th
    coming byte of [crypto.randomBytes]; a read consumes its prefix. *)
Record Server := mkServer {
  authorizationCodes : gmap string AuthorizationCode.t;
  registeredClients : gmap string RegisteredClient.t;
  accessTokens : gmap string AccessToken.t;
  clock : nat -> Z;
  entropy : nat -> Byte.byte }.

Definition set_authorizationCodes (m : gmap string AuthorizationCode.t) (w : Server) : Server :=
  mkServer m (registeredClients w) (accessTokens w) (clock w) (entropy w).

Definition set_registeredClients (m : gmap string RegisteredClient.t) (w : Server) : Server :=
  mkServer (authorizationCodes w) m (accessTokens w) (clock w) (entropy w).

Definition set_accessTokens (m : gmap string AccessToken.t) (w : Server) : Server :=
  mkServer (authorizationCodes w) (registeredClients w) m (clock w) (entropy w).

(** Handlers run in the state monad over [Server]. *)
Definition M (A : Type) : Type := Server -> A * Server.

Definition ret {A} (a : A) : M A := fun w => (a, w).

Definition bind {A B} (m : M A) (k : A -> M B) : M B :=
  fun w => let '(a, w') := m w in k a w'.

Notation "x <- m ;; k" := (bind m (fun x => k))
  (at level 100, m at next level, right associativity).
Notation "m ;;; k" := (bind m (fun _ => k))
  (at level 100, right associativity).

Definition get_state : M Server := fun w => (w, w).
Definition modify (f : Server -> Server) : M unit := fun w => (tt, f w).

(** [Date.now()] *)
Definition Date_now : M Z :=
  fun w => (clock w O,
            mkServer (authorizationCodes w) (registeredClients w) (accessTokens w)
                     (fun n => clock w (S n)) (entropy w)).

(** [crypto.randomBytes(n)] *)
Definition randomBytes (n : nat) : M (list Z) :=
  fun w => (map (fun i => Z.of_N (Byte.to_N (entropy w i))) (seq 0 n),
            mkServer (authorizationCodes w) (registeredClients w) (accessTokens w)
                     (clock w) (fun i => entropy w (n + i)%nat)).

(** [generateRandomString] (lines 50-52) *)
Definition generateRandomString (length : nat) : M string :=
  bs <- randomBytes length ;;
  ret (Node.slice0 length (Node.base64url bs)).

(** [verifyCodeChallenge] (lines 57-72) *)
Definition verifyCodeChallenge (codeVerifier codeChallenge method : string) : bool :=
  if (method =? "S256")%string then
    let hash := Node.sha256_base64url codeVerifier in
    (hash =? codeChallenge)%string
  else if (method =? "plain")%string then
    (codeVerifier =? codeChallenge)%string
  else false.

(** ** Requests and responses

    A request field is [None] when the key is absent ([undefined]) and
    [Some s] when it carries the string [s].  The records below hold
    requests all of whose fields are strings; a body parsed by
    [express.json()] can carry other values, and [Parsed.handleToken]
    further down takes those. *)

(** JavaScript truthiness of such a field: [undefined] and [""] are falsy. *)
Definition truthy (v : option string) : bool :=
  match v with
  | Some s => negb (s =? "")%string
  | None => false
  end.

(** [v === s] for a string literal or a stored string [s] *)
Definition strict_eq (v : option string) (s : string) : bool :=
  match v with
  | Some s' => (s' =? s)%string
  | None => false
  end.

Module RegisterReq.
(** [redirect_uris] is [None] when the field is missing or is not an
    array, [Some l] for an array of URI strings. *)
Record t := Make {
  redirect_uris : option (list string);
  client_name : option string }.
End RegisterReq.

Module AuthorizeReq.
Record t := Make {
  client_id : option string;
  redirect_uri : option string;
  response_type : option string;
  code_challenge : option string;
  code_challenge_method : option string;
  state : option string }.
End AuthorizeReq.

Module TokenReq.
Record t := Make {
  grant_type : option string;
  code : option string;
  redirect_uri : option string;
  client_id : option string;
  code_verifier : option string }.
End TokenReq.

Inductive Response :=
| json_error (status : Z) (error error_description : string)
    (* res.status(status).json({ error, error_description }) *)
| json_client (status : Z) (client_id client_secret : string)
    (redirect_uris : list string) (client_name : option string)
    (token_endpoint_auth_method : string)
| json_token (access_token token_type : string) (expires_in : Z)
    (* res.json(...), status 200 *)
| send_text (status : Z) (body : string)
| redirect (status : Z) (location : string)
| uncaught_TypeError.
    (* an exception left the handler; no response was written by it *)

(** ** handleRegister (lines 109-163) *)

(** The validation loop of lines 121-141: the response of the first
    offending URI, if any. *)
Fixpoint validateRedirectUris `{UrlApi} (uris : list string) : option Response :=
  match uris with
  | [] => None
  | uri :: rest =>
      match new_URL uri with
      | Some url =>
          let isLocalhost :=
            (URL_hostname url =? "localhost")%string
            || (URL_hostname url =? "127.0.0.1")%string in
          let isHttps := (URL_protocol url =? "https:")%string in
          if negb isLocalhost && negb isHttps then
            Some (json_error 400 "invalid_redirect_uri"
                    "Redirect URIs must be localhost or HTTPS")
          else validateRedirectUris rest
      | None =>
          Some (json_error 400 "invalid_redirect_uri" "Invalid redirect URI format")
      end
  end.

Definition handleRegister `{UrlApi} (req : RegisterReq.t) : M Response :=
  match RegisterReq.redirect_uris req with
  | None | Some [] =>
      ret (json_error 400 "invalid_request" "redirect_uris is required")
  | Some redirect_uris =>
      match validateRedirectUris redirect_uris with
      | Some failure => ret failure
      | None =>
          clientId <- generateRandomString 32 ;;
          clientSecret <- generateRandomString 48 ;;
          createdAt <- Date_now ;;
          let client :=
            RegisteredClient.Make clientId (Some clientSecret) redirect_uris
              (RegisterReq.client_name req) createdAt in
          modify (fun w => set_registeredClients
                             (<[clientId := client]> (registeredClients w)) w) ;;;
          ret (json_client 201 clientId clientSecret redirect_uris
                 (RegisterReq.client_name req) "client_secret_post")
      end
  end.

(** ** handleAuthorize (lines 169-226) *)

Definition or_default (v : option string) (d : string) : string :=
  match v with
  | Some s => if (s =? "")%string then d else s
  | None => d
  end.

Definition handleAuthorize `{UrlApi} (req : AuthorizeReq.t) : M Response :=
  if negb (truthy (AuthorizeReq.client_id req)) then
    ret (send_text 400 "Missing client_id")
  else if negb (strict_eq (AuthorizeReq.response_type req) "code") then
    ret (send_text 400 "Unsupported response_type. Only 'code' is supported.")
  else if negb (truthy (AuthorizeReq.redirect_uri req)) then
    ret (send_text 400 "Missing redirect_uri")
  else if negb (truthy (AuthorizeReq.code_challenge req)) then
    ret (send_text 400 "Missing code_challenge (PKCE required)")
  else
    let client_id := default "" (AuthorizeReq.client_id req) in
    let redirect_uri := default "" (AuthorizeReq.redirect_uri req) in
    let code_challenge := default "" (AuthorizeReq.code_challenge req) in
    code <- generateRandomString 48 ;;
    now <- Date_now ;;
    let authCode :=
      AuthorizationCode.Make code client_id redirect_uri code_challenge
        (or_default (AuthorizeReq.code_challenge_method req) "plain")
        (now + CODE_EXPIRY_SECONDS * 1000) false in
    modify (fun w => set_authorizationCodes
                       (<[code := authCode]> (authorizationCodes w)) w) ;;;
    match new_URL redirect_uri with
    | None => ret uncaught_TypeError
    | Some redirectUrl =>
        let redirectUrl := searchParams_set "code" code redirectUrl in
        let redirectUrl :=
          if truthy (AuthorizeReq.state req)
          then searchParams_set "state" (default "" (AuthorizeReq.state req)) redirectUrl
          else redirectUrl in
        ret (redirect 302 (URL_toString redirectUrl))
    end.

(** ** handleToken (lines 232-345) *)

Definition handleToken (req : TokenReq.t) : M Response :=
  if negb (strict_eq (TokenReq.grant_type req) "authorization_code") then
    ret (json_error 400 "unsupported_grant_type"
           "Only authorization_code grant is supported")
  else if negb (truthy (TokenReq.code req)) then
    ret (json_error 400 "invalid_request" "Missing authorization code")
  else
    let code := default "" (TokenReq.code req) in
    w <- get_state ;;
    match authorizationCodes w !! code with
    | None =>
        ret (json_error 400 "invalid_grant" "Invalid authorization code")
    | Some authCode =>
        now <- Date_now ;;
        if now >? AuthorizationCode.expiresAt authCode then
          modify (fun w => set_authorizationCodes (delete code (authorizationCodes w)) w) ;;;
          ret (json_error 400 "invalid_grant" "Authorization code has expired")
        else if AuthorizationCode.used authCode then
          modify (fun w => set_authorizationCodes (delete code (authorizationCodes w)) w) ;;;
          ret (json_error 400 "invalid_grant" "Authorization code has already been used")
        else if truthy (TokenReq.client_id req)
                && negb (strict_eq (TokenReq.client_id req) (AuthorizationCode.clientId authCode)) then
          ret (json_error 400 "invalid_grant" "Client ID mismatch")
        else if truthy (TokenReq.redirect_uri req)
                && negb (strict_eq (TokenReq.redirect_uri req) (AuthorizationCode.redirectUri authCode)) then
          ret (json_error 400 "invalid_grant" "Redirect URI mismatch")
        else if negb (truthy (TokenReq.code_verifier req)) then
          ret (json_error 400 "invalid_request" "Missing code_verifier (PKCE required)")
        else if negb (verifyCodeChallenge (default "" (TokenReq.code_verifier req))
                        (AuthorizationCode.codeChallenge authCode)
                        (AuthorizationCode.codeChallengeMethod authCode)) then
          ret (json_error 400 "invalid_grant" "Invalid code_verifier")
        else
          modify (fun w => set_authorizationCodes
                   (<[code := AuthorizationCode.mark_used authCode]> (authorizationCodes w)) w) ;;;
          accessToken <- generateRandomString 64 ;;
          now' <- Date_now ;;
          let expiresAt := now' + TOKEN_EXPIRY_SECONDS * 1000 in
          modify (fun w => set_accessTokens
                   (<[accessToken := AccessToken.Make accessToken
                                        (AuthorizationCode.clientId authCode) expiresAt]>
                      (accessTokens w)) w) ;;;
          modify (fun w => set_authorizationCodes (delete code (authorizationCodes w)) w) ;;;
          ret (json_token accessToken "Bearer" TOKEN_EXPIRY_SECONDS)
    end.

(** ** Bodies as the parsers deliver them

    index.ts installs [express.urlencoded({ extended: true })] and
    [express.json()], and [handleToken] destructures [req.body] without
    looking at the types: a field is absent or holds any JSON value. *)

(** A JSON number: a rational, or an overflowing literal such as [1e999]. *)
Inductive Number :=
| finite (q : QArith_base.Q)
| infinite (negative : bool).

Inductive JsValue :=
| js_undefined
| js_null
| js_boolean (b : bool)
| js_number (n : Number)
| js_string (s : string)
| js_object.     (* an array or an object; the handler never looks inside *)

#[global] Instance Q_eq_dec : EqDecision QArith_base.Q.
Proof. solve_decision. Defined.

#[global] Instance Number_eq_dec : EqDecision Number.
Proof. solve_decision. Defined.

#[global] Instance JsValue_eq_dec : EqDecision JsValue.
Proof. solve_decision. Defined.

(** [ToBoolean]: what [!v] and [v && ...] test. *)
Definition ToBoolean (v : JsValue) : bool :=
  match v with
  | js_undefined | js_null => false
  | js_boolean b => b
  | js_number (finite q) => negb (QArith_base.Qeq_bool q (QArith_base.Qmake 0 1))
  | js_number (infinite _) => true
  | js_string s => negb (s =? "")%string
  | js_object => true
  end.

(** [v === s] for a string [s]. *)
Definition is_string (v : JsValue) (s : string) : bool :=
  match v with
  | js_string s' => (s' =? s)%string
  | _ => false
  end.

Definition to_js (v : option string) : JsValue :=
  match v with
  | Some s => js_string s
  | None => js_undefined
  end.

Module TokenBody.
Record t := Make {
  grant_type : JsValue;
  code : JsValue;
  redirect_uri : JsValue;
  client_id : JsValue;
  code_verifier : JsValue }.

Definition of_req (req : TokenReq.t) : t :=
  Make (to_js (TokenReq.grant_type req)) (to_js (TokenReq.code req))
       (to_js (TokenReq.redirect_uri req)) (to_js (TokenReq.client_id req))
       (to_js (TokenReq.code_verifier req)).
End TokenBody.

Module Parsed.

(** [authorizationCodes.get(code)]: the keys are strings, and no other
    value is the same as a string. *)
Definition Map_get {A} (m : gmap string A) (key : JsValue) : option A :=
  match key with
  | js_string k => m !! k
  | _ => None
  end.

(** [authorizationCodes.delete(code)] *)
Definition Map_delete {A} (key : JsValue) (m : gmap string A) : gmap string A :=
  match key with
  | js_string k => delete k m
  | _ => m
  end.

(** [authCode.used = true] writes to the object the map holds under
    [code], the key it was just found under. *)
Definition Map_set {A} (key : JsValue) (a : A) (m : gmap string A) : gmap string A :=
  match key with
  | js_string k => <[k := a]> m
  | _ => m
  end.

(** [verifyCodeChallenge] (lines 57-72) on any value: [Hash.update]
    throws a [TypeError] for an argument that is neither a string nor a
    buffer; [None] stands for that exception. *)
Definition verifyCodeChallenge (codeVerifier : JsValue) (codeChallenge method : string)
  : option bool :=
  if (method =? "S256")%string then
    match codeVerifier with
    | js_string s =>
        let hash := Node.sha256_base64url s in
        Some (hash =? codeChallenge)%string
    | _ => None
    end
  else if (method =? "plain")%string then
    Some (is_string codeVerifier codeChallenge)
  else Some false.

(** [handleToken] (lines 232-345) on any body. *)
Definition handleToken (body : TokenBody.t) : M Response :=
  if negb (is_string (TokenBody.grant_type body) "authorization_code") then
    ret (json_error 400 "unsupported_grant_type"
           "Only authorization_code grant is supported")
  else if negb (ToBoolean (TokenBody.code body)) then
    ret (json_error 400 "invalid_request" "Missing authorization code")
  else
    let code := TokenBody.code body in
    w <- get_state ;;
    match Map_get (authorizationCodes w) code with
    | None =>
        ret (json_error 400 "invalid_grant" "Invalid authorization code")
    | Some authCode =>
        now <- Date_now ;;
        if now >? AuthorizationCode.expiresAt authCode then
          modify (fun w => set_authorizationCodes (Map_delete code (authorizationCodes w)) w) ;;;
          ret (json_error 400 "invalid_grant" "Authorization code has expired")
        else if AuthorizationCode.used authCode then
          modify (fun w => set_authorizationCodes (Map_delete code (authorizationCodes w)) w) ;;;
          ret (json_error 400 "invalid_grant" "Authorization code has already been used")
        else if ToBoolean (TokenBody.client_id body)
                && negb (is_string (TokenBody.client_id body)
                           (AuthorizationCode.clientId authCode)) then
          ret (json_error 400 "invalid_grant" "Client ID mismatch")
        else if ToBoolean (TokenBody.redirect_uri body)
                && negb (is_string (TokenBody.redirect_uri body)
                           (AuthorizationCode.redirectUri authCode)) then
          ret (json_error 400 "invalid_grant" "Redirect URI mismatch")
        else if negb (ToBoolean (TokenBody.code_verifier body)) then
          ret (json_error 400 "invalid_request" "Missing code_verifier (PKCE required)")
        else
          match verifyCodeChallenge (TokenBody.code_verifier body)
                  (AuthorizationCode.codeChallenge authCode)
                  (AuthorizationCode.codeChallengeMethod authCode) with
          | None => ret uncaught_TypeError
          | Some false => ret (json_error 400 "invalid_grant" "Invalid code_verifier")
          | Some true =>
              modify (fun w => set_authorizationCodes
                       (Map_set code (AuthorizationCode.mark_used authCode)
                          (authorizationCodes w)) w) ;;;
              accessToken <- generateRandomString 64 ;;
              now' <- Date_now ;;
              let expiresAt := now' + TOKEN_EXPIRY_SECONDS * 1000 in
              modify (fun w => set_accessTokens
                       (<[accessToken :=
                            AccessToken.Make accessToken
                              (AuthorizationCode.clientId authCode) expiresAt]>
                          (accessTokens w)) w) ;;;
              modify (fun w => set_authorizationCodes
                       (Map_delete code (authorizationCodes w)) w) ;;;
              ret (json_token accessToken "Bearer" TOKEN_EXPIRY_SECONDS)
          end
    end.

End Parsed.

(** ** validateAccessToken (lines 351-375) *)

(** [String.prototype.split(" ")]: the pieces between the separators, empty
    pieces included. *)
Fixpoint split (sep : ascii) (s : string) : list string :=
  match s with
  | EmptyString => [EmptyString]
  | String c r =>
      if Ascii.eqb c sep then EmptyString :: split sep r
      else match split sep r with
           | [] => [String c EmptyString]
           | p :: ps => String c p :: ps
           end
  end.

Definition validateAccessToken (authHeader : option string) : M bool :=
  if negb (truthy authHeader) then ret false
  else
    match split " " (default "" authHeader) with
    | [part0; token] =>
        if negb (part0 =? "Bearer")%string then ret false
        else
          w <- get_state ;;
          match accessTokens w !! token with
          | None => ret false
          | Some tokenData =>
              now <- Date_now ;;
              if now >? AccessToken.expiresAt tokenData then
                modify (fun w => set_accessTokens (delete token (accessTokens w)) w) ;;;
                ret false
              else ret true
          end
    | _ => ret false
    end.

(** ** cleanupExpired (lines 380-394)

    One [for ... of] loop over a map, deleting from that map the entries
    met with [now > expiresAt]; the entries are visited in some order. *)
Definition sweep {A} (expiresAt : A -> Z) (now : Z) (m : gmap string A) : gmap string A :=
  map_fold (fun key data acc => if now >? expiresAt data then delete key acc else acc) m m.

Definition cleanupExpired : M unit :=
  now <- Date_now ;;
  modify (fun w => set_authorizationCodes
            (sweep AuthorizationCode.expiresAt now (authorizationCodes w)) w) ;;;
  modify (fun w => set_accessTokens
            (sweep AccessToken.expiresAt now (accessTokens w)) w).

(** A process that has just started: empty maps, a clock that starts at
    [t0] and advances by one millisecond per reading, and a fixed byte
    tape standing for the random source. *)
Definition tape (seed : nat) (n : nat) : Byte.byte :=
  default Byte.x00 (Byte.of_N (N.of_nat ((seed + 7 * n) mod 256))).

Definition fresh_server (t0 : Z) (seed : nat) : Server :=
  mkServer ∅ ∅ ∅ (fun n => t0 + Z.of_nat n) (tape seed).

(** * Vocabulary of the statements *)

(** The state after one reading of the clock. *)
Definition tick (w : Server) : Server := snd (Date_now w).

(** [n] successive calls of a handler, results in call order. *)
Fixpoint replicateM {A} (n : nat) (m : M A) : M (list A) :=
  match n with
  | O => ret []
  | S n' => a <- m ;; rest <- replicateM n' m ;; ret (a :: rest)
  end.

(** What a successful exchange of [authCode] (stored under [code]) does to
    the state: lines 324-338. *)
Definition issued_token (w : Server) : string :=
  fst (generateRandomString 64 (tick w)).

Definition issued (code : string) (authCode : AuthorizationCode.t) (w : Server) : Server :=
  let w1 := snd (generateRandomString 64 (tick w)) in
  let accessToken := issued_token w in
  mkServer
    (delete code (<[code := AuthorizationCode.mark_used authCode]> (authorizationCodes w)))
    (registeredClients w)
    (<[accessToken := AccessToken.Make accessToken (AuthorizationCode.clientId authCode)
                        (clock w1 0 + TOKEN_EXPIRY_SECONDS * 1000)]> (accessTokens w))
    (clock (tick w1)) (entropy w1).

Definition drop_code (code : string) (w : Server) : Server :=
  set_authorizationCodes (delete code (authorizationCodes w)) w.

(** *** The validation sequence as the specification lists it

    Nine named checks, each a predicate of the body and the state on its
    own, in the order of the specification; the first one that fails
    decides the response.  These definitions follow the words of the
    specification (section 4.3) and use nothing of the handler: the PKCE
    check recomputes the challenge from SHA-256 and base64url itself.  What
    counts as a field being "missing" or "not supplied" is a parameter:
    the specification's reading is that the field is absent. *)
Inductive Check :=
| GrantType | CodeMissing | CodeUnknown | Expired | Used
| ClientMismatch | RedirectMismatch | VerifierMissing | PkceMismatch.

(** The entry the store holds under the body's code. *)
Definition stored_code (body : TokenBody.t) (w : Server) : option AuthorizationCode.t :=
  match TokenBody.code body with
  | js_string c => authorizationCodes w !! c
  | _ => None
  end.

Definition on_stored (body : TokenBody.t) (w : Server)
    (p : AuthorizationCode.t -> bool) : bool :=
  match stored_code body w with
  | Some authCode => p authCode
  | None => false
  end.

(** Step 9 of the specification: under [S256] the URL-safe base64 of the
    SHA-256 digest of the verifier is the stored challenge, under [plain]
    the verifier is the challenge, and any other method fails. *)
Definition pkce_holds (method : string) (verifier : JsValue) (challenge : string) : bool :=
  match verifier with
  | js_string v =>
      if bool_decide (method = "S256")
      then bool_decide (Node.base64url (Node.sha256 (Node.bytes_of v)) = challenge)
      else if bool_decide (method = "plain") then bool_decide (v = challenge)
      else false
  | _ => false
  end.

Definition check_fails (missing : JsValue -> bool) (chk : Check)
    (body : TokenBody.t) (w : Server) : bool :=
  match chk with
  | GrantType =>
      negb (bool_decide (TokenBody.grant_type body = js_string "authorization_code"))
  | CodeMissing => missing (TokenBody.code body)
  | CodeUnknown => negb (bool_decide (is_Some (stored_code body w)))
  | Expired => on_stored body w (fun a => clock w 0 >? AuthorizationCode.expiresAt a)
  | Used => on_stored body w AuthorizationCode.used
  | ClientMismatch =>
      on_stored body w (fun a =>
        negb (missing (TokenBody.client_id body))
        && negb (bool_decide (TokenBody.client_id body
                              = js_string (AuthorizationCode.clientId a))))
  | RedirectMismatch =>
      on_stored body w (fun a =>
        negb (missing (TokenBody.redirect_uri body))
        && negb (bool_decide (TokenBody.redirect_uri body
                              = js_string (AuthorizationCode.redirectUri a))))
  | VerifierMissing => missing (TokenBody.code_verifier body)
  | PkceMismatch =>
      on_stored body w (fun a =>
        negb (pkce_holds (AuthorizationCode.codeChallengeMethod a)
                (TokenBody.code_verifier body) (AuthorizationCode.codeChallenge a)))
  end.

Definition spec_order : list Check :=
  [ GrantType; CodeMissing; CodeUnknown; Expired; Used;
    ClientMismatch; RedirectMismatch; VerifierMissing; PkceMismatch ].

Definition first_failure (missing : JsValue -> bool) (body : TokenBody.t) (w : Server)
  : option Check :=
  List.find (fun chk => check_fails missing chk body w) spec_order.

(** The claim's reading: a field is missing when the body does not have
    it. *)
Definition absent (v : JsValue) : bool :=
  match v with
  | js_undefined => true
  | _ => false
  end.

Definition spec_first_failure : TokenBody.t -> Server -> option Check :=
  first_failure absent.

(** The reading under which the claim holds: a field is missing when it
    is absent or empty, or more generally falsy. *)
Definition falsy (v : JsValue) : bool := negb (ToBoolean v).

(** The one case the sequence does not cover: a verifier that is there
    and is not a string, to be hashed under [S256]. *)
Definition unhashable (body : TokenBody.t) (w : Server) : bool :=
  on_stored body w (fun a =>
    bool_decide (AuthorizationCode.codeChallengeMethod a = "S256")
    && match TokenBody.code_verifier body with
       | js_string _ => false
       | _ => true
       end).

Definition spec_error (chk : Check) : string * string :=
  match chk with
  | GrantType => ("unsupported_grant_type", "Only authorization_code grant is supported")
  | CodeMissing => ("invalid_request", "Missing authorization code")
  | CodeUnknown => ("invalid_grant", "Invalid authorization code")
  | Expired => ("invalid_grant", "Authorization code has expired")
  | Used => ("invalid_grant", "Authorization code has already been used")
  | ClientMismatch => ("invalid_grant", "Client ID mismatch")
  | RedirectMismatch => ("invalid_grant", "Redirect URI mismatch")
  | VerifierMissing => ("invalid_request", "Missing code_verifier (PKCE required)")
  | PkceMismatch => ("invalid_grant", "Invalid code_verifier")
  end.

(** The checks after which the stored entry is deleted. *)
Definition spec_deletes (chk : Check) : bool :=
  match chk with
  | Expired | Used => true
  | _ => false
  end.

(** A running example: the PKCE pair of RFC 7636 appendix B, one code
    minted for it, and the exchange request that redeems the code. *)
Definition rfc_verifier : string := "dBjftJeZ4CVP-mB92K27uhbUJU1p1r_wW1gFWFOEjXk".
Definition rfc_challenge : string := "E9Melhoa2OwvFrEMTJguCHaoeK1t8URWbuGJSstw-cM".

Definition demo_code : AuthorizationCode.t :=
  AuthorizationCode.Make "c0de" "client-1" "http://localhost:9999/cb"
    rfc_challenge "S256" 601000 false.

Definition demo_server : Server :=
  mkServer {[ "c0de" := demo_code ]} ∅ ∅ (fun n => 2000 + Z.of_nat n) (tape 5).

Definition demo_exchange : TokenReq.t :=
  TokenReq.Make (Some "authorization_code") (Some "c0de") None None (Some rfc_verifier).

(** The same exchange with an empty [client_id] supplied, and with a
    number for the verifier. *)
Definition empty_client_exchange : TokenBody.t :=
  TokenBody.Make (js_string "authorization_code") (js_string "c0de") js_undefined
    (js_string "") (js_string rfc_verifier).

Definition empty_redirect_exchange : TokenBody.t :=
  TokenBody.Make (js_string "authorization_code") (js_string "c0de") (js_string "")
    js_undefined (js_string rfc_verifier).

Definition empty_code_exchange : TokenBody.t :=
  TokenBody.Make (js_string "authorization_code") (js_string "") js_undefined
    js_undefined (js_string rfc_verifier).

Definition empty_verifier_exchange : TokenBody.t :=
  TokenBody.Make (js_string "authorization_code") (js_string "c0de") js_undefined
    js_undefined (js_string "").

Definition numeric_verifier_exchange : TokenBody.t :=
  TokenBody.Make (js_string "authorization_code") (js_string "c0de") js_undefined
    js_undefined (js_number (finite (QArith_base.Qmake 42 1))).

(** The same exchange with a verifier that is not the one of the
    challenge. *)
Definition wrong_verifier_exchange : TokenBody.t :=
  TokenBody.Make (js_string "authorization_code") (js_string "c0de") js_undefined
    js_undefined (js_string "not-the-verifier").

(** The caller's [client_id] and [redirect_uri], when given, agree with the
    stored ones. *)
Definition optional_match (v : option string) (stored : string) : Prop :=
  truthy v = false \/ v = Some stored.

(** A request that passes every check against [authCode] stored under [c]. *)
Record redeems (req : TokenReq.t) (c : string) (authCode : AuthorizationCode.t) : Prop := {
  redeems_grant : TokenReq.grant_type req = Some "authorization_code";
  redeems_code : TokenReq.code req = Some c;
  redeems_client : optional_match (TokenReq.client_id req) (AuthorizationCode.clientId authCode);
  redeems_redirect : optional_match (TokenReq.redirect_uri req) (AuthorizationCode.redirectUri authCode);
  redeems_verifier : truthy (TokenReq.code_verifier req) = true;
  redeems_pkce :
    verifyCodeChallenge (default "" (TokenReq.code_verifier req))
      (AuthorizationCode.codeChallenge authCode)
      (AuthorizationCode.codeChallengeMethod authCode) = true }.

(** A stored code that can still be redeemed at the next clock reading. *)
Record redeemable (c : string) (authCode : AuthorizationCode.t) (w : Server) : Prop := {
  redeemable_nonempty : c <> "";
  redeemable_stored : authorizationCodes w !! c = Some authCode;
  redeemable_unexpired : clock w 0 <= AuthorizationCode.expiresAt authCode;
  redeemable_unused : AuthorizationCode.used authCode = false }.

Definition is_token (r : Response) : bool :=
  match r with
  | json_token _ _ _ => true
  | _ => false
  end.

(** The calls of [reqs] handled one after the other, in list order.  Every
    handler is a synchronous function, so on Node's event loop the calls of
    requests that arrive together run to completion one at a time, in some
    order: a list is one such schedule. *)
Fixpoint mapM {A B} (f : A -> M B) (l : list A) : M (list B) :=
  match l with
  | [] => ret []
  | a :: rest => b <- f a ;; bs <- mapM f rest ;; ret (b :: bs)
  end.

Definition unknown_code : Response :=
  json_error 400 "invalid_grant" "Invalid authorization code".

Definition already_used : Response :=
  json_error 400 "invalid_grant" "Authorization code has already been used".

(** A redirect URI the registration accepts: it parses, and its scheme is
    [https] or its host is [localhost] or [127.0.0.1]. *)
Definition uri_allowed `{UrlApi} (uri : string) : bool :=
  match new_URL uri with
  | Some url =>
      (URL_hostname url =? "localhost")%string
      || (URL_hostname url =? "127.0.0.1")%string
      || (URL_protocol url =? "https:")%string
  | None => false
  end.

Definition invalid_redirect_uri (r : Response) : Prop :=
  exists description, r = json_error 400 "invalid_redirect_uri" description.

Definition mixed_registration : RegisterReq.t :=
  RegisterReq.Make (Some ["https://app.example/cb"; "http://evil.example/cb"])
    (Some "demo").

(** *** The identifiers drawn by [generateRandomString]

    [base64url] maps three bytes to four characters, so the first [4n]
    characters of an encoding determine the first [3n] bytes: the 32
    characters of a client id are a one-to-one image of 24 random bytes. *)

Fixpoint index_of (c : ascii) (s : string) : nat :=
  match s with
  | EmptyString => O
  | String d r => if Ascii.eqb c d then O else S (index_of c r)
  end.

Definition unsextet (c : ascii) : Z := Z.of_nat (index_of c Node.alphabet).

Definition octet (b : Z) : Prop := 0 <= b < 256.

Definition drawn_bytes (n : nat) (w : Server) : list Z := fst (randomBytes n w).

Definition registered_id (w : Server) : string := fst (generateRandomString 32 w).

Definition registered_secret (w : Server) : string :=
  fst (generateRandomString 48 (snd (generateRandomString 32 w))).

Definition loopback_registration : RegisterReq.t :=
  RegisterReq.Make (Some ["http://localhost:9999/cb"; "https://app.example/cb"]) None.

(** A process whose random source returns the same byte for ever. *)
Definition stuck_server : Server :=
  mkServer ∅ ∅ ∅ (fun n => 1000 + Z.of_nat n) (fun _ => Byte.x00).

(** The code minted by [handleAuthorize]: 48 characters from 48 random bytes. *)
Definition minted_code (w : Server) : string := fst (generateRandomString 48 w).

Definition demo_authorize (redirect_uri : string) (state : option string) : AuthorizeReq.t :=
  AuthorizeReq.Make (Some "never-registered") (Some redirect_uri) (Some "code")
    (Some rfc_challenge) (Some "S256") state.

Definition demo_redeem (code : string) : TokenReq.t :=
  TokenReq.Make (Some "authorization_code") (Some code)
    (Some "https://attacker.example/cb") (Some "never-registered") (Some rfc_verifier).

Definition demo_token : AccessToken.t := AccessToken.Make "tok" "client-1" 5000.

Definition token_server (t0 : Z) : Server :=
  mkServer ∅ ∅ {[ "tok" := demo_token ]} (fun n => t0 + Z.of_nat n) (tape 0).

(** Each rejection of the validation sequence on a concrete request. *)
Definition spent_code : AuthorizationCode.t :=
  AuthorizationCode.Make "spent" "client-1" "http://localhost:9999/cb"
    rfc_challenge "S256" 601000 true.

Definition stale_code : AuthorizationCode.t :=
  AuthorizationCode.Make "stale" "client-1" "http://localhost:9999/cb"
    rfc_challenge "S256" 1500 false.

Definition busy_server : Server :=
  mkServer {[ "c0de" := demo_code; "spent" := spent_code; "stale" := stale_code ]}
    ∅ ∅ (fun n => 2000 + Z.of_nat n) (tape 5).

Definition exchange (grant_type code redirect_uri client_id code_verifier : option string)
  : TokenReq.t :=
  TokenReq.Make grant_type code redirect_uri client_id code_verifier.

(** The transitions of the process: one handler call, or one sweep. *)
Inductive step `{UrlApi} : Server -> Server -> Prop :=
| step_register req w : step w (snd (handleRegister req w))
| step_authorize req w : step w (snd (handleAuthorize req w))
| step_token req w : step w (snd (handleToken req w))
| step_validate authHeader w : step w (snd (validateAccessToken authHeader w))
| step_cleanup w : step w (snd (cleanupExpired w)).

Definition codes_unused (w : Server) : Prop :=
  forall c a, authorizationCodes w !! c = Some a -> AuthorizationCode.used a = false.

(** ** getBaseUrl and handleMetadata (lines 77-103)

    The header values are those Express hands over: absent or a string;
    [req.protocol] is a string. *)
Module MetadataReq.
Record t := Make {
  x_forwarded_proto : option string;
  protocol : string;
  x_forwarded_host : option string;
  host : option string }.
End MetadataReq.

(** [a || b] on request fields *)
Definition js_or (a b : option string) : option string :=
  if truthy a then a else b.

(** A field inside a template literal: [undefined] prints as such. *)
Definition template (v : option string) : string :=
  match v with
  | Some s => s
  | None => "undefined"
  end.

Definition getBaseUrl (req : MetadataReq.t) : string :=
  let proto :=
    js_or (js_or (MetadataReq.x_forwarded_proto req) (Some (MetadataReq.protocol req)))
      (Some "https") in
  let host := js_or (MetadataReq.x_forwarded_host req) (MetadataReq.host req) in
  template proto ++ "://" ++ template host.

Record Metadata := mkMetadata {
  issuer : string;
  authorization_endpoint : string;
  token_endpoint : string;
  registration_endpoint : string;
  response_types_supported : list string;
  grant_types_supported : list string;
  token_endpoint_auth_methods_supported : list string;
  code_challenge_methods_supported : list string;
  scopes_supported : list string }.

(** [res.json(metadata)] *)
Definition handleMetadata (req : MetadataReq.t) : Metadata :=
  let baseUrl := getBaseUrl req in
  mkMetadata baseUrl (baseUrl ++ "/authorize") (baseUrl ++ "/token")
    (baseUrl ++ "/register") ["code"] ["authorization_code"]
    ["none"; "client_secret_post"] ["S256"; "plain"] ["mcp:tools"].

(** ** requireAuth (index.ts, the middleware in front of [/mcp]) *)
Inductive Gate :=
| gate_next
    (* next() *)
| gate_reject (status : Z) (www_authenticate : string) (code : Z) (message : string).
    (* setHeader("WWW-Authenticate", ...); res.status(status).json({ jsonrpc, error, id }) *)

Definition dquote : string := String (ascii_of_nat 34) EmptyString.

Definition requireAuth (authorization : option string) : M Gate :=
  valid <- validateAccessToken authorization ;;
  if negb valid then
    ret (gate_reject 401 ("Bearer realm=" ++ dquote ++ "mcp" ++ dquote) (-32001)
           "Unauthorized - valid Bearer token required")
  else ret gate_next.

(** A string made of characters of the URL-safe base64 alphabet only. *)
Definition url_safe (s : string) : Prop :=
  Forall (fun c => In c (list_ascii_of_string Node.alphabet)) (list_ascii_of_string s).

(** What every state reached from an empty one satisfies: each entry sits
    under its own identifier, identifiers have the length and alphabet of
    [generateRandomString], stored codes are unused and carry the
    non-empty fields their authorization had, and registered clients have
    a secret and a non-empty list of acceptable redirect URIs. *)
Record store_wf `{UrlApi} (w : Server) : Prop := {
  wf_codes : forall c a, authorizationCodes w !! c = Some a ->
    AuthorizationCode.code a = c /\ String.length c = 48%nat /\ url_safe c
    /\ AuthorizationCode.used a = false
    /\ AuthorizationCode.clientId a <> "" /\ AuthorizationCode.redirectUri a <> ""
    /\ AuthorizationCode.codeChallenge a <> ""
    /\ AuthorizationCode.codeChallengeMethod a <> "";
  wf_tokens : forall t d, accessTokens w !! t = Some d ->
    AccessToken.token d = t /\ String.length t = 64%nat /\ url_safe t;
  wf_clients : forall i r, registeredClients w !! i = Some r ->
    RegisteredClient.clientId r = i /\ String.length i = 32%nat /\ url_safe i
    /\ (exists secret, RegisteredClient.clientSecret r = Some secret
                       /\ String.length secret = 48%nat)
    /\ RegisteredClient.redirectUris r <> []
    /\ Forall (fun uri => uri_allowed uri = true) (RegisteredClient.redirectUris r) }.

(** The answer to an exchange of a code found expired. *)
Definition expired_code : Response :=
  json_error 400 "invalid_grant" "Authorization code has expired".

(** ** The static-token gate (src/auth/token.ts)

    Here a JavaScript string is its sequence of UTF-16 code units, which is
    what [length], [charCodeAt] and [split] see; [units] gives the code
    units of an ASCII literal of the source. *)
Module StaticGate.

Definition units (s : string) : list Z :=
  map (fun c => Z.of_nat (nat_of_ascii c)) (list_ascii_of_string s).

(** Truthiness of a string value that may be absent ([undefined], [null]). *)
Definition given (v : option (list Z)) : bool :=
  match v with
  | Some (_ :: _) => true
  | _ => false
  end.

(** [constantTimeCompare] (lines 56-66).  Code units are below 2^16, so the
    32-bit conversions of [|=] and [^] leave them as they are; [charCodeAt]
    is only called below both lengths. *)
Definition charCodeAt (s : list Z) (i : nat) : Z := nth i s 0.

Definition constantTimeCompare (a b : list Z) : bool :=
  if negb (Nat.eqb (length a) (length b)) then false
  else
    let result :=
      fold_left (fun result i => Z.lor result (Z.lxor (charCodeAt a i) (charCodeAt b i)))
        (seq 0 (length a)) 0 in
    Z.eqb result 0.

(** [getAuthToken] (lines 13-44) is an [async] function: it runs until its
    [await] in one piece, and its continuation runs in one piece once the
    secret store has replied.  [cached] is the module variable
    [cachedAuthToken], [None] standing for [null]. *)
Record Env := mkEnv {
  AUTH_TOKEN : option (list Z);
  AUTH_TOKEN_SECRET_ARN : option (list Z) }.

Inductive Resolution :=
| resolved (token : list Z)
| rejected.

Inductive Started :=
| settled (r : Resolution)
| awaiting.

Definition getAuthToken_start (env : Env) (cached : option (list Z))
  : Started * option (list Z) :=
  if given cached then (settled (resolved (default [] cached)), cached)
  else if given (AUTH_TOKEN env) then
    (settled (resolved (default [] (AUTH_TOKEN env))), AUTH_TOKEN env)
  else if negb (given (AUTH_TOKEN_SECRET_ARN env)) then (settled rejected, cached)
  else (awaiting, cached).

(** The reply of [client.send(command)]: an exception, or a response whose
    [SecretString] may be missing. *)
Inductive SecretReply :=
| send_threw
| SecretString (s : option (list Z)).

Definition getAuthToken_resume (reply : SecretReply) (cached : option (list Z))
  : Resolution * option (list Z) :=
  match reply with
  | send_threw => (rejected, cached)
  | SecretString s =>
      if negb (given s) then (rejected, cached)
      else (resolved (default [] s), s)
  end.

(** [String.prototype.split] at one code unit, as [split] above. *)
Fixpoint split_units (sep : Z) (s : list Z) : list (list Z) :=
  match s with
  | [] => [[]]
  | c :: r =>
      if Z.eqb c sep then [] :: split_units sep r
      else match split_units sep r with
           | [] => [[c]]
           | p :: ps => (c :: p) :: ps
           end
  end.

(** [validateToken] (lines 71-139): what the middleware does before the
    promise of [getAuthToken] settles, and what its [then] and [catch]
    callbacks do afterwards. *)
Inductive Reply :=
| next
| respond (status : Z) (code : Z) (message : string).

Inductive Pending :=
| answered (r : Reply)
| awaiting_token (providedToken : list Z).

Definition validateToken_start (path : string) (authorization : option (list Z)) : Pending :=
  if (path =? "/health")%string then answered next
  else if negb (given authorization) then
    answered (respond 401 (-32001) "Missing Authorization header")
  else
    match split_units 32 (default [] authorization) with
    | [part0; providedToken] =>
        if negb (bool_decide (part0 = units "Bearer")) then
          answered (respond 401 (-32001)
                      "Invalid Authorization header format. Expected: Bearer <token>")
        else awaiting_token providedToken
    | _ =>
        answered (respond 401 (-32001)
                    "Invalid Authorization header format. Expected: Bearer <token>")
    end.

Definition validateToken_settle (providedToken : list Z) (r : Resolution) : Reply :=
  match r with
  | resolved expectedToken =>
      if negb (constantTimeCompare providedToken expectedToken)
      then respond 403 (-32001) "Invalid token"
      else next
  | rejected => respond 500 (-32000) "Server configuration error"
  end.

(** The whole middleware for a request whose secret lookup settles as [r]. *)
Definition validateToken (path : string) (authorization : option (list Z))
    (r : Resolution) : Reply :=
  match validateToken_start path authorization with
  | answered reply => reply
  | awaiting_token providedToken => validateToken_settle providedToken r
  end.

(** One activation of [getAuthToken]: its synchronous part, or the
    continuation of an earlier call. *)
Inductive cache_step : option (list Z) -> option (list Z) -> Prop :=
| cache_start env cached : cache_step cached (snd (getAuthToken_start env cached))
| cache_resume reply cached : cache_step cached (snd (getAuthToken_resume reply cached)).

End StaticGate.

(** The module variable [cachedAuthToken] together with the number of calls
    of [getAuthToken] that are waiting for the secret store. *)
Record GateState := mkGate {
  cachedAuthToken : option (list Z);
  waiting : nat }.

(** One activation: a call runs up to its [await] (or to its end), or the
    continuation of a waiting call runs with the reply it got. *)
Inductive gate_step : GateState -> GateState -> Prop :=
| gate_call env g :
    gate_step g
      (mkGate (snd (StaticGate.getAuthToken_start env (cachedAuthToken g)))
         (match fst (StaticGate.getAuthToken_start env (cachedAuthToken g)) with
          | StaticGate.awaiting => S (waiting g)
          | StaticGate.settled _ => waiting g
          end))
| gate_reply reply g n :
    waiting g = S n ->
    gate_step g
      (mkGate (snd (StaticGate.getAuthToken_resume reply (cachedAuthToken g))) n).

(** [parts.join(sep)] *)
Fixpoint join_units (sep : Z) (parts : list (list Z)) : list Z :=
  match parts with
  | [] => []
  | [p] => p
  | p :: rest => p ++ sep :: join_units sep rest
  end.

(** ** Note paths (src/s3/operations.ts, [normalizePath] and
    [ensureMarkdownExtension])

    Strings are sequences of UTF-16 code units, as in [StaticGate]. *)
Module Vault.

(** The code points [String.prototype.trim] strips: WhiteSpace and
    LineTerminator of ECMAScript, all of them single code units. *)
Definition is_space (c : Z) : bool :=
  existsb (Z.eqb c)
    [9; 10; 11; 12; 13; 32; 160; 5760; 8232; 8233; 8239; 8287; 12288; 65279]
  || (Z.leb 8192 c && Z.leb c 8202).

Fixpoint trimStart (s : list Z) : list Z :=
  match s with
  | c :: r => if is_space c then trimStart r else s
  | [] => []
  end.

Fixpoint trimEnd (s : list Z) : list Z :=
  match s with
  | [] => []
  | c :: r =>
      match trimEnd r with
      | [] => if is_space c then [] else [c]
      | r' => c :: r'
      end
  end.

Definition trim (s : list Z) : list Z := trimEnd (trimStart s).

(** [replace(/^\/+/, "")]; 47 is the code unit of [/]. *)
Fixpoint strip_leading_slashes (s : list Z) : list Z :=
  match s with
  | c :: r => if Z.eqb c 47 then strip_leading_slashes r else s
  | [] => []
  end.

(** [replace(/\/+/g, "/")]: of every run of slashes the last one stays. *)
Fixpoint collapse_slashes (s : list Z) : list Z :=
  match s with
  | [] => []
  | c :: r =>
      if Z.eqb c 47 && match r with d :: _ => Z.eqb d 47 | [] => false end
      then collapse_slashes r
      else c :: collapse_slashes r
  end.

Definition normalizePath (path : list Z) : list Z :=
  collapse_slashes (strip_leading_slashes (trim path)).

(** [s.endsWith(suffix)] *)
Definition endsWith (s suffix : list Z) : bool :=
  Nat.leb (length suffix) (length s)
  && bool_decide (skipn (length s - length suffix) s = suffix).

Definition ensureMarkdownExtension (path : list Z) : list Z :=
  let normalized := normalizePath path in
  if endsWith normalized (StaticGate.units ".md") then normalized
  else (normalized ++ StaticGate.units ".md")%list.

(** Two slashes in a row somewhere in [s]. *)
Fixpoint has_double_slash (s : list Z) : bool :=
  match s with
  | c :: r =>
      (Z.eqb c 47 && match r with d :: _ => Z.eqb d 47 | [] => false end)
      || has_double_slash r
  | [] => false
  end.

End Vault.

(** A string that does not begin, or end, with a character [trim] strips. *)
Definition starts_clean (s : list Z) : Prop :=
  forall c, head s = Some c -> Vault.is_space c = false.

Definition ends_clean (s : list Z) : Prop :=
  forall c, last s = Some c -> Vault.is_space c = false.

(** ** Vault operations and the [write_note] and [read_note] tools

    The S3 client is outside the repository: each operation below takes
    the way its one [client.send] settled and returns the commands it sent
    together with the way its own promise settled. *)
Module VaultOps.

(** What a [catch] clause can tell about the value it caught. *)
Record Thrown := mkThrown {
  instanceof_Error : bool;
  instanceof_NoSuchKey : bool;
  name : option (list Z);
  httpStatusCode : option Z;   (* error.$metadata?.httpStatusCode *)
  message : list Z }.

Inductive Settled (A : Type) :=
| fulfilled (a : A)
| failed (e : Thrown).
Arguments fulfilled {A} a.
Arguments failed {A} e.

Inductive Command :=
| HeadObject (bucket key : list Z)
| GetObject (bucket key : list Z)
| PutObject (bucket key body contentType : list Z).

(** [new Error(message)] *)
Definition new_Error (message : list Z) : Thrown :=
  mkThrown true false (Some (StaticGate.units "Error")) None message.

(** [getBucketName] (s3/client.ts); [env] is [process.env.S3_BUCKET_NAME]. *)
Definition getBucketName (env : option (list Z)) : Settled (list Z) :=
  if negb (StaticGate.given env) then
    failed (new_Error (StaticGate.units "S3_BUCKET_NAME environment variable is not set"))
  else fulfilled (default [] env).

(** [noteExists] *)
Definition noteExists (env : option (list Z)) (path : list Z) (sent : Settled unit)
  : list Command * Settled bool :=
  match getBucketName env with
  | failed e => ([], failed e)
  | fulfilled bucket =>
      let key := Vault.ensureMarkdownExtension path in
      ([HeadObject bucket key],
       match sent with
       | fulfilled _ => fulfilled true
       | failed error =>
           if instanceof_NoSuchKey error
              || bool_decide (name error = Some (StaticGate.units "NotFound"))
           then fulfilled false
           else if bool_decide (httpStatusCode error = Some 404) then fulfilled false
           else failed error
       end)
  end.

(** [writeNote] *)
Definition writeNote (env : option (list Z)) (path content : list Z) (sent : Settled unit)
  : list Command * Settled unit :=
  match getBucketName env with
  | failed e => ([], failed e)
  | fulfilled bucket =>
      let key := Vault.ensureMarkdownExtension path in
      ([PutObject bucket key content (StaticGate.units "text/markdown; charset=utf-8")],
       sent)
  end.

(** [readNote]; the reply carries [await response.Body?.transformToString()],
    [None] for [undefined]. *)
Definition readNote (env : option (list Z)) (path : list Z)
    (sent : Settled (option (list Z))) : list Command * Settled (list Z) :=
  match getBucketName env with
  | failed e => ([], failed e)
  | fulfilled bucket =>
      let key := Vault.ensureMarkdownExtension path in
      let caught (error : Thrown) : Settled (list Z) :=
        if instanceof_NoSuchKey error
           || bool_decide (name error = Some (StaticGate.units "NoSuchKey"))
        then failed (new_Error (StaticGate.units "Note not found: " ++ path)%list)
        else failed error in
      ([GetObject bucket key],
       match sent with
       | fulfilled (Some body) => fulfilled body
       | fulfilled None =>
           caught (new_Error (StaticGate.units "Note is empty or unreadable: " ++ path)%list)
       | failed error => caught error
       end)
  end.

(** [textResult] and [errorResult] (types/index.ts); [isError] absent is
    [false]. *)
Record ToolResult := mkResult {
  text : list Z;
  isError : bool }.

Definition textResult (t : list Z) : ToolResult := mkResult t false.

Definition errorResult (m : list Z) : ToolResult :=
  mkResult (StaticGate.units "Error: " ++ m)%list true.

(** [error instanceof Error ? error.message : "Unknown error"] *)
Definition message_of (error : Thrown) : list Z :=
  if instanceof_Error error then message error else StaticGate.units "Unknown error".

(** The handler of [write_note] (tools/write.ts). *)
Definition write_note (env : option (list Z)) (path content : list Z) (overwrite : bool)
    (head put : Settled unit) : list Command * ToolResult :=
  let normalizedPath := Vault.ensureMarkdownExtension path in
  let caught (error : Thrown) : ToolResult :=
    errorResult (StaticGate.units "Failed to write note '" ++ path
                 ++ StaticGate.units "': " ++ message_of error)%list in
  let '(sent1, existsP) := noteExists env path head in
  match existsP with
  | failed error => (sent1, caught error)
  | fulfilled exists_ =>
      if exists_ && negb overwrite then
        (sent1,
         errorResult (StaticGate.units "Note '" ++ normalizedPath
                      ++ StaticGate.units "' already exists. Set overwrite=true to replace it.")%list)
      else
        let '(sent2, written) := writeNote env path content put in
        match written with
        | failed error => ((sent1 ++ sent2)%list, caught error)
        | fulfilled _ =>
            let action := if exists_ then StaticGate.units "Updated"
                          else StaticGate.units "Created" in
            ((sent1 ++ sent2)%list,
             textResult (action ++ StaticGate.units " note: " ++ normalizedPath)%list)
        end
  end.

(** The handler of [read_note] (tools/read.ts). *)
Definition read_note (env : option (list Z)) (path : list Z)
    (get : Settled (option (list Z))) : list Command * ToolResult :=
  let '(sent, content) := readNote env path get in
  match content with
  | fulfilled body => (sent, textResult body)
  | failed error =>
      (sent, errorResult (StaticGate.units "Failed to read note '" ++ path
                          ++ StaticGate.units "': " ++ message_of error)%list)
  end.

Definition is_put (c : Command) : bool :=
  match c with
  | PutObject _ _ _ _ => true
  | _ => false
  end.

(** The failures of [HeadObject] that [noteExists] reads as "no such
    note". *)
Definition missing (error : Thrown) : bool :=
  instanceof_NoSuchKey error
  || bool_decide (name error = Some (StaticGate.units "NotFound"))
  || bool_decide (httpStatusCode error = Some 404).

Definition markdown : list Z := StaticGate.units "text/markdown; charset=utf-8".

End VaultOps.

(** ** Listing the vault

    [listFiles] of s3/operations.ts, in the style of [VaultOps]: the reply
    of the one [client.send] is an input. *)
Module VaultList.

Record ListObjectsV2 := mkList {
  Bucket : list Z;
  Prefix : list Z;
  Delimiter : option (list Z);
  MaxKeys : Z;
  ContinuationToken : option (list Z) }.

Record S3Object := mkObject {
  Key : option (list Z);
  LastModified : option Z;
  Size : option Z }.

Record ListResponse := mkResponse {
  Contents : option (list S3Object);
  CommonPrefixes : option (list (option (list Z)));   (* each entry's [Prefix] *)
  IsTruncated : option bool;
  NextContinuationToken : option (list Z) }.

Record NoteMetadata := mkNote {
  path : list Z;
  lastModified : option Z;
  size : option Z }.

Record ListResult := mkListResult {
  files : list NoteMetadata;
  folders : list (list Z);
  truncated : bool;
  continuationToken : option (list Z) }.

(** [obj.Key?.endsWith(".md")] *)
Definition is_markdown (obj : S3Object) : bool :=
  match Key obj with
  | Some k => Vault.endsWith k (StaticGate.units ".md")
  | None => false
  end.

(** The prefix [listFiles] asks for. *)
Definition listPrefix (prefix : list Z) : list Z :=
  let normalizedPrefix := Vault.normalizePath prefix in
  if negb (Nat.eqb (length normalizedPrefix) 0)
     && negb (Vault.endsWith normalizedPrefix (StaticGate.units "/"))
  then (normalizedPrefix ++ StaticGate.units "/")%list
  else normalizedPrefix.

Definition listFiles (env : option (list Z)) (prefix : list Z) (maxKeys : Z)
    (token : option (list Z)) (sent : VaultOps.Settled ListResponse)
  : list ListObjectsV2 * VaultOps.Settled ListResult :=
  match VaultOps.getBucketName env with
  | VaultOps.failed e => ([], VaultOps.failed e)
  | VaultOps.fulfilled bucket =>
      let command :=
        mkList bucket (listPrefix prefix) (Some (StaticGate.units "/")) maxKeys token in
      ([command],
       match sent with
       | VaultOps.failed e => VaultOps.failed e
       | VaultOps.fulfilled response =>
           let files :=
             map (fun obj => mkNote (default [] (Key obj)) (LastModified obj) (Size obj))
                 (filter (fun obj => is_markdown obj = true)
                         (default [] (Contents response))) in
           let folders :=
             filter (fun p => p <> [])
                    (map (default []) (default [] (CommonPrefixes response))) in
           VaultOps.fulfilled
             (mkListResult files folders (default false (IsTruncated response))
                           (NextContinuationToken response))
       end)
  end.

End VaultList.

(** ** Named requests and replies of the statements *)

Definition s256_authorize : AuthorizeReq.t :=
  demo_authorize "http://localhost:9999/cb" (Some "xyz").

Definition unsupported_grant_type : Response :=
  json_error 400 "unsupported_grant_type" "Only authorization_code grant is supported".

Definition unsupported_response_type : Response :=
  send_text 400 "Unsupported response_type. Only 'code' is supported.".

Definition redirect_uris_required : Response :=
  json_error 400 "invalid_request" "redirect_uris is required".

(** ** Searching the vault

    [searchNotes] of s3/operations.ts.  [toLowerCase] is
    [String.prototype.toLowerCase], whose case tables lie outside the
    repository; it is a parameter.  [maxResults] is a number ([Q] holds
    every finite one); [pages] are the replies to the list requests in the
    order they are awaited, and [bodies i] is the reply to the [GetObject]
    for the [i]-th collected file. *)
Module VaultSearch.

Record SearchResult := mkHit {
  path : list Z;
  snippet : list Z }.

(** What a call did and how it settled; [outcome] is [None] while a list
    reply is awaited that [pages] does not hold. *)
Record Run := mkRun {
  lists : list VaultList.ListObjectsV2;
  gets : list VaultOps.Command;
  warnings : list (list Z);      (* the files [console.warn] names *)
  outcome : option (VaultOps.Settled (list SearchResult)) }.

(** The keys of a page that end in [.md]. *)
Definition mdFiles (response : VaultList.ListResponse) : list (list Z) :=
  map (fun obj => default [] (VaultList.Key obj))
      (filter (fun obj => VaultList.is_markdown obj = true)
              (default [] (VaultList.Contents response))).

(** The [do ... while (continuationToken)] loop. *)
Fixpoint collect (bucket normalizedPrefix : list Z) (allFiles : list (list Z))
    (continuationToken : option (list Z))
    (pages : list (VaultOps.Settled VaultList.ListResponse))
  : list VaultList.ListObjectsV2 * option (VaultOps.Settled (list (list Z))) :=
  match pages with
  | [] => ([], None)
  | reply :: rest =>
      let listCommand :=
        VaultList.mkList bucket normalizedPrefix None 1000 continuationToken in
      match reply with
      | VaultOps.failed e => ([listCommand], Some (VaultOps.failed e))
      | VaultOps.fulfilled listResponse =>
          let allFiles := (allFiles ++ mdFiles listResponse)%list in
          let continuationToken := VaultList.NextContinuationToken listResponse in
          if Nat.leb 500 (length allFiles) then
            ([listCommand], Some (VaultOps.fulfilled allFiles))
          else if StaticGate.given continuationToken then
            let '(sent, r) := collect bucket normalizedPrefix allFiles continuationToken rest in
            (listCommand :: sent, r)
          else ([listCommand], Some (VaultOps.fulfilled allFiles))
      end
  end.

(** [t] is a prefix of [s]. *)
Fixpoint starts (t s : list Z) : bool :=
  match t, s with
  | [], _ => true
  | c :: t', d :: s' => Z.eqb c d && starts t' s'
  | _ :: _, [] => false
  end.

(** [s.indexOf(t)]; [None] is -1. *)
Fixpoint indexOf (s t : list Z) : option nat :=
  if starts t s then Some 0%nat
  else match s with
       | [] => None
       | _ :: s' => option_map S (indexOf s' t)
       end.

(** [s.slice(start, end)] for indices that are not negative. *)
Definition slice (s : list Z) (start end_ : nat) : list Z :=
  firstn (end_ - start) (skipn start s).

(** [replace(/\s+/g, " ")]: of every run of white space one space stays. *)
Fixpoint squeeze (s : list Z) : list Z :=
  match s with
  | [] => []
  | c :: r =>
      if Vault.is_space c then
        if match r with d :: _ => Vault.is_space d | [] => false end
        then squeeze r
        else 32 :: squeeze r
      else c :: squeeze r
  end.

(** The snippet around a match at [index]; [qlen] is [query.length]. *)
Definition snippet_of (content : list Z) (index qlen : nat) : list Z :=
  let start := (index - 50)%nat in
  let end_ := Nat.min (length content) (index + qlen + 50) in
  let snippet := slice content start end_ in
  let snippet := if Nat.ltb 0 start then (StaticGate.units "..." ++ snippet)%list
                 else snippet in
  let snippet := if Nat.ltb end_ (length content) then (snippet ++ StaticGate.units "...")%list
                 else snippet in
  Vault.trim (squeeze snippet).

(** [results.length >= maxResults] *)
Definition enough (maxResults : QArith_base.Q) (results : list SearchResult) : bool :=
  QArith_base.Qle_bool maxResults (QArith_base.inject_Z (Z.of_nat (length results))).

(** The body of the [for] loop for one file: the file warned about, if
    any, and the results afterwards. *)
Definition examine (toLowerCase : list Z -> list Z) (query filePath : list Z)
    (reply : VaultOps.Settled (option (list Z))) (results : list SearchResult)
  : list (list Z) * list SearchResult :=
  match reply with
  | VaultOps.failed _ => ([filePath], results)
  | VaultOps.fulfilled None => ([], results)
  | VaultOps.fulfilled (Some content) =>
      if Nat.eqb (length content) 0 then ([], results)
      else
        match indexOf (toLowerCase content) (toLowerCase query) with
        | Some index =>
            ([], (results ++ [mkHit filePath (snippet_of content index (length query))])%list)
        | None => ([], results)
        end
  end.

(** The [for (const filePath of allFiles)] loop, from the [i]-th file on. *)
Fixpoint scan (toLowerCase : list Z -> list Z) (bucket query : list Z)
    (maxResults : QArith_base.Q) (allFiles : list (list Z)) (i : nat)
    (bodies : nat -> VaultOps.Settled (option (list Z))) (results : list SearchResult)
  : list VaultOps.Command * list (list Z) * list SearchResult :=
  match allFiles with
  | [] => ([], [], results)
  | filePath :: rest =>
      if enough maxResults results then ([], [], results)
      else
        let '(warned, results) := examine toLowerCase query filePath (bodies i) results in
        let '(sent, warns, out) :=
          scan toLowerCase bucket query maxResults rest (S i) bodies results in
        (VaultOps.GetObject bucket filePath :: sent, (warned ++ warns)%list, out)
  end.

Definition searchNotes (toLowerCase : list Z -> list Z) (env : option (list Z))
    (query prefix : list Z) (maxResults : QArith_base.Q)
    (pages : list (VaultOps.Settled VaultList.ListResponse))
    (bodies : nat -> VaultOps.Settled (option (list Z))) : Run :=
  match VaultOps.getBucketName env with
  | VaultOps.failed e => mkRun [] [] [] (Some (VaultOps.failed e))
  | VaultOps.fulfilled bucket =>
      let normalizedPrefix := Vault.normalizePath prefix in
      match collect bucket normalizedPrefix [] None pages with
      | (listed, None) => mkRun listed [] [] None
      | (listed, Some (VaultOps.failed e)) => mkRun listed [] [] (Some (VaultOps.failed e))
      | (listed, Some (VaultOps.fulfilled allFiles)) =>
          let '(sent, warns, results) :=
            scan toLowerCase bucket query maxResults allFiles 0 bodies [] in
          mkRun listed sent warns (Some (VaultOps.fulfilled results))
      end
  end.

(** The replies after which the listing loop asks for another page. *)
Definition more (reply : VaultOps.Settled VaultList.ListResponse) : bool :=
  match reply with
  | VaultOps.fulfilled response => StaticGate.given (VaultList.NextContinuationToken response)
  | VaultOps.failed _ => false
  end.

(** The files the first [n] pages hold. *)
Definition gathered (pages : list (VaultOps.Settled VaultList.ListResponse)) : list (list Z) :=
  concat (map (fun reply => match reply with
                            | VaultOps.fulfilled response => mdFiles response
                            | VaultOps.failed _ => []
                            end) pages).

(** Every white-space character of [s] is a space, and one that is
    followed by nothing or by a character that is not white space. *)
Fixpoint sparse (s : list Z) : bool :=
  match s with
  | [] => true
  | c :: r =>
      (negb (Vault.is_space c)
       || (Z.eqb c 32 && match r with d :: _ => negb (Vault.is_space d) | [] => true end))
      && sparse r
  end.

(** The same, and the last character is not white space. *)
Fixpoint tidy (s : list Z) : bool :=
  match s with
  | [] => true
  | c :: r =>
      (negb (Vault.is_space c)
       || (Z.eqb c 32 && match r with d :: _ => negb (Vault.is_space d) | [] => false end))
      && tidy r
  end.

(** Lower case for the letters A to Z only, for the examples. *)
Definition ascii_lower (s : list Z) : list Z :=
  map (fun c => if Z.leb 65 c && Z.leb c 90 then c + 32 else c) s.

(** A one-page vault for the examples: three notes and an image; the
    first note cannot be read. *)
Definition demo_page : VaultOps.Settled VaultList.ListResponse :=
  VaultOps.fulfilled
    (VaultList.mkResponse
       (Some (map (fun k => VaultList.mkObject (Some (StaticGate.units k)) None None)
                  ["a.md"; "b.png"; "c.md"; "d.md"]))
       None None None).

Definition demo_bodies (i : nat) : VaultOps.Settled (option (list Z)) :=
  match i with
  | O => VaultOps.failed (VaultOps.new_Error (StaticGate.units "AccessDenied"))
  | _ => VaultOps.fulfilled (Some (StaticGate.units "Buy milk.  TODO: call home"))
  end.

Definition demo_search : Run :=
  searchNotes ascii_lower (Some (StaticGate.units "vault")) (StaticGate.units "todo") []
    (QArith_base.Qmake 1 1) [demo_page] demo_bodies.

End VaultSearch.

(** * Properties

    ** The URL instance satisfies the laws of the interface *)

Lemma ascii_text_all (s : string) :
  ascii_text s = SimpleUrl.all (fun c => Z.ltb (SimpleUrl.code c) 128) s.
Proof. induction s as [|c s IH]; [reflexivity|]. cbn [ascii_text SimpleUrl.all]. now rewrite IH. Qed.

Lemma append_cons (c : ascii) (a b : string) : String c a ++ b = String c (a ++ b).
Proof. reflexivity. Qed.

Lemma append_nil_l (b : string) : "" ++ b = b.
Proof. reflexivity. Qed.

Lemma append_assoc (a b c : string) : (a ++ b) ++ c = a ++ (b ++ c).
Proof.
  induction a as [|x a IH]; [reflexivity|]. rewrite !append_cons. now rewrite IH.
Qed.

Lemma append_nil_r (a : string) : a ++ "" = a.
Proof. induction a as [|c a IH]; [reflexivity|]. now rewrite append_cons, IH. Qed.

Lemma all_app (p : ascii -> bool) (a b : string) :
  SimpleUrl.all p (a ++ b) = SimpleUrl.all p a && SimpleUrl.all p b.
Proof.
  induction a as [|c a IH]; [reflexivity|]. rewrite append_cons.
  cbn [SimpleUrl.all]. rewrite IH. now rewrite andb_assoc.
Qed.

Lemma all_impl (p q : ascii -> bool) (s : string) :
  (forall c, p c = true -> q c = true) ->
  SimpleUrl.all p s = true -> SimpleUrl.all q s = true.
Proof.
  intros Hpq. induction s as [|c s IH]; [reflexivity|]. cbn [SimpleUrl.all].
  intros H. apply andb_prop in H as [Hc Hs]. rewrite (Hpq c Hc), IH by assumption.
  reflexivity.
Qed.

Lemma break_none (p : ascii -> bool) (a : string) :
  SimpleUrl.all (fun c => negb (p c)) a = true -> SimpleUrl.break p a = (a, "").
Proof.
  induction a as [|c a IH]; [reflexivity|]. cbn [SimpleUrl.all SimpleUrl.break].
  intros H. apply andb_prop in H as [Hc Ha]. apply negb_true_iff in Hc.
  rewrite Hc, (IH Ha). reflexivity.
Qed.

Lemma break_app (p : ascii -> bool) (a : string) (c : ascii) (b : string) :
  SimpleUrl.all (fun c => negb (p c)) a = true -> p c = true ->
  SimpleUrl.break p (a ++ String c b) = (a, String c b).
Proof.
  intros Ha Hc. induction a as [|d a IH].
  - rewrite append_nil_l. cbn [SimpleUrl.break]. now rewrite Hc.
  - rewrite append_cons. cbn [SimpleUrl.all SimpleUrl.break] in *.
    apply andb_prop in Ha as [Hd Ha]. apply negb_true_iff in Hd.
    rewrite Hd, (IH Ha). reflexivity.
Qed.

Lemma encode_id (set : ascii -> bool) (s : string) :
  SimpleUrl.all (fun c => negb (set c)) s = true -> SimpleUrl.encode set s = s.
Proof.
  induction s as [|c s IH]; [reflexivity|]. cbn [SimpleUrl.all SimpleUrl.encode].
  intros H. apply andb_prop in H as [Hc Hs]. apply negb_true_iff in Hc.
  rewrite Hc, (IH Hs). reflexivity.
Qed.

(** Nothing is stripped from a string without spaces and controls. *)
Lemma preprocess_id (s : string) :
  SimpleUrl.all (fun c => Z.ltb 32 (SimpleUrl.code c)) s = true ->
  SimpleUrl.preprocess s = s.
Proof.
  intros Hs. unfold SimpleUrl.preprocess.
  assert (H1 : SimpleUrl.drop_while (fun c => Z.leb (SimpleUrl.code c) 32) s = s).
  { destruct s as [|c s]; [reflexivity|]. cbn [SimpleUrl.all SimpleUrl.drop_while] in *.
    apply andb_prop in Hs as [Hc _]. apply Z.ltb_lt in Hc.
    now rewrite (proj2 (Z.leb_gt _ _) Hc). }
  assert (H2 : SimpleUrl.drop_end (fun c => Z.leb (SimpleUrl.code c) 32) s = s).
  { clear H1. induction s as [|c s IH]; [reflexivity|].
    cbn [SimpleUrl.all SimpleUrl.drop_end] in *.
    apply andb_prop in Hs as [Hc Hs]. rewrite (IH Hs). apply Z.ltb_lt in Hc.
    destruct s; [|reflexivity]. now rewrite (proj2 (Z.leb_gt _ _) Hc). }
  rewrite H1, H2. clear H1 H2.
  induction s as [|c s IH]; [reflexivity|]. cbn [SimpleUrl.all SimpleUrl.remove] in *.
  apply andb_prop in Hs as [Hc Hs]. rewrite (IH Hs).
  replace (SimpleUrl.among [9; 10; 13] c) with false; [reflexivity|].
  apply Z.ltb_lt in Hc. unfold SimpleUrl.among. cbn [existsb]. symmetry.
  repeat (apply orb_false_intro; [apply Z.eqb_neq; lia|]). reflexivity.
Qed.

(** *** Form encoding *)

Lemma form_char_facts (c : ascii) :
  SimpleUrl.form_char c || SimpleUrl.among [38; 61] c = true ->
  SimpleUrl.special_query_set c = false /\ SimpleUrl.query_set c = false
  /\ Z.ltb 32 (SimpleUrl.code c) = true /\ Z.ltb (SimpleUrl.code c) 128 = true.
Proof.
  destruct c as [[] [] [] [] [] [] [] []]; vm_compute; intros H;
    first [discriminate H | repeat split].
Qed.

Lemma form_char_separators (c : ascii) :
  SimpleUrl.form_char c = true -> SimpleUrl.char "=" c = false /\ SimpleUrl.char "&" c = false.
Proof.
  destruct c as [[] [] [] [] [] [] [] []]; vm_compute; intros H;
    first [discriminate H | split; reflexivity].
Qed.

Lemma form_encode_step (c : ascii) (r : string) :
  SimpleUrl.percent_decode (SimpleUrl.plus_to_space (SimpleUrl.form_encode (String c r)))
  = String c (SimpleUrl.percent_decode (SimpleUrl.plus_to_space (SimpleUrl.form_encode r)))
  /\ SimpleUrl.all SimpleUrl.form_char (SimpleUrl.form_encode (String c r))
     = SimpleUrl.all SimpleUrl.form_char (SimpleUrl.form_encode r).
Proof.
  destruct c as [[] [] [] [] [] [] [] []]; split; reflexivity.
Qed.

Lemma form_decode_encode (s : string) :
  SimpleUrl.percent_decode (SimpleUrl.plus_to_space (SimpleUrl.form_encode s)) = s.
Proof.
  induction s as [|c s IH]; [reflexivity|].
  rewrite (proj1 (form_encode_step c s)), IH. reflexivity.
Qed.

Lemma form_encode_chars (s : string) :
  SimpleUrl.all SimpleUrl.form_char (SimpleUrl.form_encode s) = true.
Proof.
  induction s as [|c s IH]; [reflexivity|].
  now rewrite (proj2 (form_encode_step c s)).
Qed.

Lemma pieces_one (p : ascii -> bool) (a : string) :
  SimpleUrl.all (fun c => negb (p c)) a = true -> SimpleUrl.pieces p a = [a].
Proof.
  induction a as [|c a IH]; [reflexivity|]. cbn [SimpleUrl.all SimpleUrl.pieces].
  intros H. apply andb_prop in H as [Hc Ha]. apply negb_true_iff in Hc.
  now rewrite Hc, (IH Ha).
Qed.

Lemma pieces_app (p : ascii -> bool) (a : string) (c : ascii) (b : string) :
  SimpleUrl.all (fun c => negb (p c)) a = true -> p c = true ->
  SimpleUrl.pieces p (a ++ String c b) = a :: SimpleUrl.pieces p b.
Proof.
  intros Ha Hc. induction a as [|d a IH].
  - rewrite append_nil_l. cbn [SimpleUrl.pieces]. now rewrite Hc.
  - rewrite append_cons. cbn [SimpleUrl.all SimpleUrl.pieces] in *.
    apply andb_prop in Ha as [Hd Ha]. apply negb_true_iff in Hd.
    now rewrite Hd, (IH Ha).
Qed.

Lemma serialize_cons (p : string * string) (l : list (string * string)) :
  SimpleUrl.serialize (p :: l)
  = match l with
    | [] => SimpleUrl.pair_string p
    | _ => SimpleUrl.pair_string p ++ "&" ++ SimpleUrl.serialize l
    end.
Proof. now destruct l. Qed.

Lemma pair_string_chars (p : string * string) :
  SimpleUrl.all (fun c => SimpleUrl.form_char c || SimpleUrl.among [61] c) (SimpleUrl.pair_string p) = true.
Proof.
  unfold SimpleUrl.pair_string. rewrite !all_app. cbn [SimpleUrl.all].
  rewrite !(all_impl SimpleUrl.form_char _ _ (fun c H => orb_true_intro _ _ (or_introl H))
              (form_encode_chars _)).
  reflexivity.
Qed.

Lemma pair_char_no_amp (c : ascii) :
  SimpleUrl.form_char c || SimpleUrl.among [61] c = true -> negb (SimpleUrl.char "&" c) = true.
Proof.
  destruct c as [[] [] [] [] [] [] [] []]; vm_compute; intros H;
    first [discriminate H | reflexivity].
Qed.

Lemma pair_char_wider (c : ascii) :
  SimpleUrl.form_char c || SimpleUrl.among [61] c = true ->
  SimpleUrl.form_char c || SimpleUrl.among [38; 61] c = true.
Proof.
  destruct c as [[] [] [] [] [] [] [] []]; vm_compute; intros H;
    first [discriminate H | reflexivity].
Qed.

Lemma form_char_no_eq (c : ascii) :
  SimpleUrl.form_char c = true -> negb (SimpleUrl.char "=" c) = true.
Proof.
  destruct c as [[] [] [] [] [] [] [] []]; vm_compute; intros H;
    first [discriminate H | reflexivity].
Qed.

Lemma pair_string_no_amp (p : string * string) :
  SimpleUrl.all (fun c => negb (SimpleUrl.char "&" c)) (SimpleUrl.pair_string p) = true.
Proof. exact (all_impl _ _ _ pair_char_no_amp (pair_string_chars p)). Qed.

Lemma pair_string_nonempty (p : string * string) : (SimpleUrl.pair_string p =? "")%string = false.
Proof.
  unfold SimpleUrl.pair_string. destruct (SimpleUrl.form_encode (fst p)); reflexivity.
Qed.

Lemma parse_pair_string (p : string * string) : SimpleUrl.parse_pair (SimpleUrl.pair_string p) = p.
Proof.
  destruct p as [n v]. unfold SimpleUrl.parse_pair, SimpleUrl.pair_string. cbn [fst snd].
  change ("=" ++ SimpleUrl.form_encode v) with (String "=" (SimpleUrl.form_encode v)).
  rewrite break_app;
    [| exact (all_impl _ _ _ form_char_no_eq (form_encode_chars n)) | reflexivity].
  cbn [SimpleUrl.tail]. now rewrite !form_decode_encode.
Qed.

(** The form parser reads back what the form serializer wrote. *)
Lemma parse_query_serialize (l : list (string * string)) :
  SimpleUrl.parse_query (SimpleUrl.serialize l) = l.
Proof.
  unfold SimpleUrl.parse_query.
  induction l as [|p l IH]; [reflexivity|]. rewrite serialize_cons.
  destruct l as [|q l].
  - rewrite pieces_one by apply pair_string_no_amp. cbn [List.filter].
    rewrite pair_string_nonempty. cbn [negb map]. now rewrite parse_pair_string.
  - change ("&" ++ SimpleUrl.serialize (q :: l))
      with (String "&" (SimpleUrl.serialize (q :: l))).
    rewrite pieces_app; [| apply pair_string_no_amp | reflexivity].
    cbn [List.filter]. rewrite pair_string_nonempty. cbn [negb map].
    now rewrite parse_pair_string, IH.
Qed.

Lemma serialize_chars (l : list (string * string)) :
  SimpleUrl.all (fun c => SimpleUrl.form_char c || SimpleUrl.among [38; 61] c) (SimpleUrl.serialize l)
  = true.
Proof.
  assert (Hpair : forall p,
            SimpleUrl.all (fun c => SimpleUrl.form_char c || SimpleUrl.among [38; 61] c) (SimpleUrl.pair_string p)
            = true).
  { intros p. apply (all_impl _ _ _ pair_char_wider (pair_string_chars p)). }
  induction l as [|p l IH]; [reflexivity|]. rewrite serialize_cons.
  destruct l as [|q l]; [apply Hpair|].
  rewrite !all_app, Hpair, IH. reflexivity.
Qed.

Lemma query_chars_emitted (sch : string) (c : ascii) :
  SimpleUrl.form_char c || SimpleUrl.among [38; 61] c = true ->
  negb (SimpleUrl.query_chars sch c) = true.
Proof.
  intros H. destruct (form_char_facts c H) as (H1 & H2 & _).
  unfold SimpleUrl.query_chars. destruct (SimpleUrl.special sch); [now rewrite H1 | now rewrite H2].
Qed.

Lemma parse_valid (s : string) (u : SimpleUrl.t) :
  SimpleUrl.parse s = Some u -> SimpleUrl.valid u = true.
Proof.
  unfold SimpleUrl.parse.
  destruct (SimpleUrl.break _ (SimpleUrl.preprocess s)) as [bq f].
  destruct (SimpleUrl.break _ bq) as [b q].
  destruct (SimpleUrl.parse_base b) as [bs|]; [|discriminate].
  destruct (ascii_text _ && SimpleUrl.valid _) eqn:Hok; [|discriminate].
  intros [= <-]. now apply andb_prop in Hok as [_ Hok].
Qed.

Lemma set_ascii (k v : string) (l : list (string * string)) :
  ascii_text k = true -> ascii_text v = true ->
  forallb (fun p => ascii_text (fst p) && ascii_text (snd p)) l = true ->
  forallb (fun p => ascii_text (fst p) && ascii_text (snd p))
    (SimpleUrl.set k v l) = true.
Proof.
  intros Hk Hv. induction l as [|[k' v'] l IH]; cbn [SimpleUrl.set forallb fst snd].
  - intros _. now rewrite Hk, Hv.
  - intros H. apply andb_prop in H as [Hp Hl].
    destruct (k =? k')%string; cbn [forallb fst snd].
    + rewrite Hk, Hv. cbn [andb]. clear IH Hp.
      induction l as [|q l IH]; [reflexivity|]. cbn [forallb List.filter] in *.
      apply andb_prop in Hl as [Hq Hl]. destruct (negb _); cbn [forallb]; auto.
      now rewrite Hq, IH.
    + now rewrite Hp, IH.
Qed.

Lemma set_param_valid (k v : string) (u : SimpleUrl.t) :
  SimpleUrl.valid u = true ->
  ascii_text k = true -> ascii_text v = true ->
  SimpleUrl.valid (SimpleUrl.set_param k v u) = true.
Proof.
  unfold SimpleUrl.valid, SimpleUrl.set_param.
  cbn [SimpleUrl.base SimpleUrl.query SimpleUrl.fragment SimpleUrl.params].
  intros Hu Hk Hv.
  apply andb_prop in Hu as [Hu Hascii]. apply andb_prop in Hu as [Hu _].
  apply andb_prop in Hu as [Hu Hfrag]. apply andb_prop in Hu as [Hu _].
  apply andb_prop in Hu as [Hclean Hbase].
  rewrite Hclean, Hbase, Hfrag. cbn [andb].
  change (default "" (Some ?x)) with x.
  rewrite parse_query_serialize, bool_decide_eq_true_2 by reflexivity.
  rewrite set_ascii by assumption. rewrite !andb_true_r.
  apply (all_impl _ _ _ (query_chars_emitted _) (serialize_chars _)).
Qed.

(** The serialization of a valid URL parses back to it. *)
Lemma parse_toString (u : SimpleUrl.t) :
  SimpleUrl.valid u = true -> SimpleUrl.parse (SimpleUrl.toString u) = Some u.
Proof.
  intros Hvalid. pose proof Hvalid as Hu. unfold SimpleUrl.valid in Hu.
  apply andb_prop in Hu as [Hu Hascii]. apply andb_prop in Hu as [Hu Hparams].
  apply andb_prop in Hu as [Hu Hfrag]. apply andb_prop in Hu as [Hu Hquery].
  apply andb_prop in Hu as [Hclean Hbase].
  apply bool_decide_eq_true in Hbase, Hparams.
  destruct u as [bs qry frg prm].
  cbn [SimpleUrl.base SimpleUrl.query SimpleUrl.fragment SimpleUrl.params] in *.
  set (B := SimpleUrl.print_base bs) in *.
  set (Q := match qry with Some q => "?" ++ q | None => "" end).
  set (F := match frg with Some f => "#" ++ f | None => "" end).
  assert (HB : forall c, (Z.ltb 32 (SimpleUrl.code c) && Z.ltb (SimpleUrl.code c) 127
                          && negb (SimpleUrl.among [35; 63] c)) = true ->
               Z.ltb 32 (SimpleUrl.code c) = true /\ Z.ltb (SimpleUrl.code c) 128 = true
               /\ negb (SimpleUrl.char "#" c) = true /\ negb (SimpleUrl.char "?" c) = true).
  { intros c. destruct c as [[] [] [] [] [] [] [] []]; vm_compute; intros H;
      first [discriminate H | repeat split]. }
  assert (HQc : forall c, negb (SimpleUrl.query_chars (SimpleUrl.scheme bs) c) = true ->
               Z.ltb 32 (SimpleUrl.code c) = true /\ Z.ltb (SimpleUrl.code c) 128 = true
               /\ negb (SimpleUrl.char "#" c) = true).
  { intros c. unfold SimpleUrl.query_chars. destruct (SimpleUrl.special _);
      destruct c as [[] [] [] [] [] [] [] []]; vm_compute; intros H;
        first [discriminate H | repeat split]. }
  assert (HFc : forall c, negb (SimpleUrl.fragment_set c) = true ->
               Z.ltb 32 (SimpleUrl.code c) = true /\ Z.ltb (SimpleUrl.code c) 128 = true).
  { intros c. destruct c as [[] [] [] [] [] [] [] []]; vm_compute; intros H;
      first [discriminate H | repeat split]. }
  assert (Hall : forall p : ascii -> bool,
            (forall c, Z.ltb 32 (SimpleUrl.code c) = true
                       /\ Z.ltb (SimpleUrl.code c) 128 = true -> p c = true) ->
            SimpleUrl.all p (B ++ Q ++ F) = true).
  { intros p Hp. rewrite !all_app.
    rewrite (all_impl _ p _ (fun c H => Hp c (conj (proj1 (HB c H)) (proj1 (proj2 (HB c H)))))
               Hclean).
    assert (HQ : SimpleUrl.all p Q = true).
    { subst Q. destruct qry as [q|]; [|reflexivity].
      change ("?" ++ q) with (String "?" q). cbn [SimpleUrl.all default] in *.
      rewrite (Hp "?"%char) by (split; reflexivity).
      exact (all_impl _ p _ (fun c H => Hp c (conj (proj1 (HQc c H))
                                                  (proj1 (proj2 (HQc c H))))) Hquery). }
    assert (HF : SimpleUrl.all p F = true).
    { subst F. destruct frg as [f|]; [|reflexivity].
      change ("#" ++ f) with (String "#" f). cbn [SimpleUrl.all default] in *.
      rewrite (Hp "#"%char) by (split; reflexivity).
      exact (all_impl _ p _ (fun c H => Hp c (HFc c H)) Hfrag). }
    now rewrite HQ, HF. }
  unfold SimpleUrl.parse, SimpleUrl.toString.
  cbn [SimpleUrl.base SimpleUrl.query SimpleUrl.fragment]. fold B Q F.
  rewrite preprocess_id by (apply Hall; intros c [H _]; exact H).
  assert (HBQ : SimpleUrl.all (fun c => negb (SimpleUrl.char "#" c)) (B ++ Q) = true).
  { rewrite all_app.
    rewrite (all_impl _ _ _ (fun c H => proj1 (proj2 (proj2 (HB c H)))) Hclean).
    subst Q. destruct qry as [q|]; [|reflexivity].
    change ("?" ++ q) with (String "?" q). cbn [SimpleUrl.all default andb negb] in *.
    exact (all_impl _ _ _ (fun c H => proj2 (proj2 (HQc c H))) Hquery). }
  assert (HBq : SimpleUrl.all (fun c => negb (SimpleUrl.char "?" c)) B = true)
    by exact (all_impl _ _ _ (fun c H => proj2 (proj2 (proj2 (HB c H)))) Hclean).
  assert (Hcut1 : SimpleUrl.break (SimpleUrl.char "#") (B ++ Q ++ F) = (B ++ Q, F)).
  { rewrite <- append_assoc. subst F. destruct frg as [f|].
    - change ("#" ++ f) with (String "#" f). now apply break_app.
    - rewrite append_nil_r. now apply break_none. }
  assert (Hcut2 : SimpleUrl.break (SimpleUrl.char "?") (B ++ Q) = (B, Q)).
  { subst Q. destruct qry as [q|].
    - change ("?" ++ q) with (String "?" q). now apply break_app.
    - rewrite append_nil_r. now apply break_none. }
  rewrite Hcut1, Hcut2, Hbase.
  assert (Hq : match Q with
               | String _ q' => Some (SimpleUrl.encode
                                        (SimpleUrl.query_chars (SimpleUrl.scheme bs)) q')
               | EmptyString => None
               end = qry).
  { subst Q. destruct qry as [q|]; [|reflexivity].
    change ("?" ++ q) with (String "?" q). cbv beta iota.
    now rewrite encode_id by exact Hquery. }
  assert (Hf : match F with
               | String _ f' => Some (SimpleUrl.encode SimpleUrl.fragment_set f')
               | EmptyString => None
               end = frg).
  { subst F. destruct frg as [f|]; [|reflexivity].
    change ("#" ++ f) with (String "#" f). cbv beta iota.
    now rewrite encode_id by exact Hfrag. }
  cbv zeta. rewrite Hq, Hf, <- Hparams.
  replace (ascii_text (B ++ Q ++ F)) with true
    by (symmetry; rewrite ascii_text_all; apply Hall; intros c [_ H]; exact H).
  now rewrite Hvalid.
Qed.

#[export] Instance simpleUrlRecord : @UrlRecord simpleUrlApi := {|
  URL_username := fun u => SimpleUrl.username (SimpleUrl.base u);
  URL_password := fun u => SimpleUrl.password (SimpleUrl.base u);
  URL_port := SimpleUrl.port_string;
  URL_pathname := SimpleUrl.pathname;
  URL_hash := SimpleUrl.hash;
  URL_valid := fun u => SimpleUrl.valid u = true;
  searchParams_set_username := fun _ _ _ => eq_refl;
  searchParams_set_password := fun _ _ _ => eq_refl;
  searchParams_set_port := fun _ _ _ => eq_refl;
  searchParams_set_pathname := fun _ _ _ => eq_refl;
  searchParams_set_hash := fun _ _ _ => eq_refl;
  new_URL_valid := parse_valid;
  searchParams_set_valid := fun k v u Hu Hk Hv => set_param_valid k v u Hu Hk Hv;
  URL_toString_parse := parse_toString
|}.

(** ** The models of SHA-256 and base64url *)

(** Published vectors: FIPS 180-4 ("abc", the empty message, the 56-byte
    two-block message) and RFC 7636 appendix B. *)
Example sha256_empty :
  Node.sha256_base64url "" = "47DEQpj8HBSa-_TImW-5JCeuQeRkm5NMpJWZG3hSuFU".
Proof. vm_compute. reflexivity. Qed.

Example sha256_constants :
  length Node.K256 = 64%nat
  /\ firstn 2 Node.K256 = [0x428a2f98; 0x71374491]
  /\ last Node.K256 = Some 0xc67178f2
  /\ firstn 2 Node.H256 = [0x6a09e667; 0xbb67ae85]
  /\ last Node.H256 = Some 0x5be0cd19.
Proof. vm_compute. repeat split. Qed.

Example sha256_abc :
  Node.sha256 (Node.bytes_of "abc") =
  flat_map (Node.be_bytes 4)
    [ 0xba7816bf; 0x8f01cfea; 0x414140de; 0x5dae2223;
      0xb00361a3; 0x96177a9c; 0xb410ff61; 0xf20015ad ].
Proof. vm_compute. reflexivity. Qed.

Example sha256_two_blocks :
  Node.sha256
    (Node.bytes_of "abcdbcdecdefdefgefghfghighijhijkijkljklmklmnlmnomnopnopq") =
  flat_map (Node.be_bytes 4)
    [ 0x248d6a61; 0xd20638b8; 0xe5c02693; 0x0c3e6039;
      0xa33ce459; 0x64ff2167; 0xf6ecedd4; 0x19db06c1 ].
Proof. vm_compute. reflexivity. Qed.

Example rfc7636_appendix_B :
  Node.sha256_base64url "dBjftJeZ4CVP-mB92K27uhbUJU1p1r_wW1gFWFOEjXk" =
  "E9Melhoa2OwvFrEMTJguCHaoeK1t8URWbuGJSstw-cM".
Proof. vm_compute. reflexivity. Qed.

(** Unfold one layer of the state monad and project the records. *)
Ltac run :=
  unfold bind, ret, modify, get_state, Date_now, generateRandomString, randomBytes,
    set_authorizationCodes, set_registeredClients, set_accessTokens;
  cbv beta iota;
  cbn [authorizationCodes registeredClients accessTokens clock entropy fst snd].

(** ** Request fields *)

Lemma truthy_Some (v : option string) :
  truthy v = true -> exists s, v = Some s /\ s <> "".
Proof.
  destruct v as [s|]; simpl; [|discriminate].
  destruct (String.eqb_spec s ""); [discriminate|]. eauto.
Qed.

Lemma truthy_default (v : option string) :
  truthy v = true -> v = Some (default "" v).
Proof. destruct v; simpl; [reflexivity | discriminate]. Qed.

Lemma strict_eq_true (v : option string) (s : string) :
  strict_eq v s = true <-> v = Some s.
Proof.
  destruct v as [s'|]; simpl.
  - rewrite String.eqb_eq. split; congruence.
  - split; discriminate.
Qed.

Lemma verifyCodeChallenge_exact_S256_refl (verifier : string) :
  verifyCodeChallenge verifier (Node.sha256_base64url verifier) "S256" = true.
Proof. unfold verifyCodeChallenge. now rewrite !String.eqb_refl. Qed.

(** ** PKCE verification *)

(** C4. [verifyCodeChallenge] succeeds under ["S256"] exactly when the
    URL-safe base64 encoding of the SHA-256 digest of the verifier equals
    the stored challenge, under ["plain"] exactly when the verifier equals
    the challenge, and never under any other method. *)
Theorem verifyCodeChallenge_exact (codeVerifier codeChallenge : string) :
  (verifyCodeChallenge codeVerifier codeChallenge "S256" = true <->
     Node.base64url (Node.sha256 (Node.bytes_of codeVerifier)) = codeChallenge)
  /\ (verifyCodeChallenge codeVerifier codeChallenge "plain" = true <->
        codeVerifier = codeChallenge)
  /\ (forall method, method <> "S256" -> method <> "plain" ->
        forall verifier, verifyCodeChallenge verifier codeChallenge method = false).
Proof.
  split; [|split].
  - unfold verifyCodeChallenge, Node.sha256_base64url.
    rewrite String.eqb_refl. apply String.eqb_eq.
  - unfold verifyCodeChallenge.
    replace ("plain" =? "S256")%string with false by reflexivity.
    rewrite String.eqb_refl. apply String.eqb_eq.
  - intros method HS Hp verifier. unfold verifyCodeChallenge.
    destruct (String.eqb_spec method "S256"); [contradiction|].
    destruct (String.eqb_spec method "plain"); [contradiction|].
    reflexivity.
Qed.

Lemma verifyCodeChallenge_exact_witness :
  verifyCodeChallenge "dBjftJeZ4CVP-mB92K27uhbUJU1p1r_wW1gFWFOEjXk"
    "E9Melhoa2OwvFrEMTJguCHaoeK1t8URWbuGJSstw-cM" "S256" = true
  /\ verifyCodeChallenge "secret" "secret" "plain" = true
  /\ verifyCodeChallenge "secret" "secret" "S512" = false.
Proof.
  split; [|split].
  - apply (proj1 (verifyCodeChallenge_exact _ _)). vm_compute. reflexivity.
  - apply (proj1 (proj2 (verifyCodeChallenge_exact _ _))). reflexivity.
  - apply (proj2 (proj2 (verifyCodeChallenge_exact "secret" "secret"))); discriminate.
Defined.

(** ** Bearer validation *)

Lemma validateAccessToken_eq (authHeader : option string) (w : Server) :
  validateAccessToken authHeader w =
  match authHeader with
  | None => (false, w)
  | Some h =>
      match split " " h with
      | [part0; token] =>
          if (part0 =? "Bearer")%string then
            match accessTokens w !! token with
            | None => (false, w)
            | Some tokenData =>
                if clock w 0 >? AccessToken.expiresAt tokenData
                then (false, set_accessTokens (delete token (accessTokens w)) (tick w))
                else (true, tick w)
            end
          else (false, w)
      | _ => (false, w)
      end
  end.
Proof.
  unfold validateAccessToken.
  destruct authHeader as [h|]; [|reflexivity].
  destruct h as [|c h]; [reflexivity|].
  change (truthy (Some (String c h))) with true.
  change (default "" (Some (String c h))) with (String c h).
  cbv beta iota. change (negb true) with false. cbv beta iota.
  destruct (split " " (String c h)) as [|p0 [|token [|x l]]]; try reflexivity.
  destruct (p0 =? "Bearer")%string; [|reflexivity].
  change (negb true) with false. cbv beta iota.
  run. destruct (accessTokens w !! token) as [td|]; [|reflexivity].
  run. destruct (clock w 0 >? AccessToken.expiresAt td); reflexivity.
Qed.

(** C9. A header is accepted exactly when it splits at spaces into the two
    parts ["Bearer"] and a token that is in the store with
    [now <= expiresAt]; a stored token found expired is deleted and the
    header rejected; an accepted header leaves the three maps as they were;
    and a header accepted now is accepted again by every later call made
    while the clock has not passed [expiresAt]. *)
Theorem validateAccessToken_lazy_eviction (authHeader : option string) (w : Server) :
  (fst (validateAccessToken authHeader w) = true <->
     exists h token tokenData,
       authHeader = Some h /\ split " " h = ["Bearer"; token] /\
       accessTokens w !! token = Some tokenData /\
       clock w 0 <= AccessToken.expiresAt tokenData)
  /\ (forall h token tokenData,
        authHeader = Some h -> split " " h = ["Bearer"; token] ->
        accessTokens w !! token = Some tokenData ->
        clock w 0 > AccessToken.expiresAt tokenData ->
        fst (validateAccessToken authHeader w) = false /\
        accessTokens (snd (validateAccessToken authHeader w)) = delete token (accessTokens w) /\
        accessTokens (snd (validateAccessToken authHeader w)) !! token = None)
  /\ (fst (validateAccessToken authHeader w) = true ->
        accessTokens (snd (validateAccessToken authHeader w)) = accessTokens w /\
        authorizationCodes (snd (validateAccessToken authHeader w)) = authorizationCodes w /\
        registeredClients (snd (validateAccessToken authHeader w)) = registeredClients w)
  /\ (forall h token tokenData n,
        authHeader = Some h -> split " " h = ["Bearer"; token] ->
        accessTokens w !! token = Some tokenData ->
        (forall i, (i < n)%nat -> clock w i <= AccessToken.expiresAt tokenData) ->
        fst (replicateM n (validateAccessToken authHeader) w) = repeat true n).
Proof.
  split; [|split; [|split]].
  - rewrite validateAccessToken_eq. split.
    + destruct authHeader as [h|]; [|discriminate].
      destruct (split " " h) as [|p0 [|token [|x l]]] eqn:Hs; try discriminate.
      destruct (String.eqb_spec p0 "Bearer") as [->|]; [|discriminate].
      destruct (accessTokens w !! token) as [td|] eqn:Ht; [|discriminate].
      destruct (Z.gtb_spec (clock w 0) (AccessToken.expiresAt td)); [discriminate|].
      intros _. exists h, token, td. auto.
    + intros (h & token & td & -> & Hs & Ht & Hle).
      rewrite Hs, String.eqb_refl, Ht.
      destruct (Z.gtb_spec (clock w 0) (AccessToken.expiresAt td)); [lia | reflexivity].
  - intros h token td -> Hs Ht Hgt. rewrite validateAccessToken_eq.
    rewrite Hs, String.eqb_refl, Ht.
    destruct (Z.gtb_spec (clock w 0) (AccessToken.expiresAt td)); [|lia].
    cbn. split; [reflexivity|]. split; [reflexivity | apply lookup_delete_eq].
  - rewrite validateAccessToken_eq.
    destruct authHeader as [h|]; [|discriminate].
    destruct (split " " h) as [|p0 [|token [|x l]]]; try discriminate.
    destruct (p0 =? "Bearer")%string; [|discriminate].
    destruct (accessTokens w !! token) as [td|]; [|discriminate].
    destruct (clock w 0 >? AccessToken.expiresAt td); [discriminate|].
    intros _. cbn. auto.
  - intros h token td n -> Hs Ht. revert w Ht.
    induction n as [|n IH]; intros w Ht Hle; [reflexivity|].
    cbn [replicateM]. unfold bind at 1. rewrite validateAccessToken_eq.
    rewrite Hs, String.eqb_refl, Ht.
    destruct (Z.gtb_spec (clock w 0) (AccessToken.expiresAt td)) as [Hgt|_].
    { specialize (Hle O ltac:(lia)). lia. }
    unfold bind, ret. specialize (IH (tick w) Ht).
    destruct (replicateM n (validateAccessToken (Some h)) (tick w)) as [rest w'].
    cbn in *. f_equal. apply IH. intros i Hi. apply (Hle (S i)). lia.
Qed.

(** ** The token endpoint *)

Lemma handleToken_eq (req : TokenReq.t) (w : Server) :
  handleToken req w =
  if negb (strict_eq (TokenReq.grant_type req) "authorization_code") then
    (json_error 400 "unsupported_grant_type" "Only authorization_code grant is supported", w)
  else if negb (truthy (TokenReq.code req)) then
    (json_error 400 "invalid_request" "Missing authorization code", w)
  else
    let code := default "" (TokenReq.code req) in
    match authorizationCodes w !! code with
    | None => (json_error 400 "invalid_grant" "Invalid authorization code", w)
    | Some authCode =>
        if clock w 0 >? AuthorizationCode.expiresAt authCode then
          (json_error 400 "invalid_grant" "Authorization code has expired",
           drop_code code (tick w))
        else if AuthorizationCode.used authCode then
          (json_error 400 "invalid_grant" "Authorization code has already been used",
           drop_code code (tick w))
        else if truthy (TokenReq.client_id req)
                && negb (strict_eq (TokenReq.client_id req) (AuthorizationCode.clientId authCode)) then
          (json_error 400 "invalid_grant" "Client ID mismatch", tick w)
        else if truthy (TokenReq.redirect_uri req)
                && negb (strict_eq (TokenReq.redirect_uri req) (AuthorizationCode.redirectUri authCode)) then
          (json_error 400 "invalid_grant" "Redirect URI mismatch", tick w)
        else if negb (truthy (TokenReq.code_verifier req)) then
          (json_error 400 "invalid_request" "Missing code_verifier (PKCE required)", tick w)
        else if negb (verifyCodeChallenge (default "" (TokenReq.code_verifier req))
                        (AuthorizationCode.codeChallenge authCode)
                        (AuthorizationCode.codeChallengeMethod authCode)) then
          (json_error 400 "invalid_grant" "Invalid code_verifier", tick w)
        else
          (json_token (issued_token w) "Bearer" TOKEN_EXPIRY_SECONDS, issued code authCode w)
    end.
Proof.
  unfold handleToken.
  destruct (negb (strict_eq (TokenReq.grant_type req) "authorization_code")); [reflexivity|].
  destruct (negb (truthy (TokenReq.code req))); [reflexivity|].
  cbv zeta. unfold bind at 1, get_state at 1. cbv beta iota.
  destruct (authorizationCodes w !! default "" (TokenReq.code req)) as [authCode|];
    [|reflexivity].
  unfold bind at 1, Date_now at 1. cbv beta iota.
  cbn [authorizationCodes registeredClients accessTokens clock entropy].
  destruct (clock w 0 >? AuthorizationCode.expiresAt authCode); [reflexivity|].
  destruct (AuthorizationCode.used authCode); [reflexivity|].
  destruct (truthy (TokenReq.client_id req) && _); [reflexivity|].
  destruct (truthy (TokenReq.redirect_uri req) && _); [reflexivity|].
  destruct (negb (truthy (TokenReq.code_verifier req))); [reflexivity|].
  destruct (negb (verifyCodeChallenge _ _ _)); reflexivity.
Qed.

Lemma handleToken_body_eq (body : TokenBody.t) (w : Server) :
  Parsed.handleToken body w =
  if negb (is_string (TokenBody.grant_type body) "authorization_code") then
    (json_error 400 "unsupported_grant_type" "Only authorization_code grant is supported", w)
  else if negb (ToBoolean (TokenBody.code body)) then
    (json_error 400 "invalid_request" "Missing authorization code", w)
  else
    match TokenBody.code body with
    | js_string code =>
        match authorizationCodes w !! code with
        | None => (json_error 400 "invalid_grant" "Invalid authorization code", w)
        | Some authCode =>
            if clock w 0 >? AuthorizationCode.expiresAt authCode then
              (json_error 400 "invalid_grant" "Authorization code has expired",
               drop_code code (tick w))
            else if AuthorizationCode.used authCode then
              (json_error 400 "invalid_grant" "Authorization code has already been used",
               drop_code code (tick w))
            else if ToBoolean (TokenBody.client_id body)
                    && negb (is_string (TokenBody.client_id body)
                               (AuthorizationCode.clientId authCode)) then
              (json_error 400 "invalid_grant" "Client ID mismatch", tick w)
            else if ToBoolean (TokenBody.redirect_uri body)
                    && negb (is_string (TokenBody.redirect_uri body)
                               (AuthorizationCode.redirectUri authCode)) then
              (json_error 400 "invalid_grant" "Redirect URI mismatch", tick w)
            else if negb (ToBoolean (TokenBody.code_verifier body)) then
              (json_error 400 "invalid_request" "Missing code_verifier (PKCE required)",
               tick w)
            else
              match Parsed.verifyCodeChallenge (TokenBody.code_verifier body)
                      (AuthorizationCode.codeChallenge authCode)
                      (AuthorizationCode.codeChallengeMethod authCode) with
              | None => (uncaught_TypeError, tick w)
              | Some false => (json_error 400 "invalid_grant" "Invalid code_verifier", tick w)
              | Some true =>
                  (json_token (issued_token w) "Bearer" TOKEN_EXPIRY_SECONDS,
                   issued code authCode w)
              end
        end
    | _ => (json_error 400 "invalid_grant" "Invalid authorization code", w)
    end.
Proof.
  unfold Parsed.handleToken.
  destruct (negb (is_string (TokenBody.grant_type body) "authorization_code"));
    [reflexivity|].
  destruct (negb (ToBoolean (TokenBody.code body))); [reflexivity|].
  cbv zeta. unfold bind at 1, get_state at 1. cbv beta iota.
  destruct (TokenBody.code body) as [| |b|n|code|]; try reflexivity.
  cbn [Parsed.Map_get].
  destruct (authorizationCodes w !! code) as [authCode|]; [|reflexivity].
  unfold bind at 1, Date_now at 1. cbv beta iota.
  cbn [authorizationCodes registeredClients accessTokens clock entropy].
  destruct (clock w 0 >? AuthorizationCode.expiresAt authCode); [reflexivity|].
  destruct (AuthorizationCode.used authCode); [reflexivity|].
  destruct (ToBoolean (TokenBody.client_id body) && _); [reflexivity|].
  destruct (ToBoolean (TokenBody.redirect_uri body) && _); [reflexivity|].
  destruct (negb (ToBoolean (TokenBody.code_verifier body))); [reflexivity|].
  destruct (Parsed.verifyCodeChallenge _ _ _) as [[|]|]; reflexivity.
Qed.

(** On a body whose fields are strings or absent, [Parsed.handleToken] is
    [handleToken]. *)
Lemma handleToken_strings (req : TokenReq.t) (w : Server) :
  Parsed.handleToken (TokenBody.of_req req) w = handleToken req w.
Proof.
  rewrite handleToken_body_eq, handleToken_eq.
  destruct req as [grant code redirect client verifier].
  cbn [TokenBody.of_req TokenBody.grant_type TokenBody.code TokenBody.redirect_uri
       TokenBody.client_id TokenBody.code_verifier TokenReq.grant_type TokenReq.code
       TokenReq.redirect_uri TokenReq.client_id TokenReq.code_verifier].
  assert (Hs : forall v s, is_string (to_js v) s = strict_eq v s) by (now intros [?|] ?).
  assert (Ht : forall v, ToBoolean (to_js v) = truthy v) by (now intros [?|]).
  rewrite ?Hs, ?Ht.
  destruct (negb (strict_eq grant "authorization_code")); [reflexivity|].
  destruct code as [code|]; [|reflexivity].
  destruct (negb (truthy (Some code))); [reflexivity|].
  cbn [to_js]. cbv zeta. change (default "" (Some code)) with code.
  destruct (authorizationCodes w !! code) as [authCode|]; [|reflexivity].
  rewrite ?Hs, ?Ht.
  destruct (clock w 0 >? AuthorizationCode.expiresAt authCode); [reflexivity|].
  destruct (AuthorizationCode.used authCode); [reflexivity|].
  destruct (truthy client && _); [reflexivity|].
  destruct (truthy redirect && _); [reflexivity|].
  destruct verifier as [verifier|]; [|reflexivity].
  destruct (negb (truthy (Some verifier))); [reflexivity|].
  cbn [to_js]. change (default "" (Some verifier)) with verifier.
  unfold Parsed.verifyCodeChallenge, verifyCodeChallenge. cbn [is_string].
  destruct (AuthorizationCode.codeChallengeMethod authCode =? "S256")%string.
  - destruct (_ =? _)%string; reflexivity.
  - destruct (AuthorizationCode.codeChallengeMethod authCode =? "plain")%string;
      [|reflexivity].
    destruct (_ =? _)%string; reflexivity.
Qed.

Lemma is_string_decide (v : JsValue) (s : string) :
  is_string v s = bool_decide (v = js_string s).
Proof.
  destruct v as [| |b|n|t|]; cbn [is_string];
    try (symmetry; apply bool_decide_eq_false_2; discriminate).
  destruct (String.eqb_spec t s) as [->|Hne].
  - symmetry. now apply bool_decide_eq_true_2.
  - symmetry. apply bool_decide_eq_false_2. congruence.
Qed.

(** What the handler's PKCE test gives, against step 9 of the
    specification. *)
Lemma verifyCodeChallenge_pkce (verifier : JsValue) (challenge method : string) :
  let other := match verifier with js_string _ => false | _ => true end in
  match Parsed.verifyCodeChallenge verifier challenge method with
  | Some ok => ok = pkce_holds method verifier challenge
               /\ bool_decide (method = "S256") && other = false
  | None => pkce_holds method verifier challenge = false
            /\ bool_decide (method = "S256") && other = true
  end.
Proof.
  unfold Parsed.verifyCodeChallenge, pkce_holds, Node.sha256_base64url.
  destruct (String.eqb_spec method "S256") as [->|Hs].
  - rewrite (bool_decide_eq_true_2 ("S256" = "S256")) by reflexivity.
    destruct verifier as [| |b|n|v|]; try (split; reflexivity).
    split; [|reflexivity].
    destruct (String.eqb_spec (Node.base64url (Node.sha256 (Node.bytes_of v))) challenge).
    + symmetry. now apply bool_decide_eq_true_2.
    + symmetry. now apply bool_decide_eq_false_2.
  - rewrite (bool_decide_eq_false_2 (method = "S256")) by exact Hs.
    destruct (String.eqb_spec method "plain") as [->|Hp].
    + rewrite (bool_decide_eq_true_2 ("plain" = "plain")) by reflexivity.
      destruct verifier as [| |b|n|v|]; try (split; reflexivity). cbn [is_string].
      split; [|reflexivity].
      destruct (String.eqb_spec v challenge).
      * symmetry. now apply bool_decide_eq_true_2.
      * symmetry. now apply bool_decide_eq_false_2.
    + rewrite (bool_decide_eq_false_2 (method = "plain")) by exact Hp.
      now destruct verifier.
Qed.

(** Every outcome of [handleToken] against the sequence of checks, with a
    field counting as missing when it is falsy: the error of the first
    failing check, a token when none fails, and an exception in the one
    case in which the first eight checks pass and a verifier that is not a
    string is to be hashed. *)
Lemma handleToken_first_failure (body : TokenBody.t) (w : Server) :
  let run := Parsed.handleToken body w in
  match first_failure falsy body w with
  | Some chk =>
      fst run
        = (if match chk with PkceMismatch => unhashable body w | _ => false end
           then uncaught_TypeError
           else json_error 400 (fst (spec_error chk)) (snd (spec_error chk)))
      /\ authorizationCodes (snd run)
         = (if spec_deletes chk
            then Parsed.Map_delete (TokenBody.code body) (authorizationCodes w)
            else authorizationCodes w)
      /\ accessTokens (snd run) = accessTokens w
      /\ registeredClients (snd run) = registeredClients w
  | None =>
      fst run = json_token (issued_token w) "Bearer" TOKEN_EXPIRY_SECONDS
  end.
Proof.
  cbv zeta. rewrite handleToken_body_eq.
  unfold first_failure, spec_order, List.find, check_fails, unhashable, on_stored,
    stored_code, falsy.
  rewrite <- !is_string_decide.
  destruct (negb (is_string (TokenBody.grant_type body) "authorization_code"));
    [solve [cbn; auto]|].
  destruct (negb (ToBoolean (TokenBody.code body))); [solve [cbn; auto]|].
  destruct (TokenBody.code body) as [| |b|n|code|];
    try (rewrite bool_decide_eq_false_2 by (intros [? [=]]); solve [cbn; auto]).
  destruct (authorizationCodes w !! code) as [authCode|];
    [|rewrite bool_decide_eq_false_2 by (intros [? [=]]); solve [cbn; auto]].
  rewrite bool_decide_eq_true_2 by eauto. cbn [negb].
  rewrite <- !is_string_decide, !negb_involutive.
  destruct (clock w 0 >? AuthorizationCode.expiresAt authCode); [solve [cbn; auto]|].
  destruct (AuthorizationCode.used authCode); [solve [cbn; auto]|].
  destruct (ToBoolean (TokenBody.client_id body) && _); [solve [cbn; auto]|].
  destruct (ToBoolean (TokenBody.redirect_uri body) && _); [solve [cbn; auto]|].
  destruct (negb (ToBoolean (TokenBody.code_verifier body))); [solve [cbn; auto]|].
  pose proof (verifyCodeChallenge_pkce (TokenBody.code_verifier body)
                (AuthorizationCode.codeChallenge authCode)
                (AuthorizationCode.codeChallengeMethod authCode)) as Hpkce.
  cbv zeta in Hpkce.
  destruct (Parsed.verifyCodeChallenge _ _ _) as [ok|];
    destruct Hpkce as [Hok Hother]; rewrite Hother.
  - rewrite <- Hok. destruct ok; cbn; auto.
  - rewrite Hok. cbn; auto.
Qed.

(** The handler throws in that case and in no other. *)
Lemma handleToken_throws (body : TokenBody.t) (w : Server) :
  fst (Parsed.handleToken body w) = uncaught_TypeError
  <-> first_failure falsy body w = Some PkceMismatch /\ unhashable body w = true.
Proof.
  pose proof (handleToken_first_failure body w) as Hrun. cbv zeta in Hrun.
  destruct (first_failure falsy body w) as [chk|].
  - destruct Hrun as (-> & _). split.
    + destruct chk; try discriminate.
      destruct (unhashable body w); [auto | discriminate].
    + intros [[= ->] ->]. reflexivity.
  - rewrite Hrun. split; [discriminate | intros [[=] _]].
Qed.

(** C3, as the code has it.  [handleToken] answers with the error of the
    first check that fails, in the order grant type, code missing, code
    unknown, expired, used, client mismatch, redirect mismatch, verifier
    missing, PKCE mismatch, whatever the later checks would have said,
    where a field counts as missing, or as not supplied, when it is absent
    or falsy (the empty string above all).  The stored entry is deleted
    exactly after the expired and the used rejections, and the maps are
    otherwise untouched by a rejection; the nine rejections are pairwise
    different as (error, description) pairs; and when no check fails a
    token is returned.  The checks are those of the specification and use
    nothing of the handler.  For the PKCE rejection the verifier is a
    string or the stored method is not [S256]; the answer to a verifier of
    another type under [S256] is not part of the statement. *)
Theorem handleToken_validation_order (body : TokenBody.t) (w : Server) :
  let run := Parsed.handleToken body w in
  match first_failure falsy body w with
  | Some chk =>
      (match chk with PkceMismatch => unhashable body w = false | _ => True end ->
       fst run = json_error 400 (fst (spec_error chk)) (snd (spec_error chk)))
      /\ authorizationCodes (snd run)
         = (if spec_deletes chk
            then Parsed.Map_delete (TokenBody.code body) (authorizationCodes w)
            else authorizationCodes w)
      /\ accessTokens (snd run) = accessTokens w
      /\ registeredClients (snd run) = registeredClients w
  | None =>
      fst run = json_token (issued_token w) "Bearer" TOKEN_EXPIRY_SECONDS
  end
  /\ NoDup (map spec_error spec_order).
Proof.
  cbv zeta. split.
  - pose proof (handleToken_first_failure body w) as Hrun. cbv zeta in Hrun.
    destruct (first_failure falsy body w) as [chk|]; [|exact Hrun].
    destruct Hrun as (Hresp & Hrest). split; [|exact Hrest].
    intros Hguard. rewrite Hresp. destruct chk; try reflexivity.
    now rewrite Hguard.
  - apply (bool_decide_unpack _). vm_compute. reflexivity.
Qed.

Lemma handleToken_validation_order_witness :
  first_failure falsy wrong_verifier_exchange demo_server = Some PkceMismatch
  /\ unhashable wrong_verifier_exchange demo_server = false
  /\ fst (Parsed.handleToken wrong_verifier_exchange demo_server)
     = json_error 400 "invalid_grant" "Invalid code_verifier".
Proof.
  pose proof (handleToken_validation_order wrong_verifier_exchange demo_server) as [Hrun _].
  cbv zeta in Hrun.
  assert (Hfirst : first_failure falsy wrong_verifier_exchange demo_server
                   = Some PkceMismatch) by (vm_compute; reflexivity).
  rewrite Hfirst in Hrun. destruct Hrun as (Hresp & _).
  split; [exact Hfirst|]. split; [vm_compute; reflexivity|].
  apply Hresp. vm_compute. reflexivity.
Defined.

(** Where the claim as written fails.  A [client_id] or a [redirect_uri]
    that is supplied, empty and different from the stored one is not
    compared: the sequence of the specification stops at the mismatch, the
    handler issues a token.  A [code] or a verifier that is supplied and
    empty is answered as missing, [invalid_request], where the sequence
    goes on to the store or to the PKCE check and says [invalid_grant].
    And a verifier that is a number passes the first eight checks and
    makes the handler throw where the sequence says [invalid_grant]. *)
Lemma supplied_fields_not_checked :
  (spec_first_failure empty_client_exchange demo_server = Some ClientMismatch
   /\ fst (Parsed.handleToken empty_client_exchange demo_server)
      = json_token (issued_token demo_server) "Bearer" TOKEN_EXPIRY_SECONDS)
  /\ (spec_first_failure empty_redirect_exchange demo_server = Some RedirectMismatch
      /\ fst (Parsed.handleToken empty_redirect_exchange demo_server)
         = json_token (issued_token demo_server) "Bearer" TOKEN_EXPIRY_SECONDS)
  /\ (spec_first_failure empty_code_exchange demo_server = Some CodeUnknown
      /\ fst (Parsed.handleToken empty_code_exchange demo_server)
         = json_error 400 "invalid_request" "Missing authorization code")
  /\ (spec_first_failure empty_verifier_exchange demo_server = Some PkceMismatch
      /\ fst (Parsed.handleToken empty_verifier_exchange demo_server)
         = json_error 400 "invalid_request" "Missing code_verifier (PKCE required)")
  /\ (spec_first_failure numeric_verifier_exchange demo_server = Some PkceMismatch
      /\ fst (Parsed.handleToken numeric_verifier_exchange demo_server)
         = uncaught_TypeError).
Proof.
  repeat split; vm_compute; reflexivity.
Qed.

Lemma optional_match_check (v : option string) (stored : string) :
  optional_match v stored ->
  truthy v && negb (strict_eq v stored) = false.
Proof.
  intros [Hf | ->].
  - now rewrite Hf.
  - simpl. rewrite String.eqb_refl. apply andb_false_r.
Qed.

Lemma check_optional_match (v : option string) (stored : string) :
  truthy v && negb (strict_eq v stored) = false -> optional_match v stored.
Proof.
  unfold optional_match. destruct (truthy v); [|auto].
  simpl. intros H. right. apply strict_eq_true.
  now destruct (strict_eq v stored).
Qed.

Lemma handleToken_success (req : TokenReq.t) (c : string)
    (authCode : AuthorizationCode.t) (w : Server) :
  redeemable c authCode w -> redeems req c authCode ->
  handleToken req w =
    (json_token (issued_token w) "Bearer" TOKEN_EXPIRY_SECONDS, issued c authCode w).
Proof.
  intros [Hne Hst Hexp Hun] [Hg Hc Hcl Hre Hv Hp].
  rewrite handleToken_eq, Hg, Hc. change (default "" (Some c)) with c.
  cbn [strict_eq negb truthy].
  rewrite String.eqb_refl. cbn [negb].
  destruct (String.eqb_spec c ""); [contradiction|]. cbn [negb]. cbv zeta.
  rewrite Hst.
  destruct (Z.gtb_spec (clock w 0) (AuthorizationCode.expiresAt authCode)); [lia|].
  rewrite Hun, (optional_match_check _ _ Hcl), (optional_match_check _ _ Hre), Hv, Hp.
  reflexivity.
Qed.

Lemma handleToken_token_inv (req : TokenReq.t) (w : Server) tok ty exp :
  fst (handleToken req w) = json_token tok ty exp ->
  exists c authCode,
    redeemable c authCode w /\ redeems req c authCode /\
    tok = issued_token w /\ ty = "Bearer" /\ exp = TOKEN_EXPIRY_SECONDS /\
    snd (handleToken req w) = issued c authCode w.
Proof.
  rewrite handleToken_eq.
  destruct (strict_eq (TokenReq.grant_type req) "authorization_code") eqn:Hg;
    [|discriminate].
  cbn [negb].
  destruct (truthy (TokenReq.code req)) eqn:Hc; [|discriminate].
  cbn [negb]. cbv zeta.
  destruct (authorizationCodes w !! default "" (TokenReq.code req)) as [authCode|] eqn:Hst;
    [|discriminate].
  destruct (Z.gtb_spec (clock w 0) (AuthorizationCode.expiresAt authCode)); [discriminate|].
  destruct (AuthorizationCode.used authCode) eqn:Hun; [discriminate|].
  destruct (truthy (TokenReq.client_id req) && _) eqn:Hcl; [discriminate|].
  destruct (truthy (TokenReq.redirect_uri req) && _) eqn:Hre; [discriminate|].
  destruct (truthy (TokenReq.code_verifier req)) eqn:Hv; [|discriminate].
  cbn [negb].
  destruct (verifyCodeChallenge _ _ _) eqn:Hp; [|discriminate].
  cbn [negb fst snd]. intros [= <- <- <-].
  exists (default "" (TokenReq.code req)), authCode.
  destruct (truthy_Some _ Hc) as (c & Hcc & Hne). rewrite Hcc in *.
  change (default "" (Some c)) with c in *.
  repeat split; auto using check_optional_match; try lia.
  all: now apply strict_eq_true.
Qed.

Lemma issued_tokens (c : string) (authCode : AuthorizationCode.t) (w : Server) :
  accessTokens (issued c authCode w) =
  <[issued_token w := AccessToken.Make (issued_token w)
                        (AuthorizationCode.clientId authCode)
                        (clock w 1 + TOKEN_EXPIRY_SECONDS * 1000)]> (accessTokens w).
Proof. reflexivity. Qed.

Lemma issued_codes (c : string) (authCode : AuthorizationCode.t) (w : Server) :
  authorizationCodes (issued c authCode w) = delete c (authorizationCodes w).
Proof. unfold issued. cbn [authorizationCodes]. apply delete_insert_eq. Qed.

(** ** Token ownership *)

(** C5. The access token stored by a successful exchange carries the
    [clientId] recorded on the authorization code that was redeemed; the
    [client_id] of the request is either absent (or empty) or equal to that
    recorded one, and replacing it by any other value for which the
    exchange still succeeds leaves the resulting state the same. *)
Theorem token_owned_by_code_client (req : TokenReq.t) (w : Server) tok ty exp :
  fst (handleToken req w) = json_token tok ty exp ->
  exists c authCode tokenData,
    TokenReq.code req = Some c /\
    authorizationCodes w !! c = Some authCode /\
    accessTokens (snd (handleToken req w)) !! tok = Some tokenData /\
    AccessToken.token tokenData = tok /\
    AccessToken.clientId tokenData = AuthorizationCode.clientId authCode /\
    (forall t, t <> tok ->
       accessTokens (snd (handleToken req w)) !! t = accessTokens w !! t) /\
    optional_match (TokenReq.client_id req) (AuthorizationCode.clientId authCode) /\
    (forall client_id' tok' ty' exp',
       let req' := TokenReq.Make (TokenReq.grant_type req) (TokenReq.code req)
                     (TokenReq.redirect_uri req) client_id' (TokenReq.code_verifier req) in
       fst (handleToken req' w) = json_token tok' ty' exp' ->
       handleToken req' w = handleToken req w).
Proof.
  intros Htok.
  destruct (handleToken_token_inv _ _ _ _ _ Htok)
    as (c & authCode & Hable & Hreq & -> & -> & -> & Hst).
  exists c, authCode, (AccessToken.Make (issued_token w)
                        (AuthorizationCode.clientId authCode)
                        (clock w 1 + TOKEN_EXPIRY_SECONDS * 1000)).
  rewrite Hst, issued_tokens.
  split; [apply Hreq|]. split; [apply Hable|].
  split; [apply lookup_insert_eq|]. split; [reflexivity|]. split; [reflexivity|].
  split; [intros t Ht; now apply lookup_insert_ne|].
  split; [apply Hreq|].
  intros client_id' tok' ty' exp' req' Htok'.
  destruct (handleToken_token_inv _ _ _ _ _ Htok')
    as (c' & authCode' & Hable' & Hreq' & _).
  assert (c' = c) as ->.
  { destruct Hreq as [_ Hc _ _ _ _], Hreq' as [_ Hc' _ _ _ _].
    cbn in Hc'. congruence. }
  assert (authCode' = authCode) as ->.
  { destruct Hable as [_ H1 _ _], Hable' as [_ H2 _ _]. congruence. }
  rewrite (handleToken_success _ _ _ _ Hable' Hreq').
  rewrite (handleToken_success _ _ _ _ Hable Hreq). reflexivity.
Qed.

Lemma token_owned_by_code_client_witness :
  exists c authCode tokenData,
    TokenReq.code demo_exchange = Some c /\
    authorizationCodes demo_server !! c = Some authCode /\
    accessTokens (snd (handleToken demo_exchange demo_server)) !! issued_token demo_server
      = Some tokenData /\
    AccessToken.clientId tokenData = "client-1".
Proof.
  destruct (token_owned_by_code_client demo_exchange demo_server
              (issued_token demo_server) "Bearer" 3600)
    as (c & authCode & tokenData & Hc & Hst & Htok & _ & Hown & _).
  - vm_compute. reflexivity.
  - exists c, authCode, tokenData. repeat split; try assumption.
    rewrite Hown. injection Hc as <-.
    change (authorizationCodes demo_server !! "c0de") with (Some demo_code) in Hst.
    injection Hst as <-. reflexivity.
Defined.

(** ** Single use of an authorization code *)

Lemma handleToken_code_absent (req : TokenReq.t) (c : string) (w : Server) :
  TokenReq.code req = Some c ->
  authorizationCodes w !! c = None ->
  is_token (fst (handleToken req w)) = false /\
  snd (handleToken req w) = w /\
  (TokenReq.grant_type req = Some "authorization_code" -> c <> "" ->
   fst (handleToken req w) = unknown_code).
Proof.
  intros Hc Hst. rewrite handleToken_eq, Hc.
  change (default "" (Some c)) with c. cbv zeta. rewrite Hst.
  destruct (strict_eq (TokenReq.grant_type req) "authorization_code") eqn:Hg; cbn [negb].
  - destruct (truthy (Some c)) eqn:Ht; cbn [negb fst snd is_token].
    + auto.
    + repeat split; auto. intros _ Hne. simpl in Ht.
      destruct (String.eqb_spec c ""); [contradiction | discriminate].
  - cbn [fst snd is_token]. repeat split; auto.
    intros Hg'. apply strict_eq_true in Hg'. congruence.
Qed.

Lemma handleToken_token_deletes (req : TokenReq.t) (c : string) (w : Server) :
  TokenReq.code req = Some c ->
  is_token (fst (handleToken req w)) = true ->
  authorizationCodes (snd (handleToken req w)) !! c = None.
Proof.
  intros Hc Htok.
  destruct (fst (handleToken req w)) as [| |tok ty exp| | |] eqn:Hr; try discriminate.
  destruct (handleToken_token_inv _ _ _ _ _ Hr) as (c' & authCode & _ & Hreq & _ & _ & _ & ->).
  destruct Hreq as [_ Hc' _ _ _ _]. assert (c' = c) as -> by congruence.
  rewrite issued_codes. apply lookup_delete_eq.
Qed.

Lemma mapM_cons {A B} (f : A -> M B) (a : A) (rest : list A) (w : Server) :
  fst (mapM f (a :: rest) w) = fst (f a w) :: fst (mapM f rest (snd (f a w))).
Proof.
  cbn [mapM]. unfold bind, ret.
  destruct (f a w) as [b w1]. cbn [fst snd].
  destruct (mapM f rest w1) as [bs w2]. reflexivity.
Qed.

Lemma exchanges_after_deletion (reqs : list TokenReq.t) (c : string) (w : Server) :
  Forall (fun r => TokenReq.code r = Some c) reqs ->
  authorizationCodes w !! c = None ->
  Forall (fun r => is_token r = false) (fst (mapM handleToken reqs w)) /\
  (c <> "" ->
   Forall (fun r => TokenReq.grant_type r = Some "authorization_code") reqs ->
   fst (mapM handleToken reqs w) = repeat unknown_code (length reqs)).
Proof.
  intros Hall. revert w. induction Hall as [|r rest Hr Hrest IH]; intros w Hst.
  - split; [constructor | reflexivity].
  - rewrite mapM_cons.
    destruct (handleToken_code_absent r c w Hr Hst) as (Hno & Hw & Herr).
    rewrite Hw. destruct (IH w Hst) as [IH1 IH2]. split.
    + constructor; assumption.
    + intros Hne Hg. inversion Hg; subst. cbn [length repeat].
      rewrite Herr, IH2 by assumption. reflexivity.
Qed.

(** C1, as the code has it.  For a stored, unexpired, unused code whose
    S256 challenge is the base64url SHA-256 digest of a non-empty verifier,
    an exchange with that code and verifier (and no conflicting [client_id]
    or [redirect_uri]) returns an access token, stores it and deletes the
    code; every later call for the same code returns no token and leaves
    the state as it was, and with the grant type given its answer is
    [invalid_grant] with description "Invalid authorization code". *)
Theorem exchange_single_use (req : TokenReq.t) (c verifier : string)
    (authCode : AuthorizationCode.t) (w : Server) :
  c <> "" ->
  authorizationCodes w !! c = Some authCode ->
  clock w 0 <= AuthorizationCode.expiresAt authCode ->
  AuthorizationCode.used authCode = false ->
  AuthorizationCode.codeChallengeMethod authCode = "S256" ->
  AuthorizationCode.codeChallenge authCode = Node.sha256_base64url verifier ->
  verifier <> "" ->
  TokenReq.grant_type req = Some "authorization_code" ->
  TokenReq.code req = Some c ->
  TokenReq.code_verifier req = Some verifier ->
  optional_match (TokenReq.client_id req) (AuthorizationCode.clientId authCode) ->
  optional_match (TokenReq.redirect_uri req) (AuthorizationCode.redirectUri authCode) ->
  let first := handleToken req w in
  fst first = json_token (issued_token w) "Bearer" TOKEN_EXPIRY_SECONDS
  /\ is_Some (accessTokens (snd first) !! issued_token w)
  /\ authorizationCodes (snd first) !! c = None
  /\ forall req2,
       TokenReq.code req2 = Some c ->
       let second := handleToken req2 (snd first) in
       is_token (fst second) = false
       /\ snd second = snd first
       /\ (TokenReq.grant_type req2 = Some "authorization_code" ->
           fst second = unknown_code).
Proof.
  intros Hne Hst Hexp Hun Hm Hch Hv Hg Hc Hcv Hcl Hre first.
  assert (Hable : redeemable c authCode w) by (constructor; assumption).
  assert (Hreq : redeems req c authCode).
  { constructor; try assumption.
    - rewrite Hcv. simpl. now destruct (String.eqb_spec verifier "").
    - rewrite Hcv, Hm, Hch. apply verifyCodeChallenge_exact_S256_refl. }
  subst first. rewrite (handleToken_success _ _ _ _ Hable Hreq). cbn [fst snd].
  assert (Hgone : authorizationCodes (issued c authCode w) !! c = None)
    by (rewrite issued_codes; apply lookup_delete_eq).
  split; [reflexivity|]. split.
  { rewrite issued_tokens, lookup_insert_eq. eauto. }
  split; [exact Hgone|].
  intros req2 Hc2.
  destruct (handleToken_code_absent req2 c _ Hc2 Hgone) as (H1 & H2 & H3). auto.
Qed.

Lemma exchange_single_use_witness :
  fst (handleToken demo_exchange demo_server)
    = json_token (issued_token demo_server) "Bearer" TOKEN_EXPIRY_SECONDS
  /\ authorizationCodes (snd (handleToken demo_exchange demo_server)) !! "c0de" = None
  /\ fst (handleToken demo_exchange (snd (handleToken demo_exchange demo_server)))
     = unknown_code.
Proof.
  destruct (exchange_single_use demo_exchange "c0de" rfc_verifier demo_code demo_server)
    as (H1 & _ & H3 & H4).
  - discriminate.
  - reflexivity.
  - vm_compute. discriminate.
  - reflexivity.
  - reflexivity.
  - vm_compute. reflexivity.
  - discriminate.
  - reflexivity.
  - reflexivity.
  - reflexivity.
  - left. reflexivity.
  - left. reflexivity.
  - split; [exact H1|]. split; [exact H3|].
    apply (H4 demo_exchange); reflexivity.
Defined.

(** The second exchange of the running example is answered "Invalid
    authorization code", not "Authorization code has already been used",
    with the same verifier and with another one. *)
Lemma second_exchange_not_already_used :
  authorizationCodes demo_server !! "c0de" = Some demo_code
  /\ clock demo_server 0 <= AuthorizationCode.expiresAt demo_code
  /\ AuthorizationCode.codeChallengeMethod demo_code = "S256"
  /\ AuthorizationCode.codeChallenge demo_code = Node.sha256_base64url rfc_verifier
  /\ is_token (fst (handleToken demo_exchange demo_server)) = true
  /\ fst (handleToken demo_exchange (snd (handleToken demo_exchange demo_server)))
     = unknown_code
  /\ fst (handleToken
            (TokenReq.Make (Some "authorization_code") (Some "c0de") None None
               (Some "another-verifier"))
            (snd (handleToken demo_exchange demo_server)))
     = unknown_code
  /\ unknown_code <> already_used.
Proof.
  repeat split; try (vm_compute; reflexivity); try discriminate.
Qed.

(** ** Exchanges racing for one code *)

Lemma filter_repeat_unknown (n : nat) :
  List.filter is_token (repeat unknown_code n) = [].
Proof. induction n as [|n IH]; [reflexivity | exact IH]. Qed.

Lemma exchanges_at_most_one (reqs : list TokenReq.t) (c : string) (w : Server) :
  Forall (fun r => TokenReq.code r = Some c) reqs ->
  (length (List.filter is_token (fst (mapM handleToken reqs w))) <= 1)%nat.
Proof.
  intros Hall. revert w. induction Hall as [|r rest Hr Hrest IH]; intros w.
  - cbn. lia.
  - rewrite mapM_cons. cbn [List.filter].
    destruct (is_token (fst (handleToken r w))) eqn:Htok.
    + pose proof (handleToken_token_deletes r c w Hr Htok) as Hgone.
      destruct (exchanges_after_deletion rest c _ Hrest Hgone) as [Hnone _].
      cbn [length].
      replace (List.filter is_token (fst (mapM handleToken rest (snd (handleToken r w)))))
        with (@nil Response); [cbn; lia|].
      symmetry. induction Hnone as [|x l Hx Hl IHl]; [reflexivity|].
      cbn [List.filter]. now rewrite Hx.
    + apply IH.
Qed.

(** C2, as the code has it.  Handlers run to completion one at a time, so
    [N] calls that arrive together are handled in some order.  Whatever
    the order and the other fields of the requests, at most one call for a
    given code returns a token.  When the code is stored, unexpired and
    unused and every call would redeem it on its own, the call handled
    first returns the token and each of the other [N-1] calls is answered
    [invalid_grant] with description "Invalid authorization code". *)
Theorem concurrent_exchanges_one_success (reqs : list TokenReq.t) (c : string)
    (authCode : AuthorizationCode.t) (w : Server) :
  (1 <= length reqs)%nat ->
  Forall (fun r => TokenReq.code r = Some c) reqs ->
  (length (List.filter is_token (fst (mapM handleToken reqs w))) <= 1)%nat
  /\ (redeemable c authCode w ->
      Forall (fun r => redeems r c authCode) reqs ->
      fst (mapM handleToken reqs w)
        = json_token (issued_token w) "Bearer" TOKEN_EXPIRY_SECONDS
            :: repeat unknown_code (length reqs - 1)
      /\ length (List.filter is_token (fst (mapM handleToken reqs w))) = 1%nat).
Proof.
  intros Hlen Hcodes. split; [now apply (exchanges_at_most_one reqs c)|].
  intros Hable Hall.
  destruct reqs as [|r rest]; [cbn in Hlen; lia|].
  inversion Hall as [|? ? Hr Hrest]; subst.
  inversion Hcodes as [|? ? _ Hcrest]; subst.
  rewrite !mapM_cons, (handleToken_success _ _ _ _ Hable Hr). cbn [fst snd].
  assert (Hgone : authorizationCodes (issued c authCode w) !! c = None)
    by (rewrite issued_codes; apply lookup_delete_eq).
  destruct (exchanges_after_deletion rest c _ Hcrest Hgone) as [_ Hrep].
  rewrite Hrep.
  - cbn [length]. rewrite Nat.sub_succ, Nat.sub_0_r. split; [reflexivity|].
    cbn [List.filter is_token length]. now rewrite filter_repeat_unknown.
  - apply Hable.
  - eapply Forall_impl; [exact Hrest|]. intros r' Hr'. apply Hr'.
Qed.

Lemma concurrent_exchanges_one_success_witness :
  fst (mapM handleToken [demo_exchange; demo_exchange; demo_exchange] demo_server)
    = [ json_token (issued_token demo_server) "Bearer" TOKEN_EXPIRY_SECONDS;
        unknown_code; unknown_code ].
Proof.
  assert (Hreq : redeems demo_exchange "c0de" demo_code).
  { constructor; first [left; reflexivity | vm_compute; reflexivity]. }
  assert (Hable : redeemable "c0de" demo_code demo_server).
  { constructor; first [discriminate | reflexivity | vm_compute; discriminate]. }
  destruct (concurrent_exchanges_one_success
              [demo_exchange; demo_exchange; demo_exchange] "c0de" demo_code demo_server)
    as [_ H].
  - cbn. lia.
  - repeat constructor.
  - destruct (H Hable) as [Heq _]; [repeat constructor; exact Hreq | exact Heq].
Defined.

(** Two calls racing for the code of the running example: the one handled
    second is answered "Invalid authorization code", not "already used". *)
Lemma racing_exchanges_second_not_already_used :
  authorizationCodes demo_server !! "c0de" = Some demo_code
  /\ clock demo_server 0 <= AuthorizationCode.expiresAt demo_code
  /\ AuthorizationCode.used demo_code = false
  /\ fst (mapM handleToken [demo_exchange; demo_exchange] demo_server)
     = [ json_token (issued_token demo_server) "Bearer" TOKEN_EXPIRY_SECONDS; unknown_code ]
  /\ unknown_code <> already_used.
Proof.
  repeat split; try (vm_compute; reflexivity); try discriminate.
Qed.

(** ** Registration *)

Lemma validateRedirectUris_reject `{UrlApi} (uris : list string) :
  (exists uri, In uri uris /\ uri_allowed uri = false) ->
  exists failure, validateRedirectUris uris = Some failure /\ invalid_redirect_uri failure.
Proof.
  intros (uri & Hin & Hbad). induction uris as [|u rest IH]; [destruct Hin|].
  cbn [validateRedirectUris]. unfold uri_allowed in *.
  destruct (new_URL u) as [url|] eqn:Hu.
  - destruct ((URL_hostname url =? "localhost")%string
              || (URL_hostname url =? "127.0.0.1")%string) eqn:Hl;
      destruct (URL_protocol url =? "https:")%string eqn:Hs; cbn [negb andb];
      try (destruct Hin as [->|Hin];
           [rewrite Hu, Hl, Hs in Hbad; discriminate | now apply IH]).
    eexists; split; [reflexivity | eexists; reflexivity].
  - eexists; split; [reflexivity | eexists; reflexivity].
Qed.

Lemma validateRedirectUris_accept `{UrlApi} (uris : list string) :
  Forall (fun uri => uri_allowed uri = true) uris ->
  validateRedirectUris uris = None.
Proof.
  induction 1 as [|u rest Hu _ IH]; [reflexivity|].
  cbn [validateRedirectUris]. unfold uri_allowed in Hu.
  destruct (new_URL u) as [url|]; [|discriminate].
  destruct ((URL_hostname url =? "localhost")%string
            || (URL_hostname url =? "127.0.0.1")%string);
    destruct (URL_protocol url =? "https:")%string; cbn [negb andb];
    try exact IH. discriminate.
Qed.

(** C6. When the [redirect_uris] array holds a URI that does not parse, or
    whose scheme is not [https] and whose host is neither [localhost] nor
    [127.0.0.1], registration answers 400 [invalid_redirect_uri] and the
    state, the client registry in particular, is exactly what it was. *)
Theorem handleRegister_all_or_nothing `{UrlApi}
    (req : RegisterReq.t) (uris : list string) (w : Server) :
  RegisterReq.redirect_uris req = Some uris ->
  (exists uri, In uri uris /\ uri_allowed uri = false) ->
  invalid_redirect_uri (fst (handleRegister req w))
  /\ registeredClients (snd (handleRegister req w)) = registeredClients w
  /\ snd (handleRegister req w) = w.
Proof.
  intros Huris Hbad. unfold handleRegister. rewrite Huris.
  destruct uris as [|u rest]; [destruct Hbad as (? & [] & _)|].
  destruct (validateRedirectUris_reject _ Hbad) as (failure & -> & Hf).
  cbn. auto.
Qed.

Lemma handleRegister_all_or_nothing_witness :
  invalid_redirect_uri (fst (handleRegister mixed_registration (fresh_server 1000 3)))
  /\ snd (handleRegister mixed_registration (fresh_server 1000 3)) = fresh_server 1000 3.
Proof.
  destruct (handleRegister_all_or_nothing mixed_registration
              ["https://app.example/cb"; "http://evil.example/cb"] (fresh_server 1000 3))
    as (H1 & _ & H3).
  - reflexivity.
  - exists "http://evil.example/cb". split; [right; left; reflexivity | reflexivity].
  - split; [exact H1 | exact H3].
Defined.

(** The claim fails in both of its parts.  A list with one acceptable URI
    and one that is not is refused and nothing is stored; and with a random
    source that repeats, a second registration is answered 201 with the
    very pair the first one was given, and the registry still holds one
    client. *)
Lemma registration_claim_fails :
  (uri_allowed "https://app.example/cb" = true
   /\ In "https://app.example/cb" (default [] (RegisterReq.redirect_uris mixed_registration))
   /\ fst (handleRegister mixed_registration (fresh_server 1000 3))
      = json_error 400 "invalid_redirect_uri" "Redirect URIs must be localhost or HTTPS"
   /\ registeredClients (snd (handleRegister mixed_registration (fresh_server 1000 3))) = ∅)
  /\ (let first := handleRegister loopback_registration stuck_server in
      let second := handleRegister loopback_registration (snd first) in
      fst first
      = json_client 201 "AAAAAAAAAAAAAAAAAAAAAAAAAAAAAAAA"
          "AAAAAAAAAAAAAAAAAAAAAAAAAAAAAAAAAAAAAAAAAAAAAAAA"
          ["http://localhost:9999/cb"; "https://app.example/cb"] None "client_secret_post"
      /\ fst second = fst first
      /\ size (registeredClients (snd first)) = 1%nat
      /\ size (registeredClients (snd second)) = 1%nat).
Proof.
  split.
  - split; [vm_compute; reflexivity|]. split; [left; reflexivity|].
    split; vm_compute; reflexivity.
  - cbv zeta.
    assert (Hfirst : handleRegister loopback_registration stuck_server
                     = (json_client 201 "AAAAAAAAAAAAAAAAAAAAAAAAAAAAAAAA"
                          "AAAAAAAAAAAAAAAAAAAAAAAAAAAAAAAAAAAAAAAAAAAAAAAA"
                          ["http://localhost:9999/cb"; "https://app.example/cb"] None
                          "client_secret_post",
                        mkServer ∅
                          {[ "AAAAAAAAAAAAAAAAAAAAAAAAAAAAAAAA" :=
                               RegisteredClient.Make "AAAAAAAAAAAAAAAAAAAAAAAAAAAAAAAA"
                                 (Some "AAAAAAAAAAAAAAAAAAAAAAAAAAAAAAAAAAAAAAAAAAAAAAAA")
                                 ["http://localhost:9999/cb"; "https://app.example/cb"]
                                 None 1000 ]}
                          ∅ (fun n => 1000 + Z.of_nat (S n)) (fun _ => Byte.x00))).
    { unfold handleRegister, loopback_registration. cbn [RegisterReq.redirect_uris].
      replace (validateRedirectUris ["http://localhost:9999/cb"; "https://app.example/cb"])
        with (@None Response) by (vm_compute; reflexivity).
      reflexivity. }
    rewrite Hfirst. cbn [fst snd].
    split; [reflexivity|]. split; [|split].
    + unfold handleRegister, loopback_registration. cbn [RegisterReq.redirect_uris].
      replace (validateRedirectUris ["http://localhost:9999/cb"; "https://app.example/cb"])
        with (@None Response) by (vm_compute; reflexivity).
      reflexivity.
    + apply map_size_singleton.
    + unfold handleRegister, loopback_registration. cbn [RegisterReq.redirect_uris].
      replace (validateRedirectUris ["http://localhost:9999/cb"; "https://app.example/cb"])
        with (@None Response) by (vm_compute; reflexivity).
      cbn [bind ret fst snd]. unfold bind, generateRandomString, Date_now, modify, ret.
      cbn. rewrite insert_singleton_eq. apply map_size_singleton.
Qed.

Lemma unsextet_sextet (n : Z) : unsextet (Node.sextet n) = n mod 64.
Proof.
  assert (Htable :
    forallb (fun k => Z.eqb (unsextet (Node.sextet (Z.of_nat k))) (Z.of_nat k)) (seq 0 64)
      = true)
    by (vm_compute; reflexivity).
  rewrite forallb_forall in Htable.
  assert (Hr : 0 <= n mod 64 < 64) by (apply Z.mod_pos_bound; lia).
  specialize (Htable (Z.to_nat (n mod 64))).
  rewrite Z2Nat.id in Htable by lia.
  replace (Node.sextet n) with (Node.sextet (n mod 64))
    by (unfold Node.sextet; now rewrite Z.mod_mod by lia).
  apply Z.eqb_eq, Htable, in_seq. lia.
Qed.

Lemma group_inj (a0 a1 a2 b0 b1 b2 : Z) :
  octet a0 -> octet a1 -> octet a2 -> octet b0 -> octet b1 -> octet b2 ->
  Node.sextet (a0 / 4) = Node.sextet (b0 / 4) ->
  Node.sextet (a0 * 16 + a1 / 16) = Node.sextet (b0 * 16 + b1 / 16) ->
  Node.sextet (a1 * 4 + a2 / 64) = Node.sextet (b1 * 4 + b2 / 64) ->
  Node.sextet a2 = Node.sextet b2 ->
  a0 = b0 /\ a1 = b1 /\ a2 = b2.
Proof.
  unfold octet. intros ? ? ? ? ? ? H0 H1 H2 H3.
  apply (f_equal unsextet) in H0, H1, H2, H3.
  rewrite !unsextet_sextet in H0, H1, H2, H3.
  Z.div_mod_to_equations. lia.
Qed.

Lemma base64url_prefix_inj (n : nat) (l l' : list Z) :
  (3 * n <= length l)%nat -> (3 * n <= length l')%nat ->
  Forall octet l -> Forall octet l' ->
  Node.slice0 (4 * n) (Node.base64url l) = Node.slice0 (4 * n) (Node.base64url l') ->
  firstn (3 * n) l = firstn (3 * n) l'.
Proof.
  revert l l'. induction n as [|n IH]; intros l l' Hl Hl' Ho Ho' Heq; [reflexivity|].
  destruct l as [|a0 [|a1 [|a2 l]]]; try (cbn in Hl; lia).
  destruct l' as [|b0 [|b1 [|b2 l']]]; try (cbn in Hl'; lia).
  replace (3 * S n)%nat with (S (S (S (3 * n)))) in * by lia.
  replace (4 * S n)%nat with (S (S (S (S (4 * n))))) in Heq by lia.
  cbn [Node.base64url Node.slice0 substring] in Heq.
  injection Heq as H0 H1 H2 H3 Hrest.
  repeat match goal with H : Forall octet (_ :: _) |- _ => inversion H; clear H; subst end.
  destruct (group_inj a0 a1 a2 b0 b1 b2) as (-> & -> & ->); try assumption.
  cbn [firstn]. do 3 f_equal.
  apply IH; try assumption; cbn [length] in *; lia.
Qed.

Lemma drawn_bytes_octets (n : nat) (w : Server) : Forall octet (drawn_bytes n w).
Proof.
  unfold drawn_bytes, randomBytes. cbn [fst].
  apply Forall_forall. intros b Hb. apply list_elem_of_In, in_map_iff in Hb.
  destruct Hb as (i & <- & _). unfold octet.
  pose proof (Byte.to_N_bounded (entropy w i)). lia.
Qed.

Lemma generateRandomString_inj (w w' : Server) :
  fst (generateRandomString 32 w) = fst (generateRandomString 32 w') ->
  forall i, (i < 24)%nat -> entropy w i = entropy w' i.
Proof.
  intros Heq.
  change (Node.slice0 (4 * 8) (Node.base64url (drawn_bytes 32 w))
          = Node.slice0 (4 * 8) (Node.base64url (drawn_bytes 32 w'))) in Heq.
  apply base64url_prefix_inj in Heq;
    [| unfold drawn_bytes, randomBytes; cbn [fst]; rewrite length_map, length_seq; lia ..
     | apply drawn_bytes_octets | apply drawn_bytes_octets ].
  change (map (fun i => Z.of_N (Byte.to_N (entropy w i))) (seq 0 24)
          = map (fun i => Z.of_N (Byte.to_N (entropy w' i))) (seq 0 24)) in Heq.
  intros i Hi.
  assert (Hin : In i (seq 0 24)) by (apply in_seq; lia).
  pose proof (proj1 map_ext_in_iff Heq i Hin) as Hb. cbv beta in Hb.
  apply N2Z.inj in Hb.
  assert (Some (entropy w i) = Some (entropy w' i)) as [= ->]
    by (rewrite <- !Byte.of_to_N; now rewrite Hb).
  reflexivity.
Qed.

Lemma base64url_prefix_same (n : nat) (l l' : list Z) :
  (3 * n <= length l)%nat -> (3 * n <= length l')%nat ->
  firstn (3 * n) l = firstn (3 * n) l' ->
  Node.slice0 (4 * n) (Node.base64url l) = Node.slice0 (4 * n) (Node.base64url l').
Proof.
  revert l l'. induction n as [|n IH]; intros l l' Hl Hl' Heq.
  - unfold Node.slice0. now destruct (Node.base64url l), (Node.base64url l').
  - destruct l as [|a0 [|a1 [|a2 l]]]; try (cbn in Hl; lia).
    destruct l' as [|b0 [|b1 [|b2 l']]]; try (cbn in Hl'; lia).
    replace (3 * S n)%nat with (S (S (S (3 * n)))) in * by lia.
    replace (4 * S n)%nat with (S (S (S (S (4 * n))))) by lia.
    cbn [firstn] in Heq. injection Heq as -> -> -> Hrest.
    cbn [Node.base64url Node.slice0 substring]. do 4 f_equal.
    apply IH; [cbn [length] in *; lia .. | exact Hrest].
Qed.

Lemma generateRandomString_same (w w' : Server) :
  (forall i, (i < 24)%nat -> entropy w i = entropy w' i) ->
  fst (generateRandomString 32 w) = fst (generateRandomString 32 w').
Proof.
  intros Hsame.
  change (Node.slice0 (4 * 8) (Node.base64url (drawn_bytes 32 w))
          = Node.slice0 (4 * 8) (Node.base64url (drawn_bytes 32 w'))).
  apply base64url_prefix_same;
    [unfold drawn_bytes, randomBytes; cbn [fst]; rewrite length_map, length_seq; lia ..|].
  change (map (fun i => Z.of_N (Byte.to_N (entropy w i))) (seq 0 24)
          = map (fun i => Z.of_N (Byte.to_N (entropy w' i))) (seq 0 24)).
  apply map_ext_in. intros i Hi. apply in_seq in Hi. rewrite Hsame by lia. reflexivity.
Qed.

Lemma generateRandomString_48_inj (w w' : Server) :
  fst (generateRandomString 48 w) = fst (generateRandomString 48 w') ->
  forall i, (i < 36)%nat -> entropy w i = entropy w' i.
Proof.
  intros Heq.
  change (Node.slice0 (4 * 12) (Node.base64url (drawn_bytes 48 w))
          = Node.slice0 (4 * 12) (Node.base64url (drawn_bytes 48 w'))) in Heq.
  apply base64url_prefix_inj in Heq;
    [| unfold drawn_bytes, randomBytes; cbn [fst]; rewrite length_map, length_seq; lia ..
     | apply drawn_bytes_octets | apply drawn_bytes_octets ].
  change (map (fun i => Z.of_N (Byte.to_N (entropy w i))) (seq 0 36)
          = map (fun i => Z.of_N (Byte.to_N (entropy w' i))) (seq 0 36)) in Heq.
  intros i Hi.
  assert (Hin : In i (seq 0 36)) by (apply in_seq; lia).
  pose proof (proj1 map_ext_in_iff Heq i Hin) as Hb. cbv beta in Hb.
  apply N2Z.inj in Hb.
  assert (Some (entropy w i) = Some (entropy w' i)) as [= ->]
    by (rewrite <- !Byte.of_to_N; now rewrite Hb).
  reflexivity.
Qed.

Lemma generateRandomString_48_same (w w' : Server) :
  (forall i, (i < 36)%nat -> entropy w i = entropy w' i) ->
  fst (generateRandomString 48 w) = fst (generateRandomString 48 w').
Proof.
  intros Hsame.
  change (Node.slice0 (4 * 12) (Node.base64url (drawn_bytes 48 w))
          = Node.slice0 (4 * 12) (Node.base64url (drawn_bytes 48 w'))).
  apply base64url_prefix_same;
    [unfold drawn_bytes, randomBytes; cbn [fst]; rewrite length_map, length_seq; lia ..|].
  change (map (fun i => Z.of_N (Byte.to_N (entropy w i))) (seq 0 36)
          = map (fun i => Z.of_N (Byte.to_N (entropy w' i))) (seq 0 36)).
  apply map_ext_in. intros i Hi. apply in_seq in Hi. rewrite Hsame by lia. reflexivity.
Qed.

(** The secret is drawn after the id: it is made of the random bytes 32 to
    67. *)
Lemma registered_secret_eq_iff (w w0 : Server) :
  registered_secret w = registered_secret w0
  <-> forall i, (32 <= i < 68)%nat -> entropy w i = entropy w0 i.
Proof.
  unfold registered_secret. split.
  - intros Heq i Hi.
    pose proof (generateRandomString_48_inj _ _ Heq (i - 32)%nat) as Hb.
    cbn [generateRandomString bind randomBytes ret fst snd entropy] in Hb.
    unfold bind, randomBytes, ret in Hb. cbn [fst snd entropy] in Hb.
    replace (32 + (i - 32))%nat with i in Hb by lia. apply Hb. lia.
  - intros Hsame. apply generateRandomString_48_same. intros i Hi.
    unfold generateRandomString, bind, randomBytes, ret. cbn [fst snd entropy].
    apply Hsame. lia.
Qed.

(** C7, as the code has it.  A registration whose [redirect_uris] is a
    non-empty array in which every URI parses and has scheme [https] or
    host [localhost] or [127.0.0.1] is answered 201 with a [client_id] made
    of the first 32 characters of the base64url encoding of 32 random bytes
    and a [client_secret] made likewise from 48 further bytes, and the
    client is stored under that id.  No comparison with the stored clients
    is made.  A stored client whose id differs from the new one is kept as
    it is, and the registry then grows by one; a stored client with the new
    id is replaced by the new one.  Against a stored client that was issued
    from the draw [w0], the new id is the stored id exactly when the first
    24 random bytes of the two draws agree, and the new pair is the stored
    pair exactly when the bytes 0 to 23 and 32 to 67 agree: the returned
    pair differs from every stored pair as soon as the random source gives
    other bytes there. *)
Theorem handleRegister_succeeds `{UrlApi}
    (req : RegisterReq.t) (uris : list string) (w : Server) :
  RegisterReq.redirect_uris req = Some uris ->
  uris <> [] ->
  Forall (fun uri => uri_allowed uri = true) uris ->
  let client :=
    RegisteredClient.Make (registered_id w) (Some (registered_secret w)) uris
      (RegisterReq.client_name req) (clock w 0) in
  let after := registeredClients (snd (handleRegister req w)) in
  fst (handleRegister req w)
    = json_client 201 (registered_id w) (registered_secret w) uris
        (RegisterReq.client_name req) "client_secret_post"
  /\ after = <[registered_id w := client]> (registeredClients w)
  /\ authorizationCodes (snd (handleRegister req w)) = authorizationCodes w
  /\ accessTokens (snd (handleRegister req w)) = accessTokens w
  /\ (forall k c, registeredClients w !! k = Some c ->
      (k <> registered_id w -> after !! k = Some c)
      /\ (k = registered_id w -> after !! k = Some client)
      /\ forall w0, k = registered_id w0 ->
           (k = registered_id w <->
            forall i, (i < 24)%nat -> entropy w i = entropy w0 i)
           /\ (RegisteredClient.clientSecret c = Some (registered_secret w0) ->
               ((registered_id w, Some (registered_secret w))
                  = (k, RegisteredClient.clientSecret c)
                <-> forall i, (i < 24)%nat \/ (32 <= i < 68)%nat ->
                      entropy w i = entropy w0 i)))
  /\ (registeredClients w !! registered_id w = None ->
      size after = S (size (registeredClients w)))
  /\ (forall w0, (exists i, (i < 24)%nat /\ entropy w i <> entropy w0 i) ->
        registered_id w <> registered_id w0).
Proof.
  intros Huris Hne Hall client after.
  assert (Hrun : handleRegister req w
                 = (json_client 201 (registered_id w) (registered_secret w) uris
                      (RegisterReq.client_name req) "client_secret_post",
                    snd (handleRegister req w))
                 /\ after = <[registered_id w := client]> (registeredClients w)
                 /\ authorizationCodes (snd (handleRegister req w)) = authorizationCodes w
                 /\ accessTokens (snd (handleRegister req w)) = accessTokens w).
  { subst after client. unfold handleRegister. rewrite Huris.
    destruct uris as [|u rest]; [contradiction|].
    rewrite (validateRedirectUris_accept _ Hall). repeat split. }
  destruct Hrun as (Hresp & Hafter & Hcodes & Htokens).
  split; [now rewrite Hresp|]. split; [exact Hafter|].
  split; [exact Hcodes|]. split; [exact Htokens|]. split; [|split].
  - intros k c Hk. split; [|split].
    + intros Hkne. rewrite Hafter, lookup_insert_ne by congruence. exact Hk.
    + intros ->. rewrite Hafter. apply lookup_insert_eq.
    + intros w0 ->. split.
      * split.
        -- intros Heq. now apply generateRandomString_inj.
        -- intros Hsame. symmetry. now apply generateRandomString_same.
      * intros ->. split.
        -- intros Hpair.
           pose proof (f_equal fst Hpair) as Hid.
           pose proof (f_equal snd Hpair) as Hsecret.
           cbn [fst snd] in Hid, Hsecret. apply (inj Some) in Hsecret.
           intros i [Hi|Hi].
           ++ exact (generateRandomString_inj w w0 Hid i Hi).
           ++ exact (proj1 (registered_secret_eq_iff w w0) Hsecret i Hi).
        -- intros Hsame. f_equal; [|f_equal].
           ++ apply generateRandomString_same. intros i Hi. apply Hsame. now left.
           ++ apply registered_secret_eq_iff. intros i Hi. apply Hsame. now right.
  - intros Hfresh. rewrite Hafter. now apply map_size_insert_None.
  - intros w0 (i & Hi & Hdiff) Heq. apply Hdiff.
    now apply generateRandomString_inj.
Qed.

Lemma handleRegister_succeeds_witness :
  fst (handleRegister loopback_registration (fresh_server 1000 3))
    = json_client 201 "AwoRGB8mLTQ7QklQV15lbHN6gYiPlp2k"
        "4-rx-P8GDRQbIikwNz5FTFNaYWhvdn2Ei5KZoKeutbzDytHY"
        ["http://localhost:9999/cb"; "https://app.example/cb"] None "client_secret_post"
  /\ is_Some (registeredClients (snd (handleRegister loopback_registration (fresh_server 1000 3)))
               !! "AwoRGB8mLTQ7QklQV15lbHN6gYiPlp2k").
Proof.
  destruct (handleRegister_succeeds loopback_registration
              ["http://localhost:9999/cb"; "https://app.example/cb"] (fresh_server 1000 3))
    as (H1 & H2 & _).
  - reflexivity.
  - discriminate.
  - repeat constructor.
  - split; [exact H1|]. rewrite H2.
    change (registered_id (fresh_server 1000 3)) with "AwoRGB8mLTQ7QklQV15lbHN6gYiPlp2k".
    rewrite lookup_insert_eq. eauto.
Defined.

(** ** The shape of generated strings *)

Lemma sextet_in_alphabet (n : Z) :
  In (Node.sextet n) (list_ascii_of_string Node.alphabet).
Proof.
  assert (Htable :
    forallb (fun k => existsb (Ascii.eqb (Node.sextet (Z.of_nat k)))
                        (list_ascii_of_string Node.alphabet)) (seq 0 64) = true)
    by (vm_compute; reflexivity).
  rewrite forallb_forall in Htable.
  assert (Hr : 0 <= n mod 64 < 64) by (apply Z.mod_pos_bound; lia).
  specialize (Htable (Z.to_nat (n mod 64))).
  rewrite Z2Nat.id in Htable by lia.
  replace (Node.sextet n) with (Node.sextet (n mod 64))
    by (unfold Node.sextet; now rewrite Z.mod_mod by lia).
  assert (Hin : In (Z.to_nat (n mod 64)) (seq 0 64)) by (apply in_seq; lia).
  apply Htable, existsb_exists in Hin. destruct Hin as (c & Hc & Heq).
  apply Ascii.eqb_eq in Heq. now subst.
Qed.

Lemma base64url_shape (l : list Z) :
  (url_safe (Node.base64url l) /\ (length l <= String.length (Node.base64url l))%nat)
  /\ (forall a, url_safe (Node.base64url (a :: l))
               /\ (length (a :: l) <= String.length (Node.base64url (a :: l)))%nat)
  /\ (forall a b, url_safe (Node.base64url (a :: b :: l))
                 /\ (length (a :: b :: l) <= String.length (Node.base64url (a :: b :: l)))%nat).
Proof.
  unfold url_safe.
  induction l as [|x l (IH0 & IH1 & IH2)].
  - split; [|split]; intros;
      cbn [Node.base64url list_ascii_of_string String.length length];
      (split; [|lia]);
      repeat (constructor; [apply sextet_in_alphabet|]); constructor.
  - split; [apply IH1|]. split; [intros a; apply IH2|].
    intros a b. destruct IH0 as [Hs Hl].
    cbn [Node.base64url list_ascii_of_string String.length length].
    split; [|lia]. repeat (constructor; [apply sextet_in_alphabet|]). exact Hs.
Qed.

Lemma substring_prefix_shape (n : nat) (s : string) :
  String.length (substring 0 n s) = Nat.min n (String.length s)
  /\ (url_safe s -> url_safe (substring 0 n s)).
Proof.
  unfold url_safe. revert s.
  induction n as [|n IH]; intros [|c s];
    cbn [substring String.length Nat.min list_ascii_of_string].
  - split; [reflexivity | constructor].
  - split; [reflexivity | constructor].
  - split; [reflexivity | constructor].
  - destruct (IH s) as [Hl Hs]. split; [now rewrite Hl|].
    intros Hcs. inversion Hcs; subst. constructor; auto.
Qed.

Lemma generated_shape (n : nat) (w : Server) :
  String.length (fst (generateRandomString n w)) = n
  /\ url_safe (fst (generateRandomString n w)).
Proof.
  unfold generateRandomString, bind, ret, randomBytes. cbn [fst].
  set (bytes := map _ (seq 0 n)).
  destruct (base64url_shape bytes) as [[Hs Hl] _].
  destruct (substring_prefix_shape n (Node.base64url bytes)) as [Hlen Hsafe].
  unfold Node.slice0. split; [|auto].
  rewrite Hlen. subst bytes. rewrite length_map, length_seq in Hl. lia.
Qed.

Lemma url_safe_ascii (s : string) : url_safe s -> ascii_text s = true.
Proof.
  assert (Htable : forallb (fun c => Z.ltb (Z.of_nat (nat_of_ascii c)) 128)
                     (list_ascii_of_string Node.alphabet) = true)
    by (vm_compute; reflexivity).
  rewrite forallb_forall in Htable. unfold url_safe.
  induction s as [|c s IH]; [reflexivity|]. cbn [list_ascii_of_string ascii_text].
  intros Hs. apply Forall_cons in Hs as [Hc Hs]. rewrite (Htable c Hc), IH by exact Hs.
  reflexivity.
Qed.

Lemma minted_code_ascii (w : Server) : ascii_text (minted_code w) = true.
Proof. apply url_safe_ascii. exact (proj2 (generated_shape 48 w)). Qed.

(** ** The authorization endpoint *)

Lemma handleAuthorize_eq `{UrlApi} (req : AuthorizeReq.t) (w : Server) :
  handleAuthorize req w =
  if negb (truthy (AuthorizeReq.client_id req)) then
    (send_text 400 "Missing client_id", w)
  else if negb (strict_eq (AuthorizeReq.response_type req) "code") then
    (send_text 400 "Unsupported response_type. Only 'code' is supported.", w)
  else if negb (truthy (AuthorizeReq.redirect_uri req)) then
    (send_text 400 "Missing redirect_uri", w)
  else if negb (truthy (AuthorizeReq.code_challenge req)) then
    (send_text 400 "Missing code_challenge (PKCE required)", w)
  else
    let redirect_uri := default "" (AuthorizeReq.redirect_uri req) in
    let authCode :=
      AuthorizationCode.Make (minted_code w)
        (default "" (AuthorizeReq.client_id req)) redirect_uri
        (default "" (AuthorizeReq.code_challenge req))
        (or_default (AuthorizeReq.code_challenge_method req) "plain")
        (clock w 0 + CODE_EXPIRY_SECONDS * 1000) false in
    let w' :=
      set_authorizationCodes (<[minted_code w := authCode]> (authorizationCodes w))
        (tick (snd (generateRandomString 48 w))) in
    match new_URL redirect_uri with
    | None => (uncaught_TypeError, w')
    | Some url =>
        let url1 := searchParams_set "code" (minted_code w) url in
        (redirect 302
           (URL_toString
              (if truthy (AuthorizeReq.state req)
               then searchParams_set "state" (default "" (AuthorizeReq.state req)) url1
               else url1)), w')
    end.
Proof.
  unfold handleAuthorize.
  destruct (negb (truthy (AuthorizeReq.client_id req))); [reflexivity|].
  destruct (negb (strict_eq (AuthorizeReq.response_type req) "code")); [reflexivity|].
  destruct (negb (truthy (AuthorizeReq.redirect_uri req))); [reflexivity|].
  destruct (negb (truthy (AuthorizeReq.code_challenge req))); [reflexivity|].
  cbv zeta. run.
  destruct (new_URL (default "" (AuthorizeReq.redirect_uri req))); reflexivity.
Qed.

(** C8, as the code has it.  For a request with non-empty [client_id],
    [redirect_uri] and [code_challenge], [response_type] equal to ["code"]
    and a [redirect_uri] that parses as a URL, the code map after the call
    is the map before it with the record of the freshly generated code put
    under that code: unused, expiring 600 000 ms after the clock reading,
    bound to the supplied client, redirect URI and challenge, with method
    ["plain"] when [code_challenge_method] is absent or empty.  The
    response is a 302 redirect whose location is the serialization of the
    parsed [redirect_uri] after its query parameter [code] was set to the
    new code and, when [state] is non-empty, [state] to the state.  That
    target has the scheme, credentials, host, port, path and fragment of
    the [redirect_uri] and its query parameters other than [code] and
    [state]; without a non-empty [state] that parameter too is as the
    [redirect_uri] had it; and when the state is ASCII text the location
    parses back to exactly that target. *)
Theorem handleAuthorize_success `{UrlRecord} (req : AuthorizeReq.t) (w : Server)
    (client_id redirect_uri code_challenge : string) (url : URL) :
  AuthorizeReq.client_id req = Some client_id -> client_id <> "" ->
  AuthorizeReq.response_type req = Some "code" ->
  AuthorizeReq.redirect_uri req = Some redirect_uri -> redirect_uri <> "" ->
  AuthorizeReq.code_challenge req = Some code_challenge -> code_challenge <> "" ->
  new_URL redirect_uri = Some url ->
  let authCode :=
    AuthorizationCode.Make (minted_code w) client_id redirect_uri code_challenge
      (or_default (AuthorizeReq.code_challenge_method req) "plain")
      (clock w 0 + CODE_EXPIRY_SECONDS * 1000) false in
  let with_code := searchParams_set "code" (minted_code w) url in
  let target :=
    match AuthorizeReq.state req with
    | Some s => if (s =? "")%string then with_code else searchParams_set "state" s with_code
    | None => with_code
    end in
  authorizationCodes (snd (handleAuthorize req w))
    = <[minted_code w := authCode]> (authorizationCodes w)
  /\ (authorizationCodes w !! minted_code w = None ->
      size (authorizationCodes (snd (handleAuthorize req w)))
        = S (size (authorizationCodes w)))
  /\ clock w 0 <= AuthorizationCode.expiresAt authCode
  /\ (truthy (AuthorizeReq.code_challenge_method req) = false ->
      AuthorizationCode.codeChallengeMethod authCode = "plain")
  /\ accessTokens (snd (handleAuthorize req w)) = accessTokens w
  /\ registeredClients (snd (handleAuthorize req w)) = registeredClients w
  /\ fst (handleAuthorize req w) = redirect 302 (URL_toString target)
  /\ (ascii_text (default "" (AuthorizeReq.state req)) = true ->
      new_URL (URL_toString target) = Some target)
  /\ (URL_protocol target = URL_protocol url
      /\ URL_username target = URL_username url
      /\ URL_password target = URL_password url
      /\ URL_hostname target = URL_hostname url
      /\ URL_port target = URL_port url
      /\ URL_pathname target = URL_pathname url
      /\ URL_hash target = URL_hash url)
  /\ searchParams_get "code" target = Some (minted_code w)
  /\ (forall s, AuthorizeReq.state req = Some s -> s <> "" ->
        searchParams_get "state" target = Some s)
  /\ (truthy (AuthorizeReq.state req) = false ->
        searchParams_get "state" target = searchParams_get "state" url)
  /\ (forall k, k <> "code" -> k <> "state" ->
        searchParams_get k target = searchParams_get k url).
Proof.
  intros Hc Hcne Hr Hu Hune Hch Hchne Hurl authCode with_code target.
  assert (Ht : forall s, s <> "" -> truthy (Some s) = true).
  { intros s Hs. simpl. now destruct (String.eqb_spec s ""). }
  assert (Hrun : handleAuthorize req w
                 = (redirect 302 (URL_toString target),
                    snd (handleAuthorize req w))
                 /\ authorizationCodes (snd (handleAuthorize req w))
                    = <[minted_code w := authCode]> (authorizationCodes w)
                 /\ accessTokens (snd (handleAuthorize req w)) = accessTokens w
                 /\ registeredClients (snd (handleAuthorize req w)) = registeredClients w).
  { rewrite handleAuthorize_eq, Hc, Hr, Hu, Hch, !Ht by assumption.
    change (strict_eq (Some "code") "code") with true.
    change (default "" (Some client_id)) with client_id.
    change (default "" (Some redirect_uri)) with redirect_uri.
    change (default "" (Some code_challenge)) with code_challenge.
    cbn [negb]. cbv zeta. rewrite Hurl. cbn [fst snd].
    split; [|repeat split]. f_equal. f_equal. f_equal. subst target with_code.
    destruct (AuthorizeReq.state req) as [s|]; [|reflexivity].
    cbn [truthy]. change (default "" (Some s)) with s.
    now destruct (s =? "")%string. }
  destruct Hrun as (Hresp & Hcodes & Htokens & Hclients).
  split; [exact Hcodes|].
  split; [intros Hfresh; rewrite Hcodes; now apply map_size_insert_None|].
  split; [subst authCode; cbn [AuthorizationCode.expiresAt];
          unfold CODE_EXPIRY_SECONDS; lia|].
  split.
  { subst authCode. cbn [AuthorizationCode.codeChallengeMethod].
    destruct (AuthorizeReq.code_challenge_method req) as [m|]; [|reflexivity].
    simpl. now destruct (m =? "")%string. }
  split; [exact Htokens|]. split; [exact Hclients|].
  split; [now rewrite Hresp|].
  assert (Hvalid : URL_valid with_code).
  { apply searchParams_set_valid; [now apply (new_URL_valid redirect_uri) | reflexivity |].
    apply minted_code_ascii. }
  subst target. destruct (AuthorizeReq.state req) as [s|] eqn:Hs.
  - destruct (String.eqb_spec s "") as [->|Hsne].
    + split; [intros _; now apply URL_toString_parse|].
      subst with_code.
      rewrite searchParams_set_protocol, searchParams_set_username,
        searchParams_set_password, searchParams_set_hostname, searchParams_set_port,
        searchParams_set_pathname, searchParams_set_hash, searchParams_get_set.
      split; [repeat split|]. split; [reflexivity|].
      split; [intros s [= <-]; contradiction|].
      split; [intros _; now apply searchParams_get_set_ne|].
      intros k Hk _. apply searchParams_get_set_ne. congruence.
    + split.
      { change (default "" (Some s)) with s. intros Hascii.
        apply URL_toString_parse. now apply searchParams_set_valid. }
      subst with_code.
      rewrite !searchParams_set_protocol, !searchParams_set_username,
        !searchParams_set_password, !searchParams_set_hostname, !searchParams_set_port,
        !searchParams_set_pathname, !searchParams_set_hash.
      rewrite searchParams_get_set_ne, !searchParams_get_set by discriminate.
      split; [repeat split|]. split; [reflexivity|].
      split; [now intros s' [= <-] _|].
      split; [intros Hf; rewrite (Ht s Hsne) in Hf; discriminate|].
      intros k Hk Hk'. rewrite !searchParams_get_set_ne by congruence. reflexivity.
  - split; [intros _; now apply URL_toString_parse|].
    subst with_code.
    rewrite searchParams_set_protocol, searchParams_set_username,
      searchParams_set_password, searchParams_set_hostname, searchParams_set_port,
      searchParams_set_pathname, searchParams_set_hash, searchParams_get_set.
    split; [repeat split|]. split; [reflexivity|].
    split; [intros s [=]|].
    split; [intros _; now apply searchParams_get_set_ne|].
    intros k Hk _. apply searchParams_get_set_ne. congruence.
Qed.

Lemma handleAuthorize_success_witness :
  fst (handleAuthorize (demo_authorize "http://localhost:9999/cb" (Some "xyz"))
         (fresh_server 1000 3))
    = redirect 302
        "http://localhost:9999/cb?code=AwoRGB8mLTQ7QklQV15lbHN6gYiPlp2kq7K5wMfO1dzj6vH4&state=xyz"
  /\ authorizationCodes
       (snd (handleAuthorize (demo_authorize "http://localhost:9999/cb" (Some "xyz"))
               (fresh_server 1000 3)))
     = {[ "AwoRGB8mLTQ7QklQV15lbHN6gYiPlp2kq7K5wMfO1dzj6vH4" :=
            AuthorizationCode.Make "AwoRGB8mLTQ7QklQV15lbHN6gYiPlp2kq7K5wMfO1dzj6vH4"
              "never-registered" "http://localhost:9999/cb" rfc_challenge "S256"
              601000 false ]}
  /\ option_map URL_pathname
       (new_URL
          "http://localhost:9999/cb?code=AwoRGB8mLTQ7QklQV15lbHN6gYiPlp2kq7K5wMfO1dzj6vH4&state=xyz")
     = Some "/cb".
Proof.
  destruct (@new_URL simpleUrlApi "http://localhost:9999/cb") as [url|] eqn:Hurl;
    [|vm_compute in Hurl; discriminate].
  destruct (@handleAuthorize_success simpleUrlApi simpleUrlRecord
              (demo_authorize "http://localhost:9999/cb" (Some "xyz"))
              (fresh_server 1000 3) "never-registered" "http://localhost:9999/cb"
              rfc_challenge url)
    as (H1 & _ & _ & _ & _ & _ & H2 & H3 & (_ & _ & _ & _ & _ & H4 & _) & _);
    try reflexivity; try discriminate.
  - exact Hurl.
  - assert (Hloc : fst (handleAuthorize (demo_authorize "http://localhost:9999/cb" (Some "xyz"))
                          (fresh_server 1000 3))
                   = redirect 302
                       "http://localhost:9999/cb?code=AwoRGB8mLTQ7QklQV15lbHN6gYiPlp2kq7K5wMfO1dzj6vH4&state=xyz")
      by (vm_compute; reflexivity).
    split; [exact Hloc|]. split; [rewrite H1; vm_compute; reflexivity|].
    rewrite H2 in Hloc. injection Hloc as Hloc.
    rewrite <- Hloc. etransitivity; [apply f_equal; exact (H3 eq_refl)|].
    cbn [option_map]. etransitivity; [apply f_equal; exact H4|].
    vm_compute in Hurl. injection Hurl as <-. reflexivity.
Defined.

(** Two requests with every required field present that do not end as the
    claim says: an empty [state] is supplied but not echoed, and a
    [redirect_uri] that is not a URL has its code stored while the handler
    ends with the [TypeError] of [new URL]. *)
Lemma authorize_present_fields_do_not_suffice :
  AuthorizeReq.state (demo_authorize "http://localhost:9999/cb" (Some "")) = Some ""
  /\ fst (handleAuthorize (demo_authorize "http://localhost:9999/cb" (Some ""))
            (fresh_server 1000 3))
     = redirect 302
         "http://localhost:9999/cb?code=AwoRGB8mLTQ7QklQV15lbHN6gYiPlp2kq7K5wMfO1dzj6vH4"
  /\ AuthorizeReq.redirect_uri (demo_authorize "not-a-url" None) = Some "not-a-url"
  /\ fst (handleAuthorize (demo_authorize "not-a-url" None) (fresh_server 1000 3))
     = uncaught_TypeError
  /\ size (authorizationCodes
             (snd (handleAuthorize (demo_authorize "not-a-url" None) (fresh_server 1000 3))))
     = 1%nat.
Proof. repeat split; vm_compute; reflexivity. Qed.

(** ** The client registry is never consulted *)

Lemma handleToken_registry (req : TokenReq.t) (w : Server)
    (registry : gmap string RegisteredClient.t) :
  handleToken req (set_registeredClients registry w)
  = (fst (handleToken req w), set_registeredClients registry (snd (handleToken req w))).
Proof.
  rewrite !handleToken_eq.
  change (authorizationCodes (set_registeredClients registry w)) with (authorizationCodes w).
  change (clock (set_registeredClients registry w)) with (clock w).
  destruct (negb (strict_eq (TokenReq.grant_type req) "authorization_code")); [reflexivity|].
  destruct (negb (truthy (TokenReq.code req))); [reflexivity|].
  cbv zeta.
  destruct (authorizationCodes w !! default "" (TokenReq.code req)) as [authCode|];
    [|reflexivity].
  destruct (clock w 0 >? AuthorizationCode.expiresAt authCode); [reflexivity|].
  destruct (AuthorizationCode.used authCode); [reflexivity|].
  destruct (truthy (TokenReq.client_id req) && _); [reflexivity|].
  destruct (truthy (TokenReq.redirect_uri req) && _); [reflexivity|].
  destruct (negb (truthy (TokenReq.code_verifier req))); [reflexivity|].
  destruct (negb (verifyCodeChallenge _ _ _)); reflexivity.
Qed.

Lemma handleAuthorize_registry `{UrlApi} (req : AuthorizeReq.t) (w : Server)
    (registry : gmap string RegisteredClient.t) :
  handleAuthorize req (set_registeredClients registry w)
  = (fst (handleAuthorize req w),
     set_registeredClients registry (snd (handleAuthorize req w))).
Proof.
  rewrite !handleAuthorize_eq.
  destruct (negb (truthy (AuthorizeReq.client_id req))); [reflexivity|].
  destruct (negb (strict_eq (AuthorizeReq.response_type req) "code")); [reflexivity|].
  destruct (negb (truthy (AuthorizeReq.redirect_uri req))); [reflexivity|].
  destruct (negb (truthy (AuthorizeReq.code_challenge req))); [reflexivity|].
  cbv zeta.
  destruct (new_URL (default "" (AuthorizeReq.redirect_uri req))); reflexivity.
Qed.

(** C10. Replacing the client registry by any other one changes neither
    the response of [handleAuthorize] or [handleToken] nor anything else in
    the resulting state; so two states that differ only in their registry
    get the same responses.  With an empty registry, a [client_id] and a
    [redirect_uri] that nobody registered obtain a 302 redirect carrying a
    fresh code, and that code is then exchanged for an access token. *)
Theorem registry_noninterference `{UrlApi} :
  (forall (req : AuthorizeReq.t) (w : Server) (registry : gmap string RegisteredClient.t),
     fst (handleAuthorize req (set_registeredClients registry w))
       = fst (handleAuthorize req w)
     /\ snd (handleAuthorize req (set_registeredClients registry w))
        = set_registeredClients registry (snd (handleAuthorize req w)))
  /\ (forall (req : TokenReq.t) (w : Server) (registry : gmap string RegisteredClient.t),
        fst (handleToken req (set_registeredClients registry w))
          = fst (handleToken req w)
        /\ snd (handleToken req (set_registeredClients registry w))
           = set_registeredClients registry (snd (handleToken req w)))
  /\ (let w := fresh_server 1000 3 in
      let authorized :=
        @handleAuthorize simpleUrlApi
          (demo_authorize "https://attacker.example/cb" None) w in
      registeredClients w = ∅
      /\ fst authorized
         = redirect 302 ("https://attacker.example/cb?code=" ++ minted_code w)
      /\ registeredClients (snd authorized) = ∅
      /\ is_token (fst (handleToken (demo_redeem (minted_code w)) (snd authorized))) = true).
Proof.
  split; [|split].
  - intros req w registry. now rewrite handleAuthorize_registry.
  - intros req w registry. now rewrite handleToken_registry.
  - repeat split; vm_compute; reflexivity.
Qed.

Lemma validateAccessToken_lazy_eviction_witness :
  (fst (validateAccessToken (Some "Bearer tok") (token_server 6000)) = false
   /\ accessTokens (snd (validateAccessToken (Some "Bearer tok") (token_server 6000)))
        !! "tok" = None)
  /\ fst (replicateM 3 (validateAccessToken (Some "Bearer tok")) (token_server 1000))
     = [true; true; true].
Proof.
  split.
  - destruct (validateAccessToken_lazy_eviction (Some "Bearer tok") (token_server 6000))
      as (_ & Hexpired & _).
    destruct (Hexpired "Bearer tok" "tok" demo_token) as (H1 & _ & H3);
      try reflexivity.
    split; [exact H1 | exact H3].
  - destruct (validateAccessToken_lazy_eviction (Some "Bearer tok") (token_server 1000))
      as (_ & _ & _ & Hrepeat).
    apply (Hrepeat "Bearer tok" "tok" demo_token 3%nat); try reflexivity.
    intros i Hi. cbn. lia.
Defined.

Example validation_order_run :
  let ac := Some "authorization_code" in
  map (fun req => (first_failure falsy (TokenBody.of_req req) busy_server,
                   fst (handleToken req busy_server)))
    [ exchange (Some "refresh_token") None None None None;
      exchange ac None (Some "http://evil/") (Some "other") None;
      exchange ac (Some "nope") None None None;
      exchange ac (Some "stale") None (Some "other") None;
      exchange ac (Some "spent") None (Some "other") None;
      exchange ac (Some "c0de") (Some "http://evil/") (Some "other") None;
      exchange ac (Some "c0de") (Some "http://evil/") (Some "client-1") None;
      exchange ac (Some "c0de") None None None;
      exchange ac (Some "c0de") None None (Some "wrong") ]
  = [ (Some GrantType,
       json_error 400 "unsupported_grant_type" "Only authorization_code grant is supported");
      (Some CodeMissing, json_error 400 "invalid_request" "Missing authorization code");
      (Some CodeUnknown, json_error 400 "invalid_grant" "Invalid authorization code");
      (Some Expired, json_error 400 "invalid_grant" "Authorization code has expired");
      (Some Used, json_error 400 "invalid_grant" "Authorization code has already been used");
      (Some ClientMismatch, json_error 400 "invalid_grant" "Client ID mismatch");
      (Some RedirectMismatch, json_error 400 "invalid_grant" "Redirect URI mismatch");
      (Some VerifierMissing,
       json_error 400 "invalid_request" "Missing code_verifier (PKCE required)");
      (Some PkceMismatch, json_error 400 "invalid_grant" "Invalid code_verifier") ].
Proof. vm_compute. reflexivity. Qed.

(** ** Reachable states *)

Lemma sweep_from_lookup {A} (expiresAt : A -> Z) (now : Z)
    (m acc : gmap string A) (k : string) :
  map_fold (fun key data acc => if now >? expiresAt data then delete key acc else acc)
    acc m !! k
  = match m !! k with
    | Some data => if now >? expiresAt data then None else acc !! k
    | None => acc !! k
    end.
Proof.
  apply (map_fold_weak_ind (fun (b : gmap string A) (m' : gmap string A) =>
    b !! k = match m' !! k with
             | Some data => if now >? expiresAt data then None else acc !! k
             | None => acc !! k
             end)).
  - now rewrite lookup_empty.
  - intros i x m' r Hi IH.
    destruct (decide (i = k)) as [->|Hne].
    + rewrite lookup_insert_eq. rewrite Hi in IH.
      destruct (now >? expiresAt x); [apply lookup_delete_eq | exact IH].
    + rewrite lookup_insert_ne by assumption.
      destruct (now >? expiresAt x); [|exact IH].
      now rewrite lookup_delete_ne.
Qed.

Lemma sweep_lookup {A} (expiresAt : A -> Z) (now : Z) (m : gmap string A)
    (k : string) (data : A) :
  sweep expiresAt now m !! k = Some data <-> m !! k = Some data /\ now <= expiresAt data.
Proof.
  unfold sweep. rewrite sweep_from_lookup.
  destruct (m !! k) as [d|] eqn:Hk; [|split; [discriminate | intros [? _]; discriminate]].
  destruct (Z.gtb_spec now (expiresAt d)).
  - split; [discriminate | intros [[= ->] ?]; lia].
  - split; [intros [= ->]; split; [reflexivity | lia] | now intros [? _]].
Qed.

Lemma handleRegister_codes `{UrlApi} (req : RegisterReq.t) (w : Server) :
  authorizationCodes (snd (handleRegister req w)) = authorizationCodes w.
Proof.
  unfold handleRegister.
  destruct (RegisterReq.redirect_uris req) as [[|u rest]|]; try reflexivity.
  destruct (validateRedirectUris (u :: rest)); reflexivity.
Qed.

Lemma validateAccessToken_codes (authHeader : option string) (w : Server) :
  authorizationCodes (snd (validateAccessToken authHeader w)) = authorizationCodes w.
Proof.
  rewrite validateAccessToken_eq.
  destruct authHeader as [h|]; [|reflexivity].
  destruct (split " " h) as [|p0 [|token [|x l]]]; try reflexivity.
  destruct (p0 =? "Bearer")%string; [|reflexivity].
  destruct (accessTokens w !! token) as [td|]; [|reflexivity].
  destruct (clock w 0 >? AccessToken.expiresAt td); reflexivity.
Qed.

Lemma handleToken_codes (req : TokenReq.t) (w : Server) :
  authorizationCodes (snd (handleToken req w)) = authorizationCodes w
  \/ authorizationCodes (snd (handleToken req w))
     = delete (default "" (TokenReq.code req)) (authorizationCodes w).
Proof.
  rewrite handleToken_eq.
  destruct (negb (strict_eq (TokenReq.grant_type req) "authorization_code")); [now left|].
  destruct (negb (truthy (TokenReq.code req))); [now left|].
  cbv zeta.
  destruct (authorizationCodes w !! default "" (TokenReq.code req)) as [authCode|];
    [|now left].
  destruct (clock w 0 >? AuthorizationCode.expiresAt authCode); [now right|].
  destruct (AuthorizationCode.used authCode); [now right|].
  destruct (truthy (TokenReq.client_id req) && _); [now left|].
  destruct (truthy (TokenReq.redirect_uri req) && _); [now left|].
  destruct (negb (truthy (TokenReq.code_verifier req))); [now left|].
  destruct (negb (verifyCodeChallenge _ _ _)); [now left|].
  right. cbn [snd]. apply issued_codes.
Qed.

Lemma handleAuthorize_codes `{UrlApi} (req : AuthorizeReq.t) (w : Server) :
  authorizationCodes (snd (handleAuthorize req w)) = authorizationCodes w
  \/ exists c a, AuthorizationCode.used a = false /\
       authorizationCodes (snd (handleAuthorize req w)) = <[c := a]> (authorizationCodes w).
Proof.
  rewrite handleAuthorize_eq.
  destruct (negb (truthy (AuthorizeReq.client_id req))); [now left|].
  destruct (negb (strict_eq (AuthorizeReq.response_type req) "code")); [now left|].
  destruct (negb (truthy (AuthorizeReq.redirect_uri req))); [now left|].
  destruct (negb (truthy (AuthorizeReq.code_challenge req))); [now left|].
  cbv zeta. right.
  destruct (new_URL (default "" (AuthorizeReq.redirect_uri req)));
    eexists _, _; (split; [|reflexivity]); reflexivity.
Qed.

(** Every transition keeps the stored codes unused: the [used] flag is set
    only on the way to deleting the entry, within one handler call. *)
Lemma step_codes_unused `{UrlApi} (w w' : Server) :
  step w w' -> codes_unused w -> codes_unused w'.
Proof.
  unfold codes_unused. intros Hstep Hinv c a.
  destruct Hstep as [req w|req w|req w|h w|w].
  - rewrite handleRegister_codes. apply Hinv.
  - destruct (handleAuthorize_codes req w) as [->|(c' & a' & Hun & ->)]; [apply Hinv|].
    destruct (decide (c' = c)) as [->|Hne].
    + rewrite lookup_insert_eq. now intros [= <-].
    + rewrite lookup_insert_ne by assumption. apply Hinv.
  - destruct (handleToken_codes req w) as [->| ->]; [apply Hinv|].
    intros Hl. apply lookup_delete_Some in Hl as [_ Hl]. eapply Hinv, Hl.
  - rewrite validateAccessToken_codes. apply Hinv.
  - unfold cleanupExpired. run. intros Hl.
    apply sweep_lookup in Hl as [Hl _]. eapply Hinv, Hl.
Qed.

Lemma reachable_codes_unused `{UrlApi} (w w' : Server) :
  rtc step w w' -> codes_unused w -> codes_unused w'.
Proof. induction 1; eauto using step_codes_unused. Qed.

(** X9. From a state in which no stored code is marked used, no sequence of
    calls is ever answered "Authorization code has already been used". *)
Lemma already_used_unreachable `{UrlApi} (w w' : Server) (req : TokenReq.t) :
  rtc step w w' -> codes_unused w ->
  fst (handleToken req w') <> already_used.
Proof.
  intros Hreach Hinv. pose proof (reachable_codes_unused _ _ Hreach Hinv) as Hinv'.
  rewrite handleToken_eq. unfold already_used.
  destruct (negb (strict_eq (TokenReq.grant_type req) "authorization_code"));
    [discriminate|].
  destruct (negb (truthy (TokenReq.code req))); [discriminate|].
  cbv zeta.
  destruct (authorizationCodes w' !! default "" (TokenReq.code req)) as [a|] eqn:Ha;
    [|discriminate].
  rewrite (Hinv' _ _ Ha).
  destruct (clock w' 0 >? AuthorizationCode.expiresAt a); [discriminate|].
  destruct (truthy (TokenReq.client_id req) && _); [discriminate|].
  destruct (truthy (TokenReq.redirect_uri req) && _); [discriminate|].
  destruct (negb (truthy (TokenReq.code_verifier req))); [discriminate|].
  destruct (negb (verifyCodeChallenge _ _ _)); discriminate.
Qed.

(** * Further properties of the authorization server

    ** Generated identifiers *)

(** X1. [generateRandomString(n)] returns exactly [n] characters, all of
    them letters, digits, [-] or [_]: client ids have 32 characters,
    secrets and authorization codes 48, access tokens 64, and none of them
    needs escaping in a URL or contains a space. *)
Theorem generateRandomString_shape (n : nat) (w : Server) :
  String.length (fst (generateRandomString n w)) = n
  /\ url_safe (fst (generateRandomString n w)).
Proof.
  unfold generateRandomString, bind, ret, randomBytes. cbn [fst].
  set (bytes := map _ (seq 0 n)).
  destruct (base64url_shape bytes) as [[Hs Hl] _].
  destruct (substring_prefix_shape n (Node.base64url bytes)) as [Hlen Hsafe].
  unfold Node.slice0. split; [|auto].
  rewrite Hlen. subst bytes. rewrite length_map, length_seq in Hl. lia.
Qed.

(** ** The periodic sweep *)

Lemma tick_authorizationCodes (w : Server) :
  authorizationCodes (tick w) = authorizationCodes w.
Proof. reflexivity. Qed.

Lemma tick_accessTokens (w : Server) : accessTokens (tick w) = accessTokens w.
Proof. reflexivity. Qed.

Lemma tick_clock (w : Server) (n : nat) : clock (tick w) n = clock w (S n).
Proof. reflexivity. Qed.

Lemma cleanupExpired_eq (w : Server) :
  snd (cleanupExpired w)
  = mkServer (sweep AuthorizationCode.expiresAt (clock w 0) (authorizationCodes w))
      (registeredClients w)
      (sweep AccessToken.expiresAt (clock w 0) (accessTokens w))
      (clock (tick w)) (entropy w).
Proof. reflexivity. Qed.

(** X2. [cleanupExpired] reads the clock once; afterwards the code map and
    the token map hold exactly the entries they held before with
    [now <= expiresAt], unchanged, and the client registry is what it
    was. *)
Theorem cleanupExpired_keeps_unexpired (w : Server) :
  (forall c a,
     authorizationCodes (snd (cleanupExpired w)) !! c = Some a <->
     authorizationCodes w !! c = Some a /\ clock w 0 <= AuthorizationCode.expiresAt a)
  /\ (forall t d,
        accessTokens (snd (cleanupExpired w)) !! t = Some d <->
        accessTokens w !! t = Some d /\ clock w 0 <= AccessToken.expiresAt d)
  /\ registeredClients (snd (cleanupExpired w)) = registeredClients w.
Proof.
  rewrite cleanupExpired_eq. cbn [authorizationCodes accessTokens registeredClients].
  split; [|split].
  - intros c a. apply sweep_lookup.
  - intros t d. apply sweep_lookup.
  - reflexivity.
Qed.

Lemma sweep_lookup_cases {A} (expiresAt : A -> Z) (now : Z) (m : gmap string A)
    (k : string) :
  sweep expiresAt now m !! k
  = match m !! k with
    | Some data => if now >? expiresAt data then None else Some data
    | None => None
    end.
Proof.
  unfold sweep. rewrite sweep_from_lookup.
  destruct (m !! k) as [d|] eqn:Hk; [|reflexivity].
  now destruct (now >? expiresAt d).
Qed.

(** X3. The sweep does not change what [validateAccessToken] answers: on
    a clock that does not run backwards between the sweep and the check,
    a header is accepted after a sweep exactly when it would have been
    accepted, at the same instant, without it. *)
Theorem cleanupExpired_invisible_to_validation (authHeader : option string) (w : Server) :
  clock w 0 <= clock w 1 ->
  fst (validateAccessToken authHeader (snd (cleanupExpired w)))
  = fst (validateAccessToken authHeader (tick w)).
Proof.
  intros Hmono. rewrite !validateAccessToken_eq, cleanupExpired_eq.
  cbn [accessTokens clock]. rewrite !tick_accessTokens, !tick_clock.
  destruct authHeader as [h|]; [|reflexivity].
  destruct (split " " h) as [|p0 [|token [|x l]]]; try reflexivity.
  destruct (p0 =? "Bearer")%string; [|reflexivity].
  rewrite sweep_lookup_cases.
  destruct (accessTokens w !! token) as [d|]; [|reflexivity].
  destruct (Z.gtb_spec (clock w 0) (AccessToken.expiresAt d)).
  - destruct (Z.gtb_spec (clock w 1) (AccessToken.expiresAt d)); [reflexivity | lia].
  - destruct (clock w 1 >? AccessToken.expiresAt d); reflexivity.
Qed.

Lemma cleanupExpired_invisible_to_validation_witness :
  fst (validateAccessToken (Some "Bearer tok") (snd (cleanupExpired (token_server 4999))))
  = true
  /\ fst (validateAccessToken (Some "Bearer tok") (snd (cleanupExpired (token_server 5000))))
     = false.
Proof.
  split.
  - rewrite (cleanupExpired_invisible_to_validation (Some "Bearer tok") (token_server 4999)).
    + reflexivity.
    + cbn. lia.
  - rewrite (cleanupExpired_invisible_to_validation (Some "Bearer tok") (token_server 5000)).
    + reflexivity.
    + cbn. lia.
Defined.

(** X4. The sweep does not change what [handleToken] grants: on a clock
    that does not run backwards, the response after a sweep is the
    response that would have been given without it, except that a code
    already expired at the sweep is then reported as "Invalid authorization
    code" instead of "Authorization code has expired". *)
Theorem cleanupExpired_invisible_to_exchange (req : TokenReq.t) (w : Server) :
  clock w 0 <= clock w 1 ->
  fst (handleToken req (snd (cleanupExpired w))) = fst (handleToken req (tick w))
  \/ (fst (handleToken req (snd (cleanupExpired w))) = unknown_code
      /\ fst (handleToken req (tick w)) = expired_code).
Proof.
  intros Hmono. rewrite !handleToken_eq, cleanupExpired_eq.
  cbn [authorizationCodes clock]. rewrite !tick_authorizationCodes, !tick_clock.
  destruct (negb (strict_eq (TokenReq.grant_type req) "authorization_code")); [now left|].
  destruct (negb (truthy (TokenReq.code req))); [now left|].
  cbv zeta. rewrite sweep_lookup_cases.
  destruct (authorizationCodes w !! default "" (TokenReq.code req)) as [a|]; [|now left].
  destruct (Z.gtb_spec (clock w 0) (AuthorizationCode.expiresAt a)).
  - right. destruct (Z.gtb_spec (clock w 1) (AuthorizationCode.expiresAt a)); [|lia].
    split; reflexivity.
  - left.
    destruct (clock w 1 >? AuthorizationCode.expiresAt a); [reflexivity|].
    destruct (AuthorizationCode.used a); [reflexivity|].
    destruct (truthy (TokenReq.client_id req) && _); [reflexivity|].
    destruct (truthy (TokenReq.redirect_uri req) && _); [reflexivity|].
    destruct (negb (truthy (TokenReq.code_verifier req))); [reflexivity|].
    destruct (negb (verifyCodeChallenge _ _ _)); reflexivity.
Qed.

Lemma cleanupExpired_invisible_to_exchange_witness :
  fst (handleToken (exchange (Some "authorization_code") (Some "stale") None None
                      (Some rfc_verifier))
         (snd (cleanupExpired busy_server)))
    = unknown_code
  /\ is_token (fst (handleToken demo_exchange (snd (cleanupExpired busy_server)))) = true.
Proof.
  split.
  - destruct (cleanupExpired_invisible_to_exchange
                (exchange (Some "authorization_code") (Some "stale") None None
                   (Some rfc_verifier)) busy_server) as [Heq | [Heq _]].
    + cbn. lia.
    + exfalso. revert Heq. vm_compute. discriminate.
    + exact Heq.
  - destruct (cleanupExpired_invisible_to_exchange demo_exchange busy_server)
      as [Heq | [Heq _]].
    + cbn. lia.
    + rewrite Heq. vm_compute. reflexivity.
    + exfalso. revert Heq. vm_compute. discriminate.
Defined.

(** ** From authorization to a protected call *)

Lemma generateRandomString_nonempty (n : nat) (w : Server) :
  n <> O -> fst (generateRandomString n w) <> "".
Proof.
  intros Hn Heq.
  assert (Hlen : String.length (fst (generateRandomString n w)) = n).
  { unfold generateRandomString, bind, ret, randomBytes. cbn [fst].
    set (bytes := map _ (seq 0 n)).
    destruct (base64url_shape bytes) as [[_ Hl] _].
    destruct (substring_prefix_shape n (Node.base64url bytes)) as [Hlen _].
    unfold Node.slice0. rewrite Hlen. subst bytes.
    rewrite length_map, length_seq in Hl. lia. }
  rewrite Heq in Hlen. cbn in Hlen. congruence.
Qed.

Lemma or_default_nonempty (v : option string) (d : string) :
  d <> "" -> or_default v d <> "".
Proof.
  intros Hd. unfold or_default. destruct v as [s|]; [|exact Hd].
  destruct (String.eqb_spec s ""); assumption.
Qed.

Lemma truthy_Some_nonempty (s : string) : s <> "" -> truthy (Some s) = true.
Proof. intros Hs. simpl. now destruct (String.eqb_spec s ""). Qed.

(** The state left by an authorization that passed the four checks,
    whether or not its redirect URI then parsed. *)
Lemma handleAuthorize_stores `{UrlApi} (req : AuthorizeReq.t) (w : Server)
    (client_id redirect_uri code_challenge : string) :
  AuthorizeReq.client_id req = Some client_id -> client_id <> "" ->
  AuthorizeReq.response_type req = Some "code" ->
  AuthorizeReq.redirect_uri req = Some redirect_uri -> redirect_uri <> "" ->
  AuthorizeReq.code_challenge req = Some code_challenge -> code_challenge <> "" ->
  snd (handleAuthorize req w)
  = set_authorizationCodes
      (<[minted_code w :=
           AuthorizationCode.Make (minted_code w) client_id redirect_uri code_challenge
             (or_default (AuthorizeReq.code_challenge_method req) "plain")
             (clock w 0 + CODE_EXPIRY_SECONDS * 1000) false]> (authorizationCodes w))
      (tick (snd (generateRandomString 48 w))).
Proof.
  intros Hc Hcne Hr Hu Hune Hch Hchne.
  rewrite handleAuthorize_eq, Hc, Hr, Hu, Hch, !truthy_Some_nonempty by assumption.
  change (strict_eq (Some "code") "code") with true.
  change (default "" (Some client_id)) with client_id.
  change (default "" (Some redirect_uri)) with redirect_uri.
  change (default "" (Some code_challenge)) with code_challenge.
  cbn [negb]. cbv zeta.
  destruct (new_URL redirect_uri); reflexivity.
Qed.

(** X5. The code stored by an authorization that passed the four checks
    can be redeemed: an exchange made before the clock passes the code's
    expiry, with that code, a non-empty verifier matching the challenge
    under the declared method (["plain"] when none was declared) and no
    conflicting [client_id] or [redirect_uri], returns a Bearer token with
    [expires_in] 3600, stores it under the [client_id] given at
    authorization with an expiry 3 600 000 ms after the clock reading made
    at issue, and removes the code.  This holds whether or not the
    redirect URI of the authorization parsed. *)
Theorem authorize_then_exchange `{UrlApi} (areq : AuthorizeReq.t) (treq : TokenReq.t)
    (w : Server) (client_id redirect_uri code_challenge verifier : string) :
  AuthorizeReq.client_id areq = Some client_id -> client_id <> "" ->
  AuthorizeReq.response_type areq = Some "code" ->
  AuthorizeReq.redirect_uri areq = Some redirect_uri -> redirect_uri <> "" ->
  AuthorizeReq.code_challenge areq = Some code_challenge -> code_challenge <> "" ->
  verifier <> "" ->
  verifyCodeChallenge verifier code_challenge
    (or_default (AuthorizeReq.code_challenge_method areq) "plain") = true ->
  TokenReq.grant_type treq = Some "authorization_code" ->
  TokenReq.code treq = Some (minted_code w) ->
  TokenReq.code_verifier treq = Some verifier ->
  optional_match (TokenReq.client_id treq) client_id ->
  optional_match (TokenReq.redirect_uri treq) redirect_uri ->
  clock w 1 <= clock w 0 + CODE_EXPIRY_SECONDS * 1000 ->
  let w1 := snd (handleAuthorize areq w) in
  exists tok,
    fst (handleToken treq w1) = json_token tok "Bearer" TOKEN_EXPIRY_SECONDS
    /\ accessTokens (snd (handleToken treq w1)) !! tok
       = Some (AccessToken.Make tok client_id (clock w 2 + TOKEN_EXPIRY_SECONDS * 1000))
    /\ authorizationCodes (snd (handleToken treq w1)) !! minted_code w = None.
Proof.
  intros Hc Hcne Hr Hu Hune Hch Hchne Hv Hpkce Hg Hcode Hcv Hcl Hre Hclock w1.
  subst w1. rewrite (handleAuthorize_stores areq w _ _ _ Hc Hcne Hr Hu Hune Hch Hchne).
  set (a := AuthorizationCode.Make _ _ _ _ _ _ _).
  set (w1 := set_authorizationCodes _ _).
  assert (Hable : redeemable (minted_code w) a w1).
  { constructor.
    - apply generateRandomString_nonempty. discriminate.
    - subst w1. unfold set_authorizationCodes. cbn [authorizationCodes].
      apply lookup_insert_eq.
    - exact Hclock.
    - reflexivity. }
  assert (Hreq : redeems treq (minted_code w) a).
  { constructor; try assumption.
    - rewrite Hcv. now apply truthy_Some_nonempty.
    - rewrite Hcv. exact Hpkce. }
  rewrite (handleToken_success _ _ _ _ Hable Hreq). cbn [fst snd].
  exists (issued_token w1). split; [reflexivity|]. split.
  - rewrite issued_tokens. rewrite lookup_insert_eq. reflexivity.
  - rewrite issued_codes. apply lookup_delete_eq.
Qed.

Lemma authorize_then_exchange_witness :
  exists tok,
    fst (handleToken
           (TokenReq.Make (Some "authorization_code")
              (Some (minted_code (fresh_server 1000 3))) None None (Some rfc_verifier))
           (snd (handleAuthorize s256_authorize (fresh_server 1000 3))))
    = json_token tok "Bearer" TOKEN_EXPIRY_SECONDS.
Proof.
  destruct (@authorize_then_exchange simpleUrlApi s256_authorize
              (TokenReq.Make (Some "authorization_code")
                 (Some (minted_code (fresh_server 1000 3))) None None (Some rfc_verifier))
              (fresh_server 1000 3) "never-registered" "http://localhost:9999/cb"
              rfc_challenge rfc_verifier)
    as (tok & Htok & _).
  - reflexivity.
  - discriminate.
  - reflexivity.
  - reflexivity.
  - discriminate.
  - reflexivity.
  - discriminate.
  - discriminate.
  - vm_compute. reflexivity.
  - reflexivity.
  - reflexivity.
  - reflexivity.
  - left. reflexivity.
  - left. reflexivity.
  - vm_compute. discriminate.
  - exists tok. exact Htok.
Defined.

Lemma split_no_sep (sep : ascii) (s : string) :
  ~ In sep (list_ascii_of_string s) -> split sep s = [s].
Proof.
  induction s as [|c s IH]; intros Hno; [reflexivity|].
  cbn [split]. cbn [list_ascii_of_string In] in Hno.
  destruct (Ascii.eqb_spec c sep) as [->|_]; [tauto|].
  rewrite IH by tauto. reflexivity.
Qed.

Lemma url_safe_check (s : string) :
  forallb (fun c => existsb (Ascii.eqb c) (list_ascii_of_string Node.alphabet))
    (list_ascii_of_string s) = true ->
  url_safe s.
Proof.
  unfold url_safe. rewrite forallb_forall, Forall_forall.
  intros Hall c Hc. apply list_elem_of_In, Hall, existsb_exists in Hc.
  destruct Hc as (c' & Hin & Heq). apply Ascii.eqb_eq in Heq. now subst.
Qed.

Lemma split_cons_sep (sep : ascii) (s : string) :
  split sep (String sep s) = EmptyString :: split sep s.
Proof. cbn [split]. now rewrite Ascii.eqb_refl. Qed.

Lemma split_cons_other (sep c : ascii) (s : string) :
  c <> sep ->
  split sep (String c s)
  = match split sep s with
    | [] => [String c EmptyString]
    | p :: ps => String c p :: ps
    end.
Proof. intros Hne. cbn [split]. now destruct (Ascii.eqb_spec c sep). Qed.

Lemma url_safe_no_space (s : string) :
  url_safe s -> ~ In " "%char (list_ascii_of_string s).
Proof.
  unfold url_safe. intros Hs Hin.
  rewrite Forall_forall in Hs. apply list_elem_of_In, Hs in Hin.
  revert Hin. vm_compute. intuition discriminate.
Qed.

Lemma split_bearer (tok : string) :
  url_safe tok -> split " " ("Bearer " ++ tok) = ["Bearer"; tok].
Proof.
  intros Hs.
  change ("Bearer " ++ tok)
    with (String "B" (String "e" (String "a" (String "r" (String "e"
            (String "r" (String " " tok))))))).
  rewrite !split_cons_other by discriminate.
  rewrite split_cons_sep, (split_no_sep " " tok (url_safe_no_space _ Hs)).
  reflexivity.
Qed.

Lemma requireAuth_eq (authorization : option string) (w : Server) :
  requireAuth authorization w
  = (if fst (validateAccessToken authorization w) then gate_next
     else gate_reject 401 ("Bearer realm=" ++ dquote ++ "mcp" ++ dquote) (-32001)
            "Unauthorized - valid Bearer token required",
     snd (validateAccessToken authorization w)).
Proof.
  unfold requireAuth, bind, ret.
  destruct (validateAccessToken authorization w) as [[|] w']; reflexivity.
Qed.

(** X6. Every stored access token written with the URL-safe alphabet (as
    all generated ones are) opens the gate in front of [/mcp]: with the
    header ["Bearer " ++ token], [requireAuth] calls [next()] and leaves
    the maps alone exactly while the clock has not passed the token's
    expiry; past it the answer is 401 with [WWW-Authenticate: Bearer
    realm=mcp] (realm quoted) and error code -32001, and the token is
    removed. *)
Theorem stored_token_passes_gate (tok : string) (d : AccessToken.t) (w : Server) :
  url_safe tok ->
  accessTokens w !! tok = Some d ->
  (clock w 0 <= AccessToken.expiresAt d ->
     requireAuth (Some ("Bearer " ++ tok)) w = (gate_next, tick w))
  /\ (clock w 0 > AccessToken.expiresAt d ->
        fst (requireAuth (Some ("Bearer " ++ tok)) w)
          = gate_reject 401 ("Bearer realm=" ++ dquote ++ "mcp" ++ dquote) (-32001)
              "Unauthorized - valid Bearer token required"
        /\ accessTokens (snd (requireAuth (Some ("Bearer " ++ tok)) w)) !! tok = None).
Proof.
  intros Hsafe Hst. rewrite requireAuth_eq, validateAccessToken_eq.
  rewrite (split_bearer tok Hsafe), String.eqb_refl, Hst.
  split; intros Hclock.
  - destruct (Z.gtb_spec (clock w 0) (AccessToken.expiresAt d)); [lia | reflexivity].
  - destruct (Z.gtb_spec (clock w 0) (AccessToken.expiresAt d)); [|lia].
    cbn [fst snd]. split; [reflexivity|].
    unfold set_accessTokens. cbn [accessTokens]. apply lookup_delete_eq.
Qed.

Lemma stored_token_passes_gate_witness :
  requireAuth (Some "Bearer tok") (token_server 1000) = (gate_next, tick (token_server 1000))
  /\ accessTokens (snd (requireAuth (Some "Bearer tok") (token_server 6000))) !! "tok" = None.
Proof.
  assert (Hsafe : url_safe "tok") by (apply url_safe_check; vm_compute; reflexivity).
  split.
  - destruct (stored_token_passes_gate "tok" demo_token (token_server 1000) Hsafe)
      as [Hpass _]; [reflexivity|].
    apply Hpass. vm_compute. discriminate.
  - destruct (stored_token_passes_gate "tok" demo_token (token_server 6000) Hsafe)
      as [_ Hlate]; [reflexivity|].
    apply Hlate. vm_compute. reflexivity.
Defined.

(** ** Failed attempts *)

Lemma handleToken_keeps_redeemable (req : TokenReq.t) (c : string)
    (a : AuthorizationCode.t) (w : Server) :
  redeemable c a w ->
  is_token (fst (handleToken req w)) = false ->
  authorizationCodes (snd (handleToken req w)) !! c = Some a
  /\ (clock (snd (handleToken req w)) = clock w
      \/ clock (snd (handleToken req w)) = clock (tick w)).
Proof.
  intros [Hne Hst Hexp Hun]. rewrite handleToken_eq.
  destruct (negb (strict_eq (TokenReq.grant_type req) "authorization_code")); [auto|].
  destruct (negb (truthy (TokenReq.code req))); [auto|].
  cbv zeta.
  destruct (authorizationCodes w !! default "" (TokenReq.code req)) as [a'|] eqn:Hst';
    [|auto].
  assert (Hother : default "" (TokenReq.code req) <> c ->
            delete (default "" (TokenReq.code req)) (authorizationCodes w) !! c = Some a)
    by (intros Hd; now rewrite lookup_delete_ne).
  assert (Hsame : default "" (TokenReq.code req) = c -> a' = a)
    by (intros Hd; rewrite Hd in Hst'; congruence).
  destruct (Z.gtb_spec (clock w 0) (AuthorizationCode.expiresAt a')).
  { intros _. cbn [snd]. unfold drop_code, set_authorizationCodes.
    cbn [authorizationCodes clock]. split; [|auto]. apply Hother.
    intros Hd. specialize (Hsame Hd). subst a'. lia. }
  destruct (AuthorizationCode.used a') eqn:Hun'.
  { intros _. cbn [snd]. unfold drop_code, set_authorizationCodes.
    cbn [authorizationCodes clock]. split; [|auto]. apply Hother.
    intros Hd. specialize (Hsame Hd). subst a'. congruence. }
  destruct (truthy (TokenReq.client_id req) && _); [auto|].
  destruct (truthy (TokenReq.redirect_uri req) && _); [auto|].
  destruct (negb (truthy (TokenReq.code_verifier req))); [auto|].
  destruct (negb (verifyCodeChallenge _ _ _)); [auto|].
  discriminate.
Qed.

(** X7. A failed exchange does not burn a code: while a stored code is
    unused and unexpired, any call of [handleToken] that returns no token
    (a wrong verifier, a mismatching client or redirect URI, a call for
    another code) leaves that code in place, and a correct exchange made
    next, before the expiry, still succeeds. *)
Theorem failed_exchange_keeps_code (bad good : TokenReq.t) (c : string)
    (a : AuthorizationCode.t) (w : Server) :
  redeemable c a w ->
  clock w 1 <= AuthorizationCode.expiresAt a ->
  is_token (fst (handleToken bad w)) = false ->
  redeems good c a ->
  authorizationCodes (snd (handleToken bad w)) !! c = Some a
  /\ is_token (fst (handleToken good (snd (handleToken bad w)))) = true.
Proof.
  intros Hable Hnext Hbad Hgood.
  destruct (handleToken_keeps_redeemable bad c a w Hable Hbad) as [Hst Hclock].
  split; [exact Hst|].
  assert (Hable' : redeemable c a (snd (handleToken bad w))).
  { destruct Hable as [Hne _ Hexp Hun]. constructor; try assumption.
    destruct Hclock as [-> | ->]; [exact Hexp | exact Hnext]. }
  now rewrite (handleToken_success _ _ _ _ Hable' Hgood).
Qed.

Lemma failed_exchange_keeps_code_witness :
  is_token
    (fst (handleToken demo_exchange
            (snd (handleToken
                    (exchange (Some "authorization_code") (Some "c0de") None None
                       (Some "guess"))
                    demo_server)))) = true.
Proof.
  apply (failed_exchange_keeps_code
           (exchange (Some "authorization_code") (Some "c0de") None None (Some "guess"))
           demo_exchange "c0de" demo_code demo_server).
  - constructor; first [discriminate | reflexivity | vm_compute; discriminate].
  - vm_compute. discriminate.
  - vm_compute. reflexivity.
  - constructor; first [left; reflexivity | vm_compute; reflexivity].
Defined.

(** ** The metadata document and what the endpoints accept *)

(** X8. What [handleMetadata] advertises is what the endpoints do,
    whatever the request headers: the three endpoint URLs are the issuer
    followed by [/authorize], [/token] and [/register]; the listed PKCE
    methods are exactly the methods under which some verifier can pass
    [verifyCodeChallenge]; the listed grant types are exactly those
    [handleToken] never answers with [unsupported_grant_type]; and the
    listed response types are exactly those [handleAuthorize] never
    answers, a [client_id] being given, with "Unsupported
    response_type". *)
Theorem metadata_matches_endpoints `{UrlApi} (mreq : MetadataReq.t) :
  let md := handleMetadata mreq in
  (authorization_endpoint md = issuer md ++ "/authorize"
   /\ token_endpoint md = issuer md ++ "/token"
   /\ registration_endpoint md = issuer md ++ "/register")
  /\ (forall method,
        In method (code_challenge_methods_supported md) <->
        exists verifier challenge, verifyCodeChallenge verifier challenge method = true)
  /\ (forall grant,
        In grant (grant_types_supported md) <->
        forall req w, TokenReq.grant_type req = Some grant ->
                      fst (handleToken req w) <> unsupported_grant_type)
  /\ (forall rtype,
        In rtype (response_types_supported md) <->
        forall req w, truthy (AuthorizeReq.client_id req) = true ->
                      AuthorizeReq.response_type req = Some rtype ->
                      fst (handleAuthorize req w) <> unsupported_response_type).
Proof.
  cbv zeta. cbn [handleMetadata authorization_endpoint token_endpoint registration_endpoint
                 issuer code_challenge_methods_supported grant_types_supported
                 response_types_supported In].
  split; [auto|]. split; [|split].
  - intros method. split.
    + intros [<- | [<- | []]].
      * exists "", (Node.sha256_base64url "").
        apply verifyCodeChallenge_exact_S256_refl.
      * exists "v", "v". reflexivity.
    + intros (v & c & Hv). unfold verifyCodeChallenge in Hv.
      destruct (String.eqb_spec method "S256"); [auto|].
      destruct (String.eqb_spec method "plain"); [auto | discriminate].
  - intros grant. split.
    + intros [<- | []] req w Hg. rewrite handleToken_eq, Hg. unfold unsupported_grant_type.
      change (negb (strict_eq (Some "authorization_code") "authorization_code")) with false.
      cbv iota.
      destruct (negb (truthy (TokenReq.code req))); [discriminate|].
      cbv zeta.
      destruct (authorizationCodes w !! default "" (TokenReq.code req)) as [a|];
        [|discriminate].
      destruct (clock w 0 >? AuthorizationCode.expiresAt a); [discriminate|].
      destruct (AuthorizationCode.used a); [discriminate|].
      destruct (truthy (TokenReq.client_id req) && _); [discriminate|].
      destruct (truthy (TokenReq.redirect_uri req) && _); [discriminate|].
      destruct (negb (truthy (TokenReq.code_verifier req))); [discriminate|].
      destruct (negb (verifyCodeChallenge _ _ _)); discriminate.
    + intros Hnever. destruct (String.eqb_spec grant "authorization_code") as [->|Hne];
        [auto|].
      exfalso.
      apply (Hnever (TokenReq.Make (Some grant) None None None None) (fresh_server 0 0));
        [reflexivity|].
      rewrite handleToken_eq. cbn [TokenReq.grant_type strict_eq].
      now destruct (String.eqb_spec grant "authorization_code").
  - intros rtype. split.
    + intros [<- | []] req w Hc Hr. rewrite handleAuthorize_eq, Hc, Hr.
      unfold unsupported_response_type.
      change (negb (strict_eq (Some "code") "code")) with false. cbn [negb].
      destruct (negb (truthy (AuthorizeReq.redirect_uri req))); [discriminate|].
      destruct (negb (truthy (AuthorizeReq.code_challenge req))); [discriminate|].
      cbv zeta.
      destruct (new_URL (default "" (AuthorizeReq.redirect_uri req))); discriminate.
    + intros Hnever. destruct (String.eqb_spec rtype "code") as [->|Hne]; [auto|].
      exfalso.
      apply (Hnever (AuthorizeReq.Make (Some "c") None (Some rtype) None None None)
               (fresh_server 0 0)); [reflexivity | reflexivity|].
      rewrite handleAuthorize_eq.
      cbn [AuthorizeReq.client_id AuthorizeReq.response_type strict_eq].
      change (negb (truthy (Some "c"))) with false. cbv iota.
      now destruct (String.eqb_spec rtype "code").
Qed.

(** ** Invariants of the reachable states *)

Lemma already_used_unreachable_witness :
  fst (handleToken demo_exchange
         (snd (handleToken demo_exchange demo_server))) <> already_used.
Proof.
  apply (@already_used_unreachable simpleUrlApi demo_server).
  - apply rtc_once. apply step_token.
  - intros c a Hc.
    destruct (decide (c = "c0de")) as [->|Hne].
    + change (authorizationCodes demo_server !! "c0de") with (Some demo_code) in Hc.
      now injection Hc as <-.
    + unfold demo_server in Hc. cbn [authorizationCodes] in Hc.
      rewrite lookup_singleton_ne in Hc by congruence. discriminate.
Defined.

Lemma validateRedirectUris_None `{UrlApi} (uris : list string) :
  validateRedirectUris uris = None -> Forall (fun uri => uri_allowed uri = true) uris.
Proof.
  induction uris as [|u rest IH]; [constructor|].
  cbn [validateRedirectUris]. intros Hv.
  assert (Hu : uri_allowed u = true /\ validateRedirectUris rest = None).
  { unfold uri_allowed. destruct (new_URL u) as [url|]; [|discriminate].
    destruct ((URL_hostname url =? "localhost")%string
              || (URL_hostname url =? "127.0.0.1")%string);
      destruct (URL_protocol url =? "https:")%string; cbn [negb andb orb] in *;
      try discriminate; auto. }
  destruct Hu as [Hu Hrest]. constructor; auto.
Qed.

Lemma handleRegister_eq `{UrlApi} (req : RegisterReq.t) (w : Server) :
  handleRegister req w =
  match RegisterReq.redirect_uris req with
  | None | Some [] => (json_error 400 "invalid_request" "redirect_uris is required", w)
  | Some uris =>
      match validateRedirectUris uris with
      | Some failure => (failure, w)
      | None =>
          (json_client 201 (registered_id w) (registered_secret w) uris
             (RegisterReq.client_name req) "client_secret_post",
           set_registeredClients
             (<[registered_id w :=
                  RegisteredClient.Make (registered_id w) (Some (registered_secret w)) uris
                    (RegisterReq.client_name req) (clock w 0)]> (registeredClients w))
             (tick (snd (generateRandomString 48 (snd (generateRandomString 32 w))))))
      end
  end.
Proof.
  unfold handleRegister.
  destruct (RegisterReq.redirect_uris req) as [[|u rest]|]; try reflexivity.
  destruct (validateRedirectUris (u :: rest)); reflexivity.
Qed.

Lemma step_store_wf `{UrlApi} (w w' : Server) :
  step w w' -> store_wf w -> store_wf w'.
Proof.
  intros Hstep [Hcodes Htokens Hclients].
  destruct Hstep as [req w|req w|req w|h w|w].
  - (* handleRegister *)
    rewrite handleRegister_eq.
    destruct (RegisterReq.redirect_uris req) as [[|u rest]|]; try (constructor; assumption).
    destruct (validateRedirectUris (u :: rest)) eqn:Hv; [constructor; assumption|].
    cbn [snd]. constructor; unfold set_registeredClients;
      cbn [authorizationCodes accessTokens registeredClients]; try assumption.
    intros i r. destruct (decide (registered_id w = i)) as [<-|Hne].
    + rewrite lookup_insert_eq. intros [= <-]. cbn.
      destruct (generated_shape 32 w) as [Hl Hs].
      destruct (generated_shape 48 (snd (generateRandomString 32 w))) as [Hl' _].
      repeat split; try assumption; try discriminate.
      * eexists. split; [reflexivity | exact Hl'].
      * now apply validateRedirectUris_None.
    + rewrite lookup_insert_ne by assumption. apply Hclients.
  - (* handleAuthorize *)
    rewrite handleAuthorize_eq.
    destruct (truthy (AuthorizeReq.client_id req)) eqn:Hc; [|constructor; assumption].
    destruct (negb (strict_eq (AuthorizeReq.response_type req) "code"));
      [constructor; assumption|].
    destruct (truthy (AuthorizeReq.redirect_uri req)) eqn:Hu; [|constructor; assumption].
    destruct (truthy (AuthorizeReq.code_challenge req)) eqn:Hch; [|constructor; assumption].
    cbn [negb]. cbv zeta.
    assert (Hwf : store_wf
      (set_authorizationCodes
         (<[minted_code w :=
              AuthorizationCode.Make (minted_code w)
                (default "" (AuthorizeReq.client_id req))
                (default "" (AuthorizeReq.redirect_uri req))
                (default "" (AuthorizeReq.code_challenge req))
                (or_default (AuthorizeReq.code_challenge_method req) "plain")
                (clock w 0 + CODE_EXPIRY_SECONDS * 1000) false]> (authorizationCodes w))
         (tick (snd (generateRandomString 48 w))))).
    { constructor; unfold set_authorizationCodes;
        cbn [authorizationCodes accessTokens registeredClients]; try assumption.
      intros c a. destruct (decide (minted_code w = c)) as [<-|Hne].
      - rewrite lookup_insert_eq. intros [= <-]. cbn.
        destruct (generated_shape 48 w) as [Hl Hs].
        destruct (truthy_Some _ Hc) as (? & -> & ?).
        destruct (truthy_Some _ Hu) as (? & -> & ?).
        destruct (truthy_Some _ Hch) as (? & -> & ?).
        repeat split; try assumption. now apply or_default_nonempty.
      - rewrite lookup_insert_ne by assumption. apply Hcodes. }
    destruct (new_URL (default "" (AuthorizeReq.redirect_uri req))); exact Hwf.
  - (* handleToken *)
    assert (Hdrop : forall c, store_wf (drop_code c (tick w))).
    { intros c. constructor; unfold drop_code, set_authorizationCodes;
        cbn [authorizationCodes accessTokens registeredClients]; try assumption.
      intros c' a Hl. apply lookup_delete_Some in Hl as [_ Hl]. now apply Hcodes. }
    assert (Htick : store_wf (tick w)) by (constructor; assumption).
    rewrite handleToken_eq.
    destruct (negb (strict_eq (TokenReq.grant_type req) "authorization_code"));
      [constructor; assumption|].
    destruct (negb (truthy (TokenReq.code req))); [constructor; assumption|].
    cbv zeta.
    destruct (authorizationCodes w !! default "" (TokenReq.code req)) as [a|];
      [|constructor; assumption].
    destruct (clock w 0 >? AuthorizationCode.expiresAt a); [apply Hdrop|].
    destruct (AuthorizationCode.used a); [apply Hdrop|].
    destruct (truthy (TokenReq.client_id req) && _); [exact Htick|].
    destruct (truthy (TokenReq.redirect_uri req) && _); [exact Htick|].
    destruct (negb (truthy (TokenReq.code_verifier req))); [exact Htick|].
    destruct (negb (verifyCodeChallenge _ _ _)); [exact Htick|].
    cbn [snd]. constructor.
    + intros c' a'. rewrite issued_codes. intros Hl.
      apply lookup_delete_Some in Hl as [_ Hl]. now apply Hcodes.
    + intros t d. rewrite issued_tokens.
      destruct (decide (issued_token w = t)) as [<-|Hne].
      * rewrite lookup_insert_eq. intros [= <-]. cbn.
        destruct (generated_shape 64 (tick w)) as [Hl Hs]. auto.
      * rewrite lookup_insert_ne by assumption. apply Htokens.
    + exact Hclients.
  - (* validateAccessToken *)
    rewrite validateAccessToken_eq.
    destruct h as [h|]; [|constructor; assumption].
    destruct (split " " h) as [|p0 [|token [|x l]]]; try (constructor; assumption).
    destruct (p0 =? "Bearer")%string; [|constructor; assumption].
    destruct (accessTokens w !! token) as [td|]; [|constructor; assumption].
    destruct (clock w 0 >? AccessToken.expiresAt td); [|constructor; assumption].
    cbn [snd]. constructor; unfold set_accessTokens;
      cbn [authorizationCodes accessTokens registeredClients]; try assumption.
    intros t d Hl. apply lookup_delete_Some in Hl as [_ Hl]. now apply Htokens.
  - (* cleanupExpired *)
    rewrite cleanupExpired_eq. constructor;
      cbn [authorizationCodes accessTokens registeredClients]; try assumption.
    + intros c a Hl. apply sweep_lookup in Hl as [Hl _]. now apply Hcodes.
    + intros t d Hl. apply sweep_lookup in Hl as [Hl _]. now apply Htokens.
Qed.

(** X10. In every state reached from empty maps by any sequence of
    handler calls and sweeps, with any clock and any random source: every
    stored code sits under its own 48-character URL-safe value, is unused
    and carries non-empty client, redirect URI, challenge and method;
    every access token sits under its own 64-character URL-safe value;
    every registered client sits under its own 32-character URL-safe id,
    has a 48-character secret and a non-empty list of redirect URIs that
    are each [https] or loopback. *)
Theorem reachable_store_wf `{UrlApi} (time : nat -> Z) (random : nat -> Byte.byte)
    (w : Server) :
  rtc step (mkServer ∅ ∅ ∅ time random) w -> store_wf w.
Proof.
  intros Hreach.
  assert (Hinit : store_wf (mkServer ∅ ∅ ∅ time random)).
  { constructor; cbn [authorizationCodes accessTokens registeredClients];
      intros ? ? Hl; rewrite lookup_empty in Hl; discriminate. }
  revert Hinit. induction Hreach as [|w1 w2 w3 Hstep _ IH]; [auto|].
  intros Hwf. apply IH. eapply step_store_wf; eassumption.
Qed.

Lemma reachable_store_wf_witness :
  store_wf (snd (handleToken demo_exchange
                   (snd (handleAuthorize s256_authorize (fresh_server 1000 3))))).
Proof.
  apply (@reachable_store_wf simpleUrlApi (fun n => 1000 + Z.of_nat n) (tape 3)).
  eapply rtc_l; [apply step_authorize|].
  apply rtc_once. apply step_token.
Defined.

(** ** Rejections of the authorization and registration endpoints *)

(** X11. [handleAuthorize] tests [client_id], [response_type],
    [redirect_uri] and [code_challenge] in that order and answers 400 with
    the message of the first test that fails; an empty value counts as
    missing.  A request answered with a plain-text body leaves the whole
    state as it was: no code is stored and neither the clock nor the
    random source is read. *)
Theorem handleAuthorize_rejections `{UrlApi} (req : AuthorizeReq.t) (w : Server) :
  (fst (handleAuthorize req w) = send_text 400 "Missing client_id" <->
     truthy (AuthorizeReq.client_id req) = false)
  /\ (fst (handleAuthorize req w) = unsupported_response_type <->
        truthy (AuthorizeReq.client_id req) = true
        /\ AuthorizeReq.response_type req <> Some "code")
  /\ (fst (handleAuthorize req w) = send_text 400 "Missing redirect_uri" <->
        truthy (AuthorizeReq.client_id req) = true
        /\ AuthorizeReq.response_type req = Some "code"
        /\ truthy (AuthorizeReq.redirect_uri req) = false)
  /\ (fst (handleAuthorize req w) = send_text 400 "Missing code_challenge (PKCE required)" <->
        truthy (AuthorizeReq.client_id req) = true
        /\ AuthorizeReq.response_type req = Some "code"
        /\ truthy (AuthorizeReq.redirect_uri req) = true
        /\ truthy (AuthorizeReq.code_challenge req) = false)
  /\ (forall status body,
        fst (handleAuthorize req w) = send_text status body ->
        snd (handleAuthorize req w) = w).
Proof.
  rewrite handleAuthorize_eq. unfold unsupported_response_type.
  destruct (truthy (AuthorizeReq.client_id req)); cbn [negb].
  2: { repeat split; try discriminate; try reflexivity; intros (? & ?); discriminate. }
  destruct (strict_eq (AuthorizeReq.response_type req) "code") eqn:Hr; cbn [negb].
  2: { assert (AuthorizeReq.response_type req <> Some "code")
         by (intros Heq; apply strict_eq_true in Heq; congruence).
       repeat split; try discriminate; try reflexivity; try assumption;
         intros (? & ? & ?); congruence. }
  apply strict_eq_true in Hr.
  destruct (truthy (AuthorizeReq.redirect_uri req)); cbn [negb].
  2: { repeat split; try discriminate; try reflexivity; try assumption;
         try (intros (? & ?); congruence); intros (? & ? & ? & ?); discriminate. }
  destruct (truthy (AuthorizeReq.code_challenge req)); cbn [negb].
  2: { repeat split; try discriminate; try reflexivity; try assumption;
         try (intros (? & ?); congruence); intros (? & ? & ?); discriminate. }
  cbv zeta.
  destruct (new_URL (default "" (AuthorizeReq.redirect_uri req)));
    cbn [fst snd]; repeat split; try discriminate;
    try (intros (? & ?); congruence); try (intros (? & ? & ?); discriminate);
    intros (? & ? & ? & ?); discriminate.
Qed.

Lemma validateRedirectUris_Some `{UrlApi} (uris : list string) (failure : Response) :
  validateRedirectUris uris = Some failure ->
  exists good bad rest,
    uris = (good ++ bad :: rest)%list
    /\ Forall (fun uri => uri_allowed uri = true) good
    /\ uri_allowed bad = false
    /\ failure = json_error 400 "invalid_redirect_uri"
                   (match new_URL bad with
                    | Some _ => "Redirect URIs must be localhost or HTTPS"
                    | None => "Invalid redirect URI format"
                    end).
Proof.
  induction uris as [|u rest IH]; [discriminate|].
  cbn [validateRedirectUris]. unfold uri_allowed in *.
  destruct (new_URL u) as [url|] eqn:Hu.
  - destruct ((URL_hostname url =? "localhost")%string
              || (URL_hostname url =? "127.0.0.1")%string) eqn:Hl;
      destruct (URL_protocol url =? "https:")%string eqn:Hs; cbn [negb andb];
      try (intros Hv; destruct (IH Hv) as (good & bad & rest' & -> & Hgood & Hbad & ->);
           exists (u :: good), bad, rest'; repeat split; try assumption;
           constructor; [now rewrite Hu, Hl, Hs | assumption]).
    intros [= <-]. exists [], u, rest. rewrite Hu, Hl, Hs. repeat split. constructor.
  - intros [= <-]. exists [], u, rest. rewrite Hu. repeat split. constructor.
Qed.

(** X12. The three outcomes of [handleRegister] and when each occurs:
    [invalid_request] exactly when [redirect_uris] is missing, not an
    array or empty; [invalid_redirect_uri] exactly when the array holds a
    URI that is not acceptable, the description telling whether the first
    such URI failed to parse or parsed to a remote non-https URL; and 201
    exactly when the array is non-empty and every URI is acceptable.  The
    two rejections leave the state unchanged. *)
Theorem handleRegister_outcomes `{UrlApi} (req : RegisterReq.t) (w : Server) :
  (fst (handleRegister req w) = redirect_uris_required <->
     RegisterReq.redirect_uris req = None \/ RegisterReq.redirect_uris req = Some [])
  /\ (invalid_redirect_uri (fst (handleRegister req w)) <->
        exists good bad rest,
          RegisterReq.redirect_uris req = Some (good ++ bad :: rest)%list
          /\ Forall (fun uri => uri_allowed uri = true) good
          /\ uri_allowed bad = false
          /\ fst (handleRegister req w)
             = json_error 400 "invalid_redirect_uri"
                 (match new_URL bad with
                  | Some _ => "Redirect URIs must be localhost or HTTPS"
                  | None => "Invalid redirect URI format"
                  end))
  /\ (fst (handleRegister req w)
        = json_client 201 (registered_id w) (registered_secret w)
            (default [] (RegisterReq.redirect_uris req)) (RegisterReq.client_name req)
            "client_secret_post" <->
      exists uris, RegisterReq.redirect_uris req = Some uris /\ uris <> []
                   /\ Forall (fun uri => uri_allowed uri = true) uris)
  /\ (forall status error description,
        fst (handleRegister req w) = json_error status error description ->
        snd (handleRegister req w) = w).
Proof.
  rewrite handleRegister_eq. unfold redirect_uris_required, invalid_redirect_uri.
  destruct (RegisterReq.redirect_uris req) as [[|u rest]|] eqn:Huris.
  - cbn [fst snd]. split; [|split; [|split]].
    + split; auto.
    + split.
      * intros (? & ?). discriminate.
      * intros (good & bad & rest & Heq & _). destruct good; discriminate.
    + split; [discriminate|]. intros (uris & [= <-] & Hne & _). contradiction.
    + reflexivity.
  - destruct (validateRedirectUris (u :: rest)) as [failure|] eqn:Hv; cbn [fst snd].
    + destruct (validateRedirectUris_Some _ _ Hv)
        as (good & bad & rest' & Heq & Hgood & Hbad & ->).
      split; [|split; [|split]].
      * split; [discriminate | intros [? | ?]; discriminate].
      * split; [|eexists; reflexivity].
        intros _. exists good, bad, rest'. rewrite Heq. auto.
      * split; [discriminate|].
        intros (uris & [= <-] & _ & Hall). exfalso.
        rewrite (validateRedirectUris_accept _ Hall) in Hv. discriminate.
      * reflexivity.
    + split; [|split; [|split]].
      * split; [discriminate | intros [? | ?]; discriminate].
      * split; [intros (? & ?); discriminate|].
        intros (good & bad & rest' & [= Heq] & Hgood & Hbad & _). exfalso.
        apply validateRedirectUris_None in Hv. rewrite Heq in Hv.
        apply Forall_app in Hv as [_ Hv]. inversion Hv; subst. congruence.
      * split; [|reflexivity].
        intros _. exists (u :: rest). repeat split; [discriminate|].
        now apply validateRedirectUris_None.
      * discriminate.
  - cbn [fst snd]. split; [|split; [|split]].
    + split; auto.
    + split.
      * intros (? & ?). discriminate.
      * intros (good & bad & rest & Heq & _). discriminate.
    + split; [discriminate|]. intros (uris & Heq & _). discriminate.
    + reflexivity.
Qed.

(** * The static-token gate *)

Lemma fold_lor_zero (f : nat -> Z) (l : list nat) (acc : Z) :
  fold_left (fun result i => Z.lor result (f i)) l acc = 0
  <-> acc = 0 /\ forall i, In i l -> f i = 0.
Proof.
  revert acc. induction l as [|i l IH]; intros acc; cbn [fold_left].
  - split; [intros ->; split; [reflexivity | intros ? []] | now intros [-> _]].
  - rewrite IH, Z.lor_eq_0_iff. split.
    + intros [[-> Hi] Hl]. split; [reflexivity|]. intros j [<-|Hj]; auto.
    + intros [-> Hl]. repeat split; auto.
      * apply Hl. now left.
      * intros j Hj. apply Hl. now right.
Qed.

Lemma constantTimeCompare_eq (a b : list Z) :
  StaticGate.constantTimeCompare a b = true -> a = b.
Proof.
  unfold StaticGate.constantTimeCompare.
  destruct (Nat.eqb_spec (length a) (length b)) as [Hlen|Hlen]; [|discriminate].
  cbn [negb]. cbv zeta. rewrite Z.eqb_eq.
  rewrite (fold_lor_zero
             (fun i => Z.lxor (StaticGate.charCodeAt a i) (StaticGate.charCodeAt b i))).
  intros [_ Hall]. apply (nth_ext a b 0 0 Hlen). intros i Hi.
  specialize (Hall i ltac:(apply in_seq; lia)). now apply Z.lxor_eq in Hall.
Qed.

Lemma constantTimeCompare_refl (a : list Z) :
  StaticGate.constantTimeCompare a a = true.
Proof.
  unfold StaticGate.constantTimeCompare. rewrite Nat.eqb_refl. cbn [negb]. cbv zeta.
  rewrite Z.eqb_eq.
  rewrite (fold_lor_zero
             (fun i => Z.lxor (StaticGate.charCodeAt a i) (StaticGate.charCodeAt a i))).
  split; [reflexivity|]. intros i _. apply Z.lxor_nilpotent.
Qed.

(** X13. [constantTimeCompare] returns [true] exactly for equal strings:
    same length and the same code unit at every index. *)
Theorem constantTimeCompare_iff (a b : list Z) :
  StaticGate.constantTimeCompare a b = true <-> a = b.
Proof.
  unfold StaticGate.constantTimeCompare.
  destruct (Nat.eqb_spec (length a) (length b)) as [Hlen|Hlen]; cbn [negb].
  - cbv zeta. rewrite Z.eqb_eq.
    rewrite (fold_lor_zero
               (fun i => Z.lxor (StaticGate.charCodeAt a i) (StaticGate.charCodeAt b i))).
    split.
    + intros [_ Hall]. apply (nth_ext a b 0 0 Hlen). intros i Hi.
      specialize (Hall i ltac:(apply in_seq; lia)).
      now apply Z.lxor_eq in Hall.
    + intros ->. split; [reflexivity|]. intros i _. apply Z.lxor_nilpotent.
  - split; [discriminate | intros ->; contradiction].
Qed.

Lemma given_nonempty (v : option (list Z)) :
  StaticGate.given v = true <-> exists t, v = Some t /\ t <> [].
Proof.
  destruct v as [[|c t]|]; cbn [StaticGate.given]; split; try discriminate.
  - intros (? & [= <-] & ?). congruence.
  - intros _. eexists. split; [reflexivity | discriminate].
  - reflexivity.
  - intros (? & ? & ?). discriminate.
Qed.

Lemma getAuthToken_start_cached (env : StaticGate.Env) (t : list Z) :
  t <> [] ->
  StaticGate.getAuthToken_start env (Some t) = (StaticGate.settled (StaticGate.resolved t), Some t).
Proof. intros Ht. destruct t; [contradiction | reflexivity]. Qed.

Lemma gate_step_nonempty (g g' : GateState) :
  gate_step g g' -> cachedAuthToken g <> Some [] -> cachedAuthToken g' <> Some [].
Proof.
  intros Hstep Hok. destruct Hstep as [env g | reply g n _]; cbn [cachedAuthToken].
  - unfold StaticGate.getAuthToken_start.
    destruct (StaticGate.given (cachedAuthToken g)); [exact Hok|].
    destruct (StaticGate.given (StaticGate.AUTH_TOKEN env)) eqn:Hd.
    + apply given_nonempty in Hd as (t & -> & Ht). cbn. congruence.
    + destruct (negb _); exact Hok.
  - destruct reply as [|s]; [exact Hok|]. cbn [StaticGate.getAuthToken_resume].
    destruct (StaticGate.given s) eqn:Hs; [|exact Hok].
    apply given_nonempty in Hs as (t & -> & Ht). cbn. congruence.
Qed.

(** X14. The shared secret is resolved once and is never empty.  A call
    of [getAuthToken] that finds a cached token returns it without looking
    at the environment or the secret store; from a state in which a token
    is cached and no call is waiting, no sequence of calls and replies
    changes the cache or lets a call wait; and from the initial state
    ([null], nobody waiting) the cache never holds the empty string,
    whatever the environment and the secret store answer. *)
Theorem auth_token_resolved_once (t : list Z) (g : GateState) :
  (t <> [] ->
     forall env, StaticGate.getAuthToken_start env (Some t)
                 = (StaticGate.settled (StaticGate.resolved t), Some t))
  /\ (t <> [] -> rtc gate_step (mkGate (Some t) 0) g -> g = mkGate (Some t) 0)
  /\ (rtc gate_step (mkGate None 0) g -> cachedAuthToken g <> Some []).
Proof.
  split; [|split].
  - intros Ht env. now apply getAuthToken_start_cached.
  - intros Ht Hreach.
    assert (Hgen : forall g1 g2, rtc gate_step g1 g2 ->
              g1 = mkGate (Some t) 0 -> g2 = mkGate (Some t) 0).
    { clear g Hreach. induction 1 as [|g1 g2 g3 Hstep _ IH]; [auto|].
      intros ->. apply IH. inversion Hstep as [env g Hg | reply g n Hwait Hg]; subst.
      - cbn [cachedAuthToken waiting]. now rewrite getAuthToken_start_cached.
      - discriminate. }
    now apply (Hgen _ _ Hreach).
  - intros Hreach.
    assert (Hinit : cachedAuthToken (mkGate None 0) <> Some []) by discriminate.
    revert Hinit. induction Hreach as [|g1 g2 g3 Hstep _ IH]; [auto|].
    intros Hok. apply IH. eapply gate_step_nonempty; eassumption.
Qed.

Lemma auth_token_resolved_once_witness :
  cachedAuthToken
    (mkGate (snd (StaticGate.getAuthToken_resume
                    (StaticGate.SecretString (Some (StaticGate.units "s3cret"))) None)) 0)
  <> Some [].
Proof.
  apply (proj2 (proj2 (auth_token_resolved_once [] _))).
  apply (rtc_l _ _ (mkGate None 1)).
  - exact (gate_call (StaticGate.mkEnv None (Some (StaticGate.units "arn:aws")))
             (mkGate None 0)).
  - apply rtc_once.
    exact (gate_reply (StaticGate.SecretString (Some (StaticGate.units "s3cret")))
             (mkGate None 1) 0%nat eq_refl).
Defined.

Lemma split_units_no_sep (sep : Z) (s : list Z) :
  ~ In sep s -> StaticGate.split_units sep s = [s].
Proof.
  induction s as [|c s IH]; intros Hno; [reflexivity|].
  cbn [StaticGate.split_units]. cbn [In] in Hno.
  destruct (Z.eqb_spec c sep) as [->|_]; [tauto|].
  rewrite IH by tauto. reflexivity.
Qed.

Lemma split_units_spec (sep : Z) (s : list Z) :
  StaticGate.split_units sep s <> []
  /\ Forall (fun p => ~ In sep p) (StaticGate.split_units sep s)
  /\ join_units sep (StaticGate.split_units sep s) = s.
Proof.
  induction s as [|c s (Hne & Hall & Hjoin)]; cbn [StaticGate.split_units].
  - repeat split; [discriminate | repeat constructor; auto].
  - destruct (Z.eqb_spec c sep) as [->|Hc].
    + split; [discriminate|]. split; [constructor; auto|].
      destruct (StaticGate.split_units sep s) as [|p ps]; [contradiction|].
      change (join_units sep ([] :: p :: ps)) with (sep :: join_units sep (p :: ps)).
      now rewrite Hjoin.
    + destruct (StaticGate.split_units sep s) as [|p ps]; [contradiction|].
      split; [discriminate|]. inversion Hall as [|? ? Hp Hps]; subst. split.
      * constructor; [|assumption]. intros [Heq|Hin]; [congruence | auto].
      * destruct ps; reflexivity.
Qed.

Lemma split_units_two (sep : Z) (s a b : list Z) :
  StaticGate.split_units sep s = [a; b]
  <-> s = (a ++ sep :: b)%list /\ ~ In sep a /\ ~ In sep b.
Proof.
  split.
  - intros Hs. destruct (split_units_spec sep s) as (_ & Hall & Hjoin).
    rewrite Hs in Hall, Hjoin. cbn [join_units] in Hjoin.
    inversion Hall as [|? ? Ha Hb']; subst. inversion Hb'; subst. auto.
  - intros (-> & Ha & Hb). induction a as [|c a IH]; cbn [app StaticGate.split_units].
    + rewrite Z.eqb_refl. now rewrite split_units_no_sep.
    + cbn [In] in Ha. destruct (Z.eqb_spec c sep) as [->|_]; [tauto|].
      rewrite IH by tauto. reflexivity.
Qed.

(** X15. Who passes the static gate.  [validateToken] calls [next()]
    exactly when the path is [/health] or the header is the text
    [Bearer], one space and a token without spaces that equals the
    resolved secret.  A missing, empty or differently shaped header is
    answered 401 before the secret is looked up, so whatever that lookup
    would give; a well-formed header gets 403 for a wrong token and 500
    when the secret cannot be resolved; and since a resolved secret is
    never empty, the header [Bearer ] with an empty token never passes. *)
Theorem validateToken_passes_iff (path : string) (authorization : option (list Z))
    (r : StaticGate.Resolution) :
  (StaticGate.validateToken path authorization r = StaticGate.next <->
     path = "/health"
     \/ exists token,
          authorization = Some (StaticGate.units "Bearer" ++ 32 :: token)%list
          /\ ~ In 32 token /\ r = StaticGate.resolved token)
  /\ (forall reply,
        StaticGate.validateToken_start path authorization = StaticGate.answered reply ->
        forall r', StaticGate.validateToken path authorization r' = reply)
  /\ (forall status code message,
        StaticGate.validateToken path authorization r
          = StaticGate.respond status code message ->
        (status = 401 /\ code = -32001
         /\ forall r', StaticGate.validateToken path authorization r'
                       = StaticGate.respond status code message)
        \/ (status = 403 /\ code = -32001 /\ exists t, r = StaticGate.resolved t)
        \/ (status = 500 /\ code = -32000 /\ r = StaticGate.rejected))
  /\ (forall expected,
        path <> "/health" -> expected <> [] ->
        StaticGate.validateToken path (Some (StaticGate.units "Bearer "))
          (StaticGate.resolved expected)
        = StaticGate.respond 403 (-32001) "Invalid token").
Proof.
  split; [|split; [|split]].
  - unfold StaticGate.validateToken, StaticGate.validateToken_start.
    destruct (String.eqb_spec path "/health") as [->|Hpath]; [split; auto|].
    destruct (StaticGate.given authorization) eqn:Hgiven; cbn [negb].
    2: { split; [discriminate|]. intros [? | (token & -> & _)]; [contradiction|].
         discriminate. }
    apply given_nonempty in Hgiven as (h & -> & Hh).
    change (default [] (Some h)) with h.
    destruct (StaticGate.split_units 32 h) as [|p0 [|token [|x l]]] eqn:Hs.
    1,2,4: split; [discriminate|];
      intros [? | (token' & [= ->] & Hno & _)]; [contradiction|];
      rewrite (proj2 (split_units_two 32 _ (StaticGate.units "Bearer") token')) in Hs;
      [discriminate | repeat split; [|exact Hno]; vm_compute; intuition discriminate].
    apply split_units_two in Hs as (-> & Hp0 & Htok).
    destruct (decide (p0 = StaticGate.units "Bearer")) as [->|Hne].
    + rewrite bool_decide_eq_true_2 by reflexivity. cbn [negb].
      unfold StaticGate.validateToken_settle. destruct r as [expected|].
      * destruct (StaticGate.constantTimeCompare token expected) eqn:Hcmp; cbn [negb].
        -- apply constantTimeCompare_eq in Hcmp as <-.
           split; [|reflexivity]. intros _. right. exists token. auto.
        -- split; [discriminate|].
           intros [? | (token' & Heq & _ & [= <-])]; [contradiction|].
           injection Heq as Heq.
           try (apply app_inv_head in Heq; injection Heq as Heq). subst.
           rewrite constantTimeCompare_refl in Hcmp. discriminate.
      * split; [discriminate|]. intros [? | (? & _ & _ & ?)]; [contradiction | discriminate].
    + rewrite bool_decide_eq_false_2 by assumption. cbn [negb].
      split; [discriminate|].
      intros [? | (token' & [= Heq] & Hno & _)]; [contradiction|].
      exfalso. apply Hne.
      assert (Hs : StaticGate.split_units 32 (p0 ++ 32 :: token)%list
                   = [StaticGate.units "Bearer"; token']).
      { rewrite Heq. apply split_units_two. repeat split; [|exact Hno].
        vm_compute. intuition discriminate. }
      rewrite (proj2 (split_units_two 32 _ p0 token)) in Hs by auto. congruence.
  - intros reply Hstart r'. unfold StaticGate.validateToken. now rewrite Hstart.
  - intros status code message. unfold StaticGate.validateToken.
    destruct (StaticGate.validateToken_start path authorization) as [reply|tok] eqn:Hstart.
    + intros ->. left.
      assert (Hshape : status = 401 /\ code = -32001).
      { revert Hstart. unfold StaticGate.validateToken_start.
        destruct (path =? "/health")%string; [discriminate|].
        destruct (negb (StaticGate.given authorization)); [now intros [= <- <- <-]|].
        destruct (StaticGate.split_units 32 (default [] authorization))
          as [|p0 [|token [|x l]]]; try (now intros [= <- <- <-]).
        destruct (negb (bool_decide _)); [now intros [= <- <- <-] | discriminate]. }
      destruct Hshape as [-> ->].
      split; [reflexivity|]. split; [reflexivity|]. intros r'. reflexivity.
    + unfold StaticGate.validateToken_settle. destruct r as [expected|].
      * destruct (negb (StaticGate.constantTimeCompare tok expected)); [|discriminate].
        intros [= <- <- <-]. right. left. eauto.
      * intros [= <- <- <-]. right. right. auto.
  - intros expected Hpath Hexp. unfold StaticGate.validateToken, StaticGate.validateToken_start.
    destruct (String.eqb_spec path "/health"); [contradiction|].
    change (StaticGate.given (Some (StaticGate.units "Bearer "))) with true.
    change (default [] (Some (StaticGate.units "Bearer "))) with (StaticGate.units "Bearer ").
    replace (StaticGate.split_units 32 (StaticGate.units "Bearer "))
      with [StaticGate.units "Bearer"; []] by (vm_compute; reflexivity).
    rewrite bool_decide_eq_true_2 by reflexivity. cbn [negb].
    unfold StaticGate.validateToken_settle.
    destruct (StaticGate.constantTimeCompare [] expected) eqn:Hcmp; [|reflexivity].
    apply constantTimeCompare_eq in Hcmp. congruence.
Qed.

(** * Note paths *)

Lemma trimStart_clean (s : list Z) : starts_clean (Vault.trimStart s).
Proof.
  unfold starts_clean. induction s as [|c s IH]; [discriminate|].
  cbn [Vault.trimStart]. destruct (Vault.is_space c) eqn:Hc; [exact IH|].
  intros c' [= <-]. exact Hc.
Qed.

Lemma trimStart_id (s : list Z) : starts_clean s -> Vault.trimStart s = s.
Proof.
  unfold starts_clean. destruct s as [|c s]; [reflexivity|].
  intros Hc. cbn [Vault.trimStart]. now rewrite (Hc c eq_refl).
Qed.

Lemma trimStart_length (s : list Z) : (length (Vault.trimStart s) <= length s)%nat.
Proof.
  induction s as [|c s IH]; cbn [Vault.trimStart length]; [lia|].
  destruct (Vault.is_space c); cbn [length]; lia.
Qed.

Lemma trimEnd_clean (s : list Z) : ends_clean (Vault.trimEnd s).
Proof.
  unfold ends_clean. induction s as [|c s IH]; [discriminate|].
  cbn [Vault.trimEnd]. destruct (Vault.trimEnd s) as [|d r] eqn:Hr.
  - destruct (Vault.is_space c) eqn:Hc; [discriminate|]. now intros c' [= <-].
  - intros c'. rewrite last_cons_cons. apply IH.
Qed.

Lemma trimEnd_id (s : list Z) : ends_clean s -> Vault.trimEnd s = s.
Proof.
  unfold ends_clean. induction s as [|c s IH]; [reflexivity|].
  intros Hc. cbn [Vault.trimEnd]. destruct s as [|d r].
  - cbn. now rewrite (Hc c eq_refl).
  - rewrite IH; [reflexivity|]. intros c'. rewrite <- (last_cons_cons c). apply Hc.
Qed.

Lemma trimEnd_head (s : list Z) (c : Z) :
  head (Vault.trimEnd s) = Some c -> head s = Some c.
Proof.
  destruct s as [|d s]; [discriminate|]. cbn [Vault.trimEnd].
  destruct (Vault.trimEnd s); [destruct (Vault.is_space d); [discriminate|]|]; auto.
Qed.

Lemma trimEnd_length (s : list Z) : (length (Vault.trimEnd s) <= length s)%nat.
Proof.
  induction s as [|c s IH]; cbn [Vault.trimEnd length]; [lia|].
  destruct (Vault.trimEnd s); [destruct (Vault.is_space c)|]; cbn [length] in *; lia.
Qed.

Lemma strip_head (s : list Z) : head (Vault.strip_leading_slashes s) <> Some 47.
Proof.
  induction s as [|c s IH]; [discriminate|]. cbn [Vault.strip_leading_slashes].
  destruct (Z.eqb_spec c 47); [exact IH|]. cbn. congruence.
Qed.

Lemma strip_id (s : list Z) : head s <> Some 47 -> Vault.strip_leading_slashes s = s.
Proof.
  destruct s as [|c s]; [reflexivity|]. cbn [Vault.strip_leading_slashes head].
  intros Hc. destruct (Z.eqb_spec c 47); [congruence | reflexivity].
Qed.

Lemma strip_last (s : list Z) (c : Z) :
  last (Vault.strip_leading_slashes s) = Some c -> last s = Some c.
Proof.
  induction s as [|d s IH]; [discriminate|]. cbn [Vault.strip_leading_slashes].
  destruct (Z.eqb_spec d 47); [|auto].
  intros Hl. specialize (IH Hl). destruct s; [discriminate|].
  now rewrite last_cons_cons.
Qed.

Lemma strip_length (s : list Z) :
  (length (Vault.strip_leading_slashes s) <= length s)%nat.
Proof.
  induction s as [|c s IH]; cbn [Vault.strip_leading_slashes length]; [lia|].
  destruct (Z.eqb c 47); cbn [length]; lia.
Qed.

Lemma collapse_head (s : list Z) : head (Vault.collapse_slashes s) = head s.
Proof.
  induction s as [|c s IH]; [reflexivity|]. cbn [Vault.collapse_slashes].
  destruct (Z.eqb_spec c 47) as [->|_]; [|reflexivity].
  destruct s as [|d s]; [reflexivity|].
  destruct (Z.eqb_spec d 47) as [->|_]; [|reflexivity].
  cbn [andb]. rewrite IH. reflexivity.
Qed.

Lemma collapse_last (s : list Z) : last (Vault.collapse_slashes s) = last s.
Proof.
  induction s as [|c s IH]; [reflexivity|]. cbn [Vault.collapse_slashes].
  destruct s as [|d s].
  - rewrite andb_false_r. reflexivity.
  - rewrite last_cons_cons, <- IH.
    destruct (Z.eqb c 47 && Z.eqb d 47); [reflexivity|].
    pose proof (collapse_head (d :: s)) as Hh.
    destruct (Vault.collapse_slashes (d :: s)); [discriminate|].
    now rewrite last_cons_cons.
Qed.

Lemma collapse_no_double (s : list Z) :
  Vault.has_double_slash (Vault.collapse_slashes s) = false.
Proof.
  induction s as [|c s IH]; [reflexivity|]. cbn [Vault.collapse_slashes].
  destruct (Z.eqb c 47 && match s with d :: _ => Z.eqb d 47 | [] => false end) eqn:Hc;
    [exact IH|].
  cbn [Vault.has_double_slash]. rewrite IH, orb_false_r.
  pose proof (collapse_head s) as Hh.
  destruct (Vault.collapse_slashes s) as [|d r]; [apply andb_false_r|].
  destruct s as [|d' s']; [discriminate|]. cbn in Hh. injection Hh as ->. exact Hc.
Qed.

Lemma collapse_id (s : list Z) :
  Vault.has_double_slash s = false -> Vault.collapse_slashes s = s.
Proof.
  induction s as [|c s IH]; [reflexivity|].
  cbn [Vault.has_double_slash Vault.collapse_slashes].
  intros Hd. apply orb_false_elim in Hd as [Hc Hs]. rewrite Hc, IH by assumption.
  reflexivity.
Qed.

Lemma collapse_length (s : list Z) :
  (length (Vault.collapse_slashes s) <= length s)%nat.
Proof.
  induction s as [|c s IH]; cbn [Vault.collapse_slashes length]; [lia|].
  destruct (_ && _); cbn [length]; lia.
Qed.

Lemma normalizePath_props (path : list Z) :
  head (Vault.normalizePath path) <> Some 47
  /\ Vault.has_double_slash (Vault.normalizePath path) = false
  /\ ends_clean (Vault.normalizePath path).
Proof.
  unfold Vault.normalizePath, Vault.trim. split; [|split].
  - rewrite collapse_head. apply strip_head.
  - apply collapse_no_double.
  - intros c. rewrite collapse_last. intros Hl. apply strip_last in Hl.
    now apply (trimEnd_clean (Vault.trimStart path)).
Qed.

Lemma normalizePath_fixed (q : list Z) :
  head q <> Some 47 -> Vault.has_double_slash q = false -> ends_clean q ->
  starts_clean q -> Vault.normalizePath q = q.
Proof.
  intros Hh Hd He Hs. unfold Vault.normalizePath, Vault.trim.
  rewrite (trimStart_id q Hs), (trimEnd_id q He), (strip_id q Hh). now apply collapse_id.
Qed.

Lemma normalizePath_shrinks (q : list Z) :
  ~ starts_clean q -> (length (Vault.normalizePath q) < length q)%nat.
Proof.
  intros Hs. unfold Vault.normalizePath, Vault.trim.
  pose proof (collapse_length (Vault.strip_leading_slashes (Vault.trimEnd (Vault.trimStart q)))).
  pose proof (strip_length (Vault.trimEnd (Vault.trimStart q))).
  pose proof (trimEnd_length (Vault.trimStart q)).
  assert (length (Vault.trimStart q) < length q)%nat; [|lia].
  destruct q as [|c q]; [exfalso; apply Hs; intros ?; discriminate|].
  cbn [Vault.trimStart]. destruct (Vault.is_space c) eqn:Hc.
  - pose proof (trimStart_length q). cbn [length]. lia.
  - exfalso. apply Hs. now intros c' [= <-].
Qed.

(** X16. A normalised path never begins with a slash, never has two
    slashes in a row and never ends with white space.  It can begin with
    white space (when white space follows the leading slashes), and
    [normalizePath] is idempotent exactly on the paths where it does not:
    [normalizePath "/ a"] is [" a"], whose own normal form is ["a"]. *)
Theorem normalizePath_shape (path : list Z) :
  head (Vault.normalizePath path) <> Some 47
  /\ Vault.has_double_slash (Vault.normalizePath path) = false
  /\ ends_clean (Vault.normalizePath path)
  /\ (Vault.normalizePath (Vault.normalizePath path) = Vault.normalizePath path
      <-> starts_clean (Vault.normalizePath path))
  /\ Vault.normalizePath (StaticGate.units "/ a") = StaticGate.units " a"
  /\ Vault.normalizePath (StaticGate.units " a") = StaticGate.units "a".
Proof.
  destruct (normalizePath_props path) as (Hh & Hd & He).
  split; [exact Hh|]. split; [exact Hd|]. split; [exact He|]. split; [split|].
  - intros Heq c Hc. destruct (Vault.is_space c) eqn:Hsp; [|reflexivity]. exfalso.
    assert (Hdirty : ~ starts_clean (Vault.normalizePath path)).
    { intros Hs. specialize (Hs c Hc). congruence. }
    apply normalizePath_shrinks in Hdirty. rewrite Heq in Hdirty. lia.
  - intros Hs. now apply normalizePath_fixed.
  - split; vm_compute; reflexivity.
Qed.

Lemma endsWith_app (s suffix : list Z) :
  Vault.endsWith (s ++ suffix) suffix = true.
Proof.
  unfold Vault.endsWith. rewrite length_app.
  replace (length s + length suffix - length suffix)%nat with (length s) by lia.
  rewrite skipn_app, skipn_all, Nat.sub_diag. cbn [skipn app].
  rewrite bool_decide_eq_true_2 by reflexivity.
  rewrite andb_true_r. apply Nat.leb_le. lia.
Qed.

Lemma has_double_slash_app_md (s : list Z) :
  Vault.has_double_slash s = false ->
  Vault.has_double_slash (s ++ StaticGate.units ".md") = false.
Proof.
  induction s as [|c s IH]; [reflexivity|].
  cbn [Vault.has_double_slash app]. intros Hd.
  apply orb_false_elim in Hd as [Hc Hs]. rewrite (IH Hs), orb_false_r.
  destruct s as [|d s]; [|exact Hc]. cbn. apply andb_false_r.
Qed.

(** X17. The key [ensureMarkdownExtension] computes for a note always ends
    in [.md], never begins with a slash and never has two slashes in a
    row; it is the normalised path itself when that already ends in
    [.md]; and computing the key of a key changes nothing as long as the
    key does not begin with white space. *)
Theorem ensureMarkdownExtension_shape (path : list Z) :
  let key := Vault.ensureMarkdownExtension path in
  Vault.endsWith key (StaticGate.units ".md") = true
  /\ head key <> Some 47
  /\ Vault.has_double_slash key = false
  /\ (Vault.endsWith (Vault.normalizePath path) (StaticGate.units ".md") = true ->
      key = Vault.normalizePath path)
  /\ (starts_clean key -> Vault.ensureMarkdownExtension key = key).
Proof.
  cbv zeta.
  destruct (normalizePath_props path) as (Hh & Hd & He).
  destruct (Vault.endsWith (Vault.normalizePath path) (StaticGate.units ".md")) eqn:Hmd.
  - assert (Hkey : Vault.ensureMarkdownExtension path = Vault.normalizePath path)
      by (unfold Vault.ensureMarkdownExtension; now rewrite Hmd).
    rewrite !Hkey.
    split; [exact Hmd|]. split; [exact Hh|]. split; [exact Hd|].
    split; [reflexivity|]. intros Hs.
    unfold Vault.ensureMarkdownExtension.
    rewrite (normalizePath_fixed _ Hh Hd He Hs), Hmd. reflexivity.
  - assert (Hkey : Vault.ensureMarkdownExtension path
                   = (Vault.normalizePath path ++ StaticGate.units ".md")%list)
      by (unfold Vault.ensureMarkdownExtension; now rewrite Hmd).
    rewrite !Hkey.
    assert (Hh' : head (Vault.normalizePath path ++ StaticGate.units ".md") <> Some 47).
    { destruct (Vault.normalizePath path); [discriminate | exact Hh]. }
    assert (He' : ends_clean (Vault.normalizePath path ++ StaticGate.units ".md")).
    { intros c. change (StaticGate.units ".md") with ([46; 109] ++ [100])%list.
      rewrite app_assoc, last_snoc. now intros [= <-]. }
    split; [apply endsWith_app|]. split; [exact Hh'|].
    split; [now apply has_double_slash_app_md|]. split; [discriminate|].
    intros Hs. unfold Vault.ensureMarkdownExtension.
    rewrite (normalizePath_fixed _ Hh' (has_double_slash_app_md _ Hd) He' Hs).
    now rewrite endsWith_app.
Qed.

Lemma ensureMarkdownExtension_shape_witness :
  Vault.ensureMarkdownExtension (StaticGate.units "  //notes///daily  ")
    = StaticGate.units "notes/daily.md"
  /\ Vault.ensureMarkdownExtension (StaticGate.units "notes/daily.md")
     = StaticGate.units "notes/daily.md".
Proof.
  split; [vm_compute; reflexivity|].
  destruct (ensureMarkdownExtension_shape (StaticGate.units "  //notes///daily  "))
    as (_ & _ & _ & _ & Hfix).
  replace (StaticGate.units "notes/daily.md")
    with (Vault.ensureMarkdownExtension (StaticGate.units "  //notes///daily  "))
    by (vm_compute; reflexivity).
  apply Hfix. intros c Hc. vm_compute in Hc. injection Hc as <-. reflexivity.
Defined.

(** ** The vault tools *)

Lemma getBucketName_fulfilled (env : option (list Z)) (bucket : list Z) :
  VaultOps.getBucketName env = VaultOps.fulfilled bucket <->
  env = Some bucket /\ bucket <> [].
Proof.
  unfold VaultOps.getBucketName.
  destruct env as [[|c b]|]; cbn.
  - split; [discriminate|]. intros [[= <-] H]. congruence.
  - split; [intros [= <-]; split; [reflexivity|discriminate]|]. now intros [[= <-] _].
  - split; [discriminate|]. now intros [? _].
Qed.

Lemma getBucketName_failed (env : option (list Z)) (e : VaultOps.Thrown) :
  VaultOps.getBucketName env = VaultOps.failed e ->
  VaultOps.instanceof_Error e = true
  /\ VaultOps.message e = StaticGate.units "S3_BUCKET_NAME environment variable is not set".
Proof.
  unfold VaultOps.getBucketName. destruct (negb _); [|discriminate].
  intros [= <-]. split; reflexivity.
Qed.

Lemma noteExists_false (bucket path : list Z) (head : VaultOps.Settled unit) :
  bucket <> [] ->
  snd (VaultOps.noteExists (Some bucket) path head) = VaultOps.fulfilled false <->
  exists e, head = VaultOps.failed e /\ VaultOps.missing e = true.
Proof.
  intros Hb. unfold VaultOps.noteExists.
  destruct (VaultOps.getBucketName (Some bucket)) as [b|e] eqn:Hg.
  2:{ exfalso. unfold VaultOps.getBucketName in Hg. destruct bucket; [congruence|].
      discriminate. }
  cbn [snd]. unfold VaultOps.missing. destruct head as [[]|e].
  - split; [discriminate|]. now intros (e & [=] & _).
  - destruct (VaultOps.instanceof_NoSuchKey e
              || bool_decide (VaultOps.name e = Some (StaticGate.units "NotFound"))) eqn:H1.
    + split; [|reflexivity]. intros _. exists e. now rewrite H1.
    + destruct (bool_decide (VaultOps.httpStatusCode e = Some 404)) eqn:H2.
      * split; [|reflexivity]. intros _. exists e. now rewrite H1, H2.
      * split; [discriminate|]. intros (e' & [= <-] & He). now rewrite H1, H2 in He.
Qed.

Lemma write_note_bucket_unset (env : option (list Z)) (path content : list Z)
    (overwrite : bool) (head put : VaultOps.Settled unit) (e : VaultOps.Thrown) :
  VaultOps.getBucketName env = VaultOps.failed e ->
  VaultOps.write_note env path content overwrite head put
  = ([], VaultOps.errorResult
           (StaticGate.units "Failed to write note '" ++ path
            ++ StaticGate.units "': " ++ VaultOps.message_of e)%list).
Proof.
  intros Hg. unfold VaultOps.write_note, VaultOps.noteExists. now rewrite Hg.
Qed.

(** The three ways [write_note] can go once the bucket is known. *)
Lemma write_note_cases (bucket path content : list Z) (overwrite : bool)
    (head put : VaultOps.Settled unit) :
  bucket <> [] ->
  let key := Vault.ensureMarkdownExtension path in
  let run := VaultOps.write_note (Some bucket) path content overwrite head put in
  let go := (match head with
             | VaultOps.fulfilled _ => overwrite
             | VaultOps.failed e => VaultOps.missing e
             end) in
  (go = false /\ fst run = [VaultOps.HeadObject bucket key]
   /\ VaultOps.isError (snd run) = true)
  \/ (go = true
      /\ fst run = [VaultOps.HeadObject bucket key;
                    VaultOps.PutObject bucket key content VaultOps.markdown]
      /\ match put with
         | VaultOps.fulfilled _ =>
             snd run = VaultOps.textResult
                         ((match head with
                           | VaultOps.fulfilled _ => StaticGate.units "Updated"
                           | VaultOps.failed _ => StaticGate.units "Created"
                           end) ++ StaticGate.units " note: " ++ key)%list
         | VaultOps.failed e => VaultOps.isError (snd run) = true
         end).
Proof.
  intros Hb. cbv zeta.
  assert (Hg : VaultOps.getBucketName (Some bucket) = VaultOps.fulfilled bucket)
    by (apply getBucketName_fulfilled; split; [reflexivity | exact Hb]).
  unfold VaultOps.write_note, VaultOps.noteExists, VaultOps.writeNote, VaultOps.missing.
  rewrite Hg. destruct head as [[]|e].
  - destruct overwrite; cbn [andb negb fst snd app].
    + right. split; [reflexivity|]. destruct put as [[]|e']; cbn [fst snd app].
      * split; reflexivity.
      * split; reflexivity.
    + left. repeat split.
  - destruct (VaultOps.instanceof_NoSuchKey e
              || bool_decide (VaultOps.name e = Some (StaticGate.units "NotFound"))) eqn:H1.
    + right. cbn [orb andb negb]. split; [reflexivity|].
      destruct put as [[]|e']; cbn [fst snd app]; split; reflexivity.
    + cbn [orb]. destruct (bool_decide (VaultOps.httpStatusCode e = Some 404)) eqn:H2.
      * right. cbn [andb negb]. split; [reflexivity|].
        destruct put as [[]|e']; cbn [fst snd app]; split; reflexivity.
      * left. repeat split.
Qed.

(** X18. [write_note] sends a [PutObject] exactly when the bucket is
    configured and either [HeadObject] succeeded and [overwrite] is set, or
    [HeadObject] failed in one of the three ways read as "no such note"
    ([NoSuchKey], the name [NotFound], status 404).  The [PutObject] is
    then the second and last command, for the key [HeadObject] asked
    about, with the content as given.  So an existing note is not replaced
    without [overwrite], and nothing is written when the existence check
    fails for another reason, even with [overwrite] set. *)
Theorem write_note_put_guard (env : option (list Z)) (path content : list Z)
    (overwrite : bool) (head put : VaultOps.Settled unit) :
  let key := Vault.ensureMarkdownExtension path in
  let sent := fst (VaultOps.write_note env path content overwrite head put) in
  existsb VaultOps.is_put sent = true <->
  exists bucket,
    env = Some bucket /\ bucket <> []
    /\ sent = [VaultOps.HeadObject bucket key;
               VaultOps.PutObject bucket key content VaultOps.markdown]
    /\ ((exists u, head = VaultOps.fulfilled u) /\ overwrite = true
        \/ exists e, head = VaultOps.failed e /\ VaultOps.missing e = true).
Proof.
  cbv zeta. split.
  - destruct (VaultOps.getBucketName env) as [bucket|e] eqn:Hg.
    + apply getBucketName_fulfilled in Hg as [-> Hb]. intros Hput. exists bucket.
      destruct (write_note_cases bucket path content overwrite head put Hb)
        as [(_ & Hs & _) | (Hgo & Hs & _)].
      * rewrite Hs in Hput. discriminate.
      * split; [reflexivity|]. split; [exact Hb|]. split; [exact Hs|].
        destruct head as [u|e]; [left | right].
        -- split; [now exists u | exact Hgo].
        -- now exists e.
    + rewrite (write_note_bucket_unset _ _ _ _ _ _ _ Hg). discriminate.
  - intros (bucket & _ & _ & -> & _). reflexivity.
Qed.

(** X19. [write_note] reports success exactly when its [PutObject] was
    sent and fulfilled; the report then says "Updated" when [HeadObject]
    had found the note and "Created" when it had not, followed by the key
    written.  In every other case the result carries [isError]. *)
Theorem write_note_report (env : option (list Z)) (path content : list Z)
    (overwrite : bool) (head put : VaultOps.Settled unit) :
  let key := Vault.ensureMarkdownExtension path in
  let run := VaultOps.write_note env path content overwrite head put in
  (VaultOps.isError (snd run) = false <->
   existsb VaultOps.is_put (fst run) = true /\ exists u, put = VaultOps.fulfilled u)
  /\ (VaultOps.isError (snd run) = true
      \/ VaultOps.text (snd run)
         = ((match head with
             | VaultOps.fulfilled _ => StaticGate.units "Updated"
             | VaultOps.failed _ => StaticGate.units "Created"
             end) ++ StaticGate.units " note: " ++ key)%list).
Proof.
  cbv zeta. destruct (VaultOps.getBucketName env) as [bucket|e] eqn:Hg.
  - apply getBucketName_fulfilled in Hg as [-> Hb].
    destruct (write_note_cases bucket path content overwrite head put Hb)
      as [(_ & Hs & Herr) | (_ & Hs & Hput)].
    + rewrite Hs, Herr. split; [|now left]. split; [discriminate|]. now intros [? _].
    + rewrite Hs. destruct put as [u|e].
      * rewrite Hput. split; [|now right]. split; [|reflexivity].
        intros _. split; [reflexivity | now exists u].
      * rewrite Hput. split; [|now left]. split; [discriminate|]. now intros (_ & ? & ?).
  - rewrite (write_note_bucket_unset _ _ _ _ _ _ _ Hg). cbn [fst snd].
    split; [|now left]. split; [discriminate|]. now intros [? _].
Qed.

Lemma read_note_sent (bucket path : list Z) (get : VaultOps.Settled (option (list Z))) :
  bucket <> [] ->
  fst (VaultOps.read_note (Some bucket) path get)
  = [VaultOps.GetObject bucket (Vault.ensureMarkdownExtension path)].
Proof.
  intros Hb.
  assert (Hg : VaultOps.getBucketName (Some bucket) = VaultOps.fulfilled bucket)
    by (apply getBucketName_fulfilled; split; [reflexivity | exact Hb]).
  unfold VaultOps.read_note, VaultOps.readNote. rewrite Hg.
  destruct get as [[body|]|e]; try reflexivity.
  cbv zeta. destruct (_ || _); reflexivity.
Qed.

(** X20. A note [write_note] reports as written is the one [read_note]
    asks for under the same path: both address the same bucket and key.
    [read_note] given the reported key instead of the path asks for that
    key again as long as the key does not begin with white space; and
    when S3 returns the content written, [read_note] returns it
    unchanged. *)
Theorem written_note_read_back (env : option (list Z)) (path content : list Z)
    (overwrite : bool) (head put : VaultOps.Settled unit)
    (get : VaultOps.Settled (option (list Z))) :
  VaultOps.isError (snd (VaultOps.write_note env path content overwrite head put)) = false ->
  let key := Vault.ensureMarkdownExtension path in
  exists bucket,
    In (VaultOps.PutObject bucket key content VaultOps.markdown)
       (fst (VaultOps.write_note env path content overwrite head put))
    /\ fst (VaultOps.read_note env path get) = [VaultOps.GetObject bucket key]
    /\ (starts_clean key ->
        fst (VaultOps.read_note env key get) = [VaultOps.GetObject bucket key])
    /\ (get = VaultOps.fulfilled (Some content) ->
        snd (VaultOps.read_note env path get) = VaultOps.textResult content).
Proof.
  intros Hok key. subst key.
  destruct (VaultOps.getBucketName env) as [bucket|e] eqn:Hg.
  2:{ rewrite (write_note_bucket_unset _ _ _ _ _ _ _ Hg) in Hok. discriminate. }
  pose proof Hg as Hg'. apply getBucketName_fulfilled in Hg' as [-> Hb]. exists bucket.
  destruct (write_note_cases bucket path content overwrite head put Hb)
    as [(_ & _ & Herr) | (_ & Hs & _)]; [congruence|].
  split; [rewrite Hs; right; left; reflexivity|].
  split; [now apply read_note_sent|]. split.
  - intros Hclean. rewrite read_note_sent by exact Hb. do 2 f_equal.
    destruct (normalizePath_props path) as (Hh & Hd & He).
    unfold Vault.ensureMarkdownExtension at 1.
    destruct (Vault.endsWith (Vault.normalizePath path) (StaticGate.units ".md")) eqn:Hmd.
    + assert (Hkey : Vault.ensureMarkdownExtension path = Vault.normalizePath path)
        by (unfold Vault.ensureMarkdownExtension; now rewrite Hmd).
      rewrite Hkey in *.
      rewrite (normalizePath_fixed _ Hh Hd He Hclean), Hmd. reflexivity.
    + assert (Hkey : Vault.ensureMarkdownExtension path
                     = (Vault.normalizePath path ++ StaticGate.units ".md")%list)
        by (unfold Vault.ensureMarkdownExtension; now rewrite Hmd).
      rewrite Hkey in *.
      assert (Hh' : List.head (Vault.normalizePath path ++ StaticGate.units ".md") <> Some 47).
      { destruct (Vault.normalizePath path); [discriminate | exact Hh]. }
      assert (He' : ends_clean (Vault.normalizePath path ++ StaticGate.units ".md")).
      { intros c. change (StaticGate.units ".md") with ([46; 109] ++ [100])%list.
        rewrite app_assoc, last_snoc. now intros [= <-]. }
      rewrite (normalizePath_fixed _ Hh' (has_double_slash_app_md _ Hd) He' Hclean).
      now rewrite endsWith_app.
  - intros ->. unfold VaultOps.read_note, VaultOps.readNote. rewrite Hg. reflexivity.
Qed.

Lemma written_note_read_back_witness :
  let path := StaticGate.units "/notes//daily" in
  let key := StaticGate.units "notes/daily.md" in
  let bucket := StaticGate.units "vault" in
  let content := StaticGate.units "# Today" in
  let gone : VaultOps.Settled unit :=
    VaultOps.failed
      (VaultOps.mkThrown true false (Some (StaticGate.units "NotFound")) (Some 404) []) in
  VaultOps.isError
    (snd (VaultOps.write_note (Some bucket) path content false gone (VaultOps.fulfilled tt)))
  = false
  /\ fst (VaultOps.read_note (Some bucket) path (VaultOps.fulfilled (Some content)))
  = [VaultOps.GetObject bucket key]
  /\ fst (VaultOps.read_note (Some bucket) key (VaultOps.fulfilled (Some content)))
     = [VaultOps.GetObject bucket key]
  /\ snd (VaultOps.read_note (Some bucket) path (VaultOps.fulfilled (Some content)))
     = VaultOps.textResult content.
Proof.
  cbv zeta.
  destruct (written_note_read_back
              (Some (StaticGate.units "vault")) (StaticGate.units "/notes//daily")
              (StaticGate.units "# Today") false
              (VaultOps.failed
                 (VaultOps.mkThrown true false (Some (StaticGate.units "NotFound"))
                    (Some 404) []))
              (VaultOps.fulfilled tt)
              (VaultOps.fulfilled (Some (StaticGate.units "# Today"))))
    as (bucket & Hin & Hget & Hkey & Hbody); [vm_compute; reflexivity|].
  assert (Hb : bucket = StaticGate.units "vault").
  { vm_compute in Hin. destruct Hin as [Hin | [Hin | []]]; [discriminate|].
    now injection Hin as <-. }
  subst bucket.
  replace (StaticGate.units "notes/daily.md")
    with (Vault.ensureMarkdownExtension (StaticGate.units "/notes//daily"))
    by (vm_compute; reflexivity).
  split; [vm_compute; reflexivity|]. split; [exact Hget|]. split; [|now apply Hbody].
  apply Hkey. intros c Hc. vm_compute in Hc. injection Hc as <-. reflexivity.
Defined.

(** X21. [read_note] returns the note's text, without [isError], exactly
    when the bucket is configured and S3 returned a body; the text is then
    the body unchanged.  It sends at most one command, a [GetObject] for
    the note's key, and never a [PutObject].  A [NoSuchKey] failure is
    reported as "Note not found" with the path as the caller wrote it,
    not the key that was asked for. *)
Theorem read_note_outcomes (env : option (list Z)) (path : list Z)
    (get : VaultOps.Settled (option (list Z))) :
  let run := VaultOps.read_note env path get in
  (VaultOps.isError (snd run) = false <->
   StaticGate.given env = true /\ exists body, get = VaultOps.fulfilled (Some body))
  /\ (VaultOps.isError (snd run) = false ->
      get = VaultOps.fulfilled (Some (VaultOps.text (snd run))))
  /\ (fst run = []
      \/ exists bucket,
           fst run = [VaultOps.GetObject bucket (Vault.ensureMarkdownExtension path)])
  /\ (forall e, StaticGate.given env = true -> get = VaultOps.failed e ->
      VaultOps.instanceof_NoSuchKey e
      || bool_decide (VaultOps.name e = Some (StaticGate.units "NoSuchKey")) = true ->
      VaultOps.text (snd run)
      = (StaticGate.units "Error: Failed to read note '" ++ path
         ++ StaticGate.units "': Note not found: " ++ path)%list).
Proof.
  cbv zeta. unfold VaultOps.read_note, VaultOps.readNote, VaultOps.getBucketName.
  destruct (StaticGate.given env) eqn:Hgiven; cbn [negb].
  - destruct get as [[body|]|e]; cbn [fst snd VaultOps.isError VaultOps.text
                                       VaultOps.textResult].
    + split; [split; [intros _; split; [reflexivity | now exists body] | reflexivity]|].
      split; [reflexivity|]. split; [right; eexists; reflexivity|]. discriminate.
    + cbn. split; [split; [discriminate | now intros (_ & ? & ?)]|].
      split; [discriminate|]. split; [right; eexists; reflexivity|]. discriminate.
    + split; [|split; [|split]].
      * destruct (_ || _); cbn; (split; [discriminate | now intros (_ & ? & ?)]).
      * destruct (_ || _); cbn; discriminate.
      * destruct (_ || _); cbn; right; eexists; reflexivity.
      * intros e' _ [= <-] He. rewrite He. reflexivity.
  - cbn. split; [split; [discriminate | now intros [? _]]|].
    split; [discriminate|]. split; [now left|]. discriminate.
Qed.

(** ** Listing *)

Lemma endsWith_slash (s : list Z) :
  Vault.endsWith s (StaticGate.units "/") = true <-> last s = Some 47.
Proof.
  unfold Vault.endsWith. change (StaticGate.units "/") with [47].
  destruct s as [|c s] using rev_ind; [split; discriminate|].
  rewrite last_snoc, length_app. cbn [length].
  replace (length s + 1 - 1)%nat with (length s) by lia.
  rewrite skipn_app, skipn_all, Nat.sub_diag. cbn [skipn app].
  replace (1 <=? length s + 1)%nat with true by (symmetry; apply Nat.leb_le; lia).
  cbn [andb]. rewrite bool_decide_eq_true. split; congruence.
Qed.

Lemma has_double_slash_snoc (s : list Z) :
  Vault.has_double_slash s = false -> last s <> Some 47 ->
  Vault.has_double_slash (s ++ [47]) = false.
Proof.
  induction s as [|c s IH]; [reflexivity|].
  cbn [Vault.has_double_slash app]. intros Hd Hl.
  apply orb_false_elim in Hd as [Hc Hs]. destruct s as [|d s].
  - cbn. rewrite orb_false_r, andb_true_r. apply Z.eqb_neq. intros ->. now apply Hl.
  - rewrite IH; [now rewrite orb_false_r | exact Hs |].
    now rewrite last_cons_cons in Hl.
Qed.

(** X22. [listFiles] asks S3 for a prefix that is empty or ends in exactly
    one slash, never begins with a slash and has no two slashes in a row,
    with delimiter [/].  Of a reply it keeps as files exactly the objects
    whose key ends in [.md], drops folder entries that are undefined or
    empty, and fails exactly when the bucket is not configured or the
    request failed. *)
Theorem listFiles_shape (env : option (list Z)) (prefix : list Z) (maxKeys : Z)
    (token : option (list Z)) (sent : VaultOps.Settled VaultList.ListResponse) :
  let run := VaultList.listFiles env prefix maxKeys token sent in
  let p := VaultList.listPrefix prefix in
  (p = [] \/ last p = Some 47)
  /\ head p <> Some 47
  /\ Vault.has_double_slash p = false
  /\ (fst run = []
      \/ exists bucket,
           fst run = [VaultList.mkList bucket p (Some (StaticGate.units "/")) maxKeys token])
  /\ match snd run with
     | VaultOps.fulfilled result =>
         exists response,
           sent = VaultOps.fulfilled response
           /\ StaticGate.given env = true
           /\ (forall k, In k (map VaultList.path (VaultList.files result)) <->
                 In (Some k) (map VaultList.Key (default [] (VaultList.Contents response)))
                 /\ Vault.endsWith k (StaticGate.units ".md") = true)
           /\ (forall f, In f (VaultList.folders result) <->
                 In (Some f) (default [] (VaultList.CommonPrefixes response)) /\ f <> [])
     | VaultOps.failed e =>
         StaticGate.given env = false \/ sent = VaultOps.failed e
     end.
Proof.
  cbv zeta. destruct (normalizePath_props prefix) as (Hh & Hd & He).
  assert (Hp : VaultList.listPrefix prefix = []
               \/ (VaultList.listPrefix prefix = Vault.normalizePath prefix
                   /\ last (Vault.normalizePath prefix) = Some 47)
               \/ (VaultList.listPrefix prefix = (Vault.normalizePath prefix ++ [47])%list
                   /\ Vault.normalizePath prefix <> []
                   /\ last (Vault.normalizePath prefix) <> Some 47)).
  { unfold VaultList.listPrefix. destruct (Vault.normalizePath prefix) as [|c n] eqn:Hn.
    - now left.
    - cbn [length Nat.eqb negb andb].
      destruct (Vault.endsWith (c :: n) (StaticGate.units "/")) eqn:Hs; cbn [negb].
      + right. left. split; [reflexivity|]. now apply endsWith_slash.
      + right. right. split; [reflexivity|]. split; [discriminate|].
        intros Hl. apply endsWith_slash in Hl. congruence. }
  split; [|split; [|split; [|split]]].
  - destruct Hp as [-> | [[-> Hl] | (-> & _ & _)]]; [now left | now right |].
    right. apply last_snoc.
  - destruct Hp as [-> | [[-> _] | (-> & Hn & _)]]; [discriminate | exact Hh |].
    destruct (Vault.normalizePath prefix); [congruence | exact Hh].
  - destruct Hp as [-> | [[-> _] | (-> & _ & Hl)]]; [reflexivity | exact Hd |].
    now apply has_double_slash_snoc.
  - unfold VaultList.listFiles. destruct (VaultOps.getBucketName env); cbn [fst].
    + right. eexists. reflexivity.
    + now left.
  - unfold VaultList.listFiles, VaultOps.getBucketName.
    destruct (StaticGate.given env); cbn [negb snd]; [|now left].
    destruct sent as [response|e]; [|now right].
    exists response. split; [reflexivity|]. split; [reflexivity|].
    cbn [VaultList.files VaultList.folders]. split.
    + intros k. rewrite map_map. cbn [VaultList.path]. rewrite !in_map_iff. split.
      * intros (obj & <- & Hin). apply list_elem_of_In, list_elem_of_filter in Hin.
        destruct Hin as [Hmd Hin]. unfold VaultList.is_markdown in Hmd.
        destruct (VaultList.Key obj) as [k|] eqn:Hk; [|discriminate].
        split; [|exact Hmd]. exists obj. split; [exact Hk | now apply list_elem_of_In].
      * intros [(obj & Hk & Hin) Hmd]. exists obj. rewrite Hk. split; [reflexivity|].
        apply list_elem_of_In, list_elem_of_filter. split; [|now apply list_elem_of_In].
        unfold VaultList.is_markdown. now rewrite Hk.
    + intros f. rewrite <- list_elem_of_In, list_elem_of_filter, list_elem_of_In, in_map_iff.
      split.
      * intros [Hne (o & <- & Hin)]. destruct o as [g|]; [|now cbn in Hne].
        split; [exact Hin | exact Hne].
      * intros [Hin Hne]. split; [exact Hne|]. exists (Some f). now split.
Qed.

(** ** Searching *)

Lemma squeeze_sparse (s : list Z) : VaultSearch.sparse (VaultSearch.squeeze s) = true.
Proof.
  induction s as [|c s IH]; [reflexivity|]. cbn [VaultSearch.squeeze].
  destruct (Vault.is_space c) eqn:Hc.
  - destruct s as [|d s]; [reflexivity|].
    destruct (Vault.is_space d) eqn:Hd; [exact IH|].
    cbn [VaultSearch.sparse]. rewrite IH, andb_true_r.
    cbn [VaultSearch.squeeze]. rewrite Hd. cbn [negb]. rewrite Hd. reflexivity.
  - cbn [VaultSearch.sparse]. now rewrite Hc, IH.
Qed.

Lemma squeeze_length (s : list Z) : (length (VaultSearch.squeeze s) <= length s)%nat.
Proof.
  induction s as [|c s IH]; cbn [VaultSearch.squeeze length]; [lia|].
  destruct (Vault.is_space c); [destruct (match s with [] => _ | _ => _ end)|];
    cbn [length]; lia.
Qed.

Lemma trimStart_sparse (s : list Z) :
  VaultSearch.sparse s = true -> VaultSearch.sparse (Vault.trimStart s) = true.
Proof.
  induction s as [|c s IH]; [reflexivity|]. intros Hs. cbn [Vault.trimStart].
  destruct (Vault.is_space c); [|exact Hs].
  cbn [VaultSearch.sparse] in Hs. apply andb_prop in Hs as [_ Hs]. now apply IH.
Qed.

Lemma trimEnd_tidy (s : list Z) :
  VaultSearch.sparse s = true -> VaultSearch.tidy (Vault.trimEnd s) = true.
Proof.
  induction s as [|c s IH]; [reflexivity|]. cbn [VaultSearch.sparse]. intros Hs.
  apply andb_prop in Hs as [Hc Hs]. specialize (IH Hs).
  pose proof (trimEnd_head s) as Hhead.
  cbn [Vault.trimEnd]. destruct (Vault.trimEnd s) as [|d r].
  - destruct (Vault.is_space c) eqn:Hsp; [reflexivity|]. cbn. now rewrite Hsp.
  - cbn [VaultSearch.tidy]. cbn [VaultSearch.tidy] in IH. rewrite IH, andb_true_r.
    specialize (Hhead d eq_refl). destruct s as [|d' s]; [discriminate|].
    injection Hhead as ->. exact Hc.
Qed.

Lemma trim_starts_clean (s : list Z) : starts_clean (Vault.trim s).
Proof.
  intros c Hc. unfold Vault.trim in Hc. apply trimEnd_head in Hc.
  now apply (trimStart_clean s).
Qed.

(** X23. The snippet shown for a match has no white space except single
    spaces between other characters, none of them at either end, and is at
    most 106 code units longer than the query, wherever the match was
    found and whatever the note holds. *)
Theorem snippet_shape (content : list Z) (index qlen : nat) :
  let snippet := VaultSearch.snippet_of content index qlen in
  VaultSearch.tidy snippet = true
  /\ starts_clean snippet
  /\ (length snippet <= qlen + 106)%nat.
Proof.
  cbv zeta. unfold VaultSearch.snippet_of.
  set (start := (index - 50)%nat).
  set (end_ := Nat.min (length content) (index + qlen + 50)).
  set (raw := VaultSearch.slice content start end_).
  set (a := if (0 <? start)%nat then _ else _).
  set (b := if (end_ <? length content)%nat then _ else _).
  split; [|split].
  - unfold Vault.trim. apply trimEnd_tidy, trimStart_sparse, squeeze_sparse.
  - apply trim_starts_clean.
  - unfold Vault.trim.
    pose proof (trimEnd_length (Vault.trimStart (VaultSearch.squeeze b))).
    pose proof (trimStart_length (VaultSearch.squeeze b)).
    pose proof (squeeze_length b).
    assert (Hraw : (length raw <= qlen + 100)%nat).
    { subst raw. unfold VaultSearch.slice. rewrite length_firstn. subst start end_. lia. }
    assert (Ha : (length a <= length raw + 3)%nat).
    { subst a. destruct (0 <? start)%nat; [|lia].
      rewrite length_app. change (length (StaticGate.units "...")) with 3%nat. lia. }
    assert (Hb : (length b <= length a + 3)%nat).
    { subst b. destruct (end_ <? length content)%nat; [|lia].
      rewrite length_app. change (length (StaticGate.units "...")) with 3%nat. lia. }
    lia.
Qed.

Lemma gathered_cons (reply : VaultOps.Settled VaultList.ListResponse)
    (pages : list (VaultOps.Settled VaultList.ListResponse)) :
  VaultSearch.gathered (reply :: pages)
  = ((match reply with
      | VaultOps.fulfilled response => VaultSearch.mdFiles response
      | VaultOps.failed _ => []
      end) ++ VaultSearch.gathered pages)%list.
Proof. reflexivity. Qed.

(** The listing loop, entered with fewer than 500 files collected. *)
Lemma collect_spec (bucket p : list Z)
    (pages : list (VaultOps.Settled VaultList.ListResponse)) :
  forall (acc : list (list Z)) (tok : option (list Z)),
    (length acc < 500)%nat ->
    let sent := fst (VaultSearch.collect bucket p acc tok pages) in
    let r := snd (VaultSearch.collect bucket p acc tok pages) in
    let n := length sent in
    ((n <= length pages)%nat /\ (pages <> [] -> (1 <= n)%nat))
    /\ (r = None <->
        forallb VaultSearch.more pages = true
        /\ (length (acc ++ VaultSearch.gathered pages) < 500)%nat)
    /\ (forall k cmd, sent !! k = Some cmd ->
        cmd = VaultList.mkList bucket p None 1000
                (match k with
                 | O => tok
                 | S j => match pages !! j with
                          | Some (VaultOps.fulfilled response) =>
                              VaultList.NextContinuationToken response
                          | _ => None
                          end
                 end))
    /\ (forall k, (S k < n)%nat ->
        exists reply, pages !! k = Some reply /\ VaultSearch.more reply = true
                      /\ (length (acc ++ VaultSearch.gathered (take (S k) pages)) < 500)%nat)
    /\ (forall files, r = Some (VaultOps.fulfilled files) ->
        files = (acc ++ VaultSearch.gathered (take n pages))%list
        /\ ((500 <= length files)%nat
            \/ exists reply, pages !! (n - 1)%nat = Some reply
                             /\ VaultSearch.more reply = false))
    /\ (forall e, r = Some (VaultOps.failed e) ->
        pages !! (n - 1)%nat = Some (VaultOps.failed e)).
Proof.
  induction pages as [|reply rest IH]; intros acc tok Hacc; cbv zeta.
  - cbn [VaultSearch.collect fst snd length forallb]. rewrite app_nil_r.
    split; [split; [lia | congruence]|]. split; [now split|].
    split; [intros k cmd; discriminate|]. split; [intros k Hk; cbn in Hk; lia|].
    split; intros; discriminate.
  - cbn [VaultSearch.collect]. destruct reply as [response|e].
    2:{ cbn [fst snd length forallb VaultSearch.more andb].
        split; [split; [lia | intros _; lia]|].
        split; [split; [discriminate | now intros [? _]]|].
        split; [intros [|k] cmd; [now intros [= <-] | discriminate]|].
        split; [intros k Hk; lia|]. split; [discriminate|].
        now intros e' [= <-]. }
    set (acc' := (acc ++ VaultSearch.mdFiles response)%list).
    assert (Hg : forall l, (acc ++ VaultSearch.gathered (VaultOps.fulfilled response :: l))%list
                           = (acc' ++ VaultSearch.gathered l)%list).
    { intros l. rewrite gathered_cons. subst acc'. now rewrite app_assoc. }
    destruct (500 <=? length acc')%nat eqn:Hcap.
    { apply Nat.leb_le in Hcap. cbn [fst snd length].
      split; [split; [lia | intros _; lia]|].
      split; [split; [discriminate|]|].
      { intros [_ Hlt]. rewrite Hg, length_app in Hlt. lia. }
      split; [intros [|k] cmd; [now intros [= <-] | discriminate]|].
      split; [intros k Hk; lia|]. split; [|discriminate].
      intros files [= <-]. cbn [take]. rewrite Hg. cbn [VaultSearch.gathered map concat].
      rewrite app_nil_r. split; [reflexivity | now left]. }
    apply Nat.leb_gt in Hcap.
    destruct (StaticGate.given (VaultList.NextContinuationToken response)) eqn:Hmore.
    2:{ cbn [fst snd length forallb VaultSearch.more]. rewrite Hmore. cbn [andb].
        split; [split; [lia | intros _; lia]|].
        split; [split; [discriminate | now intros [? _]]|].
        split; [intros [|k] cmd; [now intros [= <-] | discriminate]|].
        split; [intros k Hk; lia|]. split; [|discriminate].
        intros files [= <-]. cbn [take]. rewrite Hg. cbn [VaultSearch.gathered map concat].
        rewrite app_nil_r. split; [reflexivity|]. right.
        exists (VaultOps.fulfilled response). split; [reflexivity|]. exact Hmore. }
    specialize (IH acc' (VaultList.NextContinuationToken response) Hcap). cbv zeta in IH.
    destruct (VaultSearch.collect bucket p acc'
                (VaultList.NextContinuationToken response) rest) as [sent r].
    cbn [fst snd] in IH |- *.
    destruct IH as ((Hn & Hn1) & Hnone & Hcmd & Hbefore & Hfiles & Hfail).
    cbn [length forallb VaultSearch.more]. rewrite Hmore. cbn [andb].
    split; [split; [lia | intros _; lia]|].
    split; [rewrite Hg; exact Hnone|].
    split; [|split; [|split]].
    + intros [|k] cmd; [now intros [= <-]|]. cbn [lookup list_lookup]. intros Hk.
      rewrite (Hcmd k cmd Hk). destruct k as [|j]; reflexivity.
    + intros [|k] Hk.
      * exists (VaultOps.fulfilled response). split; [reflexivity|]. split; [exact Hmore|].
        cbn [take]. rewrite Hg. cbn [VaultSearch.gathered map concat].
        now rewrite app_nil_r.
      * destruct (Hbefore k ltac:(lia)) as (reply & Hl & Hm & Hlen).
        exists reply. split; [exact Hl|]. split; [exact Hm|].
        change (take (S (S k)) (VaultOps.fulfilled response :: rest))
          with (VaultOps.fulfilled response :: take (S k) rest).
        now rewrite Hg.
    + intros files Hr. destruct (Hfiles files Hr) as [-> Hlast].
      assert (Hrest : rest <> []).
      { intros ->. cbn in Hnone. rewrite app_nil_r in Hnone.
        destruct Hnone as [_ Hnone]. rewrite Hnone in Hr by (split; [reflexivity | lia]).
        discriminate. }
      specialize (Hn1 Hrest).
      change (take (S (length sent)) (VaultOps.fulfilled response :: rest))
        with (VaultOps.fulfilled response :: take (length sent) rest).
      rewrite Hg. split; [reflexivity|].
      destruct Hlast as [Hlast | (reply & Hl & Hm)]; [now left|]. right. exists reply.
      split; [|exact Hm].
      replace (S (length sent) - 1)%nat with (S (length sent - 1)) by lia. exact Hl.
    + intros e Hr. specialize (Hfail e Hr).
      assert (Hrest : rest <> []).
      { intros ->. cbn in Hnone. rewrite app_nil_r in Hnone.
        destruct Hnone as [_ Hnone]. rewrite Hnone in Hr by (split; [reflexivity | lia]).
        discriminate. }
      specialize (Hn1 Hrest).
      replace (S (length sent) - 1)%nat with (S (length sent - 1)) by lia. exact Hfail.
Qed.

(** X24. The listing phase of [searchNotes].  Every list request asks for
    the normalised prefix, without delimiter, 1000 keys at most, and
    carries the continuation token of the reply before it (none for the
    first).  Another page is requested only after a reply that carried a
    non-empty token and left fewer than 500 markdown files collected; the
    search is still waiting for a page exactly when every reply so far was
    of that kind; and it fails only when the bucket is not configured or
    the last list request failed. *)
Theorem searchNotes_listing (toLowerCase : list Z -> list Z) (env : option (list Z))
    (query prefix : list Z) (maxResults : QArith_base.Q)
    (pages : list (VaultOps.Settled VaultList.ListResponse))
    (bodies : nat -> VaultOps.Settled (option (list Z))) :
  let run := VaultSearch.searchNotes toLowerCase env query prefix maxResults pages bodies in
  let n := length (VaultSearch.lists run) in
  (VaultSearch.outcome run = None <->
   StaticGate.given env = true /\ forallb VaultSearch.more pages = true
   /\ (length (VaultSearch.gathered pages) < 500)%nat)
  /\ (forall k cmd, VaultSearch.lists run !! k = Some cmd ->
      VaultList.Prefix cmd = Vault.normalizePath prefix
      /\ VaultList.Delimiter cmd = None
      /\ VaultList.MaxKeys cmd = 1000
      /\ VaultList.ContinuationToken cmd
         = match k with
           | O => None
           | S j => match pages !! j with
                    | Some (VaultOps.fulfilled response) =>
                        VaultList.NextContinuationToken response
                    | _ => None
                    end
           end)
  /\ (forall k, (S k < n)%nat ->
      exists reply, pages !! k = Some reply /\ VaultSearch.more reply = true
                    /\ (length (VaultSearch.gathered (take (S k) pages)) < 500)%nat)
  /\ (forall e, VaultSearch.outcome run = Some (VaultOps.failed e) ->
      StaticGate.given env = false \/ pages !! (n - 1)%nat = Some (VaultOps.failed e))
  /\ (forall results, VaultSearch.outcome run = Some (VaultOps.fulfilled results) ->
      (500 <= length (VaultSearch.gathered (take n pages)))%nat
      \/ exists reply, pages !! (n - 1)%nat = Some reply /\ VaultSearch.more reply = false).
Proof.
  cbv zeta. unfold VaultSearch.searchNotes, VaultOps.getBucketName.
  destruct (StaticGate.given env) eqn:Hgiven; cbn [negb].
  2:{ cbn [VaultSearch.outcome VaultSearch.lists length].
      split; [split; [discriminate | now intros [? _]]|].
      split; [intros k cmd; discriminate|]. split; [intros k Hk; lia|].
      split; [now left | discriminate]. }
  pose proof (collect_spec (default [] env) (Vault.normalizePath prefix) pages [] None
                ltac:(cbn; lia)) as Hspec.
  cbv zeta in Hspec.
  destruct (VaultSearch.collect (default [] env) (Vault.normalizePath prefix) [] None pages)
    as [listed r].
  cbn [fst snd] in Hspec. cbn [app] in Hspec.
  destruct Hspec as (_ & Hnone & Hcmd & Hbefore & Hfiles & Hfail).
  assert (Hlists : VaultSearch.lists
            (match r with
             | Some (VaultOps.fulfilled allFiles) =>
                 let '(sent, warns, results) :=
                   VaultSearch.scan toLowerCase (default [] env) query maxResults allFiles 0
                     bodies [] in
                 VaultSearch.mkRun listed sent warns (Some (VaultOps.fulfilled results))
             | Some (VaultOps.failed e) =>
                 VaultSearch.mkRun listed [] [] (Some (VaultOps.failed e))
             | None => VaultSearch.mkRun listed [] [] None
             end) = listed).
  { destruct r as [[allFiles|e]|]; [|reflexivity|reflexivity].
    destruct (VaultSearch.scan _ _ _ _ _ _ _ _) as [[? ?] ?]. reflexivity. }
  rewrite Hlists. clear Hlists.
  split; [|split; [|split; [|split]]].
  - destruct r as [[allFiles|e]|].
    + destruct (VaultSearch.scan _ _ _ _ _ _ _ _) as [[? ?] ?]. cbn [VaultSearch.outcome].
      split; [discriminate|]. intros (_ & Hm & Hl).
      destruct Hnone as [_ Hnone]. now specialize (Hnone (conj Hm Hl)).
    + cbn [VaultSearch.outcome]. split; [discriminate|]. intros (_ & Hm & Hl).
      destruct Hnone as [_ Hnone]. now specialize (Hnone (conj Hm Hl)).
    + cbn [VaultSearch.outcome]. split; [|reflexivity]. intros _.
      destruct Hnone as [Hnone _]. destruct (Hnone eq_refl) as [Hm Hl]. now split.
  - intros k cmd Hk. rewrite (Hcmd k cmd Hk). repeat split.
  - exact Hbefore.
  - intros e He. right. apply Hfail. destruct r as [[allFiles|e']|].
    + destruct (VaultSearch.scan _ _ _ _ _ _ _ _) as [[? ?] ?]. discriminate.
    + cbn [VaultSearch.outcome] in He. injection He as ->. reflexivity.
    + discriminate.
  - intros results Hres. destruct r as [[allFiles|e']|]; [|discriminate|discriminate].
    destruct (Hfiles allFiles eq_refl) as [-> Hlast]. exact Hlast.
Qed.

Lemma enough_false (maxResults : QArith_base.Q) (results : list VaultSearch.SearchResult) :
  VaultSearch.enough maxResults results = false ->
  QArith_base.Qlt (QArith_base.inject_Z (Z.of_nat (length results))) maxResults.
Proof.
  unfold VaultSearch.enough. intros He. apply QArith_base.Qnot_le_lt. intros Hle.
  apply QArith_base.Qle_bool_iff in Hle. congruence.
Qed.

Lemma examine_spec (toLowerCase : list Z -> list Z) (query filePath : list Z)
    (reply : VaultOps.Settled (option (list Z)))
    (results : list VaultSearch.SearchResult) :
  (VaultSearch.examine toLowerCase query filePath reply results = ([], results)
   /\ forall e, reply <> VaultOps.failed e)
  \/ (VaultSearch.examine toLowerCase query filePath reply results = ([filePath], results)
      /\ exists e, reply = VaultOps.failed e)
  \/ (exists content index,
        reply = VaultOps.fulfilled (Some content) /\ content <> []
        /\ VaultSearch.indexOf (toLowerCase content) (toLowerCase query) = Some index
        /\ VaultSearch.examine toLowerCase query filePath reply results
           = ([], (results
                   ++ [VaultSearch.mkHit filePath
                         (VaultSearch.snippet_of content index (length query))])%list)).
Proof.
  unfold VaultSearch.examine. destruct reply as [[content|]|e].
  - destruct content as [|c content]; [left; split; [reflexivity | discriminate]|].
    cbn [length Nat.eqb].
    destruct (VaultSearch.indexOf _ _) as [index|] eqn:Hi.
    + right. right. exists (c :: content), index. repeat split; [discriminate | exact Hi].
    + left. split; [reflexivity | discriminate].
  - left. split; [reflexivity | discriminate].
  - right. left. split; [reflexivity | now exists e].
Qed.

(** The scanning loop from the [i]-th file on. *)
Lemma scan_spec (toLowerCase : list Z -> list Z) (bucket query : list Z)
    (maxResults : QArith_base.Q) (bodies : nat -> VaultOps.Settled (option (list Z)))
    (files : list (list Z)) :
  forall (i : nat) (results : list VaultSearch.SearchResult) sent warns out,
    VaultSearch.scan toLowerCase bucket query maxResults files i bodies results
    = (sent, warns, out) ->
    exists hits,
      out = (results ++ hits)%list
      /\ map VaultSearch.path hits `sublist_of` files
      /\ sent = map (VaultOps.GetObject bucket) (take (length sent) files)
      /\ (VaultSearch.enough maxResults out = false -> length sent = length files)
      /\ (forall h, In h hits ->
          exists j content index,
            files !! j = Some (VaultSearch.path h)
            /\ bodies (i + j)%nat = VaultOps.fulfilled (Some content)
            /\ content <> []
            /\ VaultSearch.indexOf (toLowerCase content) (toLowerCase query) = Some index
            /\ VaultSearch.snippet h
               = VaultSearch.snippet_of content index (length query))
      /\ (forall f, In f warns ->
          exists j e, files !! j = Some f /\ bodies (i + j)%nat = VaultOps.failed e)
      /\ ((forall n, length results = S n ->
             QArith_base.Qlt (QArith_base.inject_Z (Z.of_nat n)) maxResults) ->
          forall n, length out = S n ->
             QArith_base.Qlt (QArith_base.inject_Z (Z.of_nat n)) maxResults).
Proof.
  induction files as [|f rest IH]; intros i results sent warns out.
  - cbn [VaultSearch.scan]. intros [= <- <- <-]. exists []. rewrite app_nil_r.
    split; [reflexivity|]. split; [constructor|]. split; [reflexivity|].
    split; [reflexivity|]. split; [intros h []|]. split; [intros h []|]. auto.
  - cbn [VaultSearch.scan]. destruct (VaultSearch.enough maxResults results) eqn:He.
    { intros [= <- <- <-]. exists []. rewrite app_nil_r.
      split; [reflexivity|]. split; [apply sublist_nil_l|]. split; [reflexivity|].
      split; [congruence|]. split; [intros h []|]. split; [intros h []|]. auto. }
    destruct (VaultSearch.examine toLowerCase query f (bodies i) results)
      as [warned results'] eqn:Hex.
    destruct (VaultSearch.scan toLowerCase bucket query maxResults rest (S i) bodies results')
      as [[sent' warns'] out'] eqn:Hscan.
    intros [= <- <- <-].
    destruct (IH _ _ _ _ _ Hscan) as (hits & -> & Hsub & Hsent & Hall & Hhits & Hwarn & Hbound).
    assert (Hshift : forall j, (S i + j)%nat = (i + S j)%nat) by (intros; lia).
    assert (Hkeep : results' = results ->
      exists hits0,
        (results' ++ hits)%list = (results ++ hits0)%list
        /\ map VaultSearch.path hits0 `sublist_of` f :: rest
        /\ (forall h, In h hits0 ->
            exists j content index,
              (f :: rest) !! j = Some (VaultSearch.path h)
              /\ bodies (i + j)%nat = VaultOps.fulfilled (Some content)
              /\ content <> []
              /\ VaultSearch.indexOf (toLowerCase content) (toLowerCase query) = Some index
              /\ VaultSearch.snippet h
                 = VaultSearch.snippet_of content index (length query))
        /\ ((forall n, length results = S n ->
               QArith_base.Qlt (QArith_base.inject_Z (Z.of_nat n)) maxResults) ->
            forall n, length (results' ++ hits) = S n ->
               QArith_base.Qlt (QArith_base.inject_Z (Z.of_nat n)) maxResults)).
    { intros ->. exists hits. split; [reflexivity|]. split; [now apply sublist_cons|].
      split; [|exact Hbound].
      intros h Hh. destruct (Hhits h Hh) as (j & content & index & Hj & Hb & Hrest).
      exists (S j), content, index. rewrite <- Hshift. now split. }
    assert (Hwarns : forall w, In w (warned ++ warns') ->
              (warned = [] \/ (warned = [f] /\ exists e, bodies i = VaultOps.failed e)) ->
              exists j e, (f :: rest) !! j = Some w /\ bodies (i + j)%nat = VaultOps.failed e).
    { intros w Hw Hcase. apply in_app_or in Hw as [Hw | Hw].
      - destruct Hcase as [-> | [-> (e & He')]]; [destruct Hw|].
        destruct Hw as [<- | []]. exists 0%nat, e. rewrite Nat.add_0_r. now split.
      - destruct (Hwarn w Hw) as (j & e & Hj & Hb). exists (S j), e.
        rewrite <- Hshift. now split. }
    assert (Hsent' : VaultOps.GetObject bucket f :: sent'
                     = map (VaultOps.GetObject bucket)
                         (take (length (VaultOps.GetObject bucket f :: sent')) (f :: rest))).
    { cbn [length take map]. now rewrite <- Hsent. }
    assert (Hall' : VaultSearch.enough maxResults (results' ++ hits) = false ->
                    length (VaultOps.GetObject bucket f :: sent') = length (f :: rest)).
    { intros Hne. cbn [length]. now rewrite (Hall Hne). }
    destruct (examine_spec toLowerCase query f (bodies i) results)
      as [[Heq Hnf] | [[Heq He'] | (content & index & Hreply & Hne & Hidx & Heq)]];
      rewrite Heq in Hex.
    + injection Hex as <- <-.
      destruct (Hkeep eq_refl) as (hits0 & Hout & Hsub0 & Hhits0 & Hbound0).
      exists hits0. split; [exact Hout|]. split; [exact Hsub0|]. split; [exact Hsent'|].
      split; [exact Hall'|]. split; [exact Hhits0|]. split; [|exact Hbound0].
      intros w Hw. apply (Hwarns w Hw). now left.
    + injection Hex as <- <-.
      destruct (Hkeep eq_refl) as (hits0 & Hout & Hsub0 & Hhits0 & Hbound0).
      exists hits0. split; [exact Hout|]. split; [exact Hsub0|]. split; [exact Hsent'|].
      split; [exact Hall'|]. split; [exact Hhits0|]. split; [|exact Hbound0].
      intros w Hw. apply (Hwarns w Hw). right. now split.
    + injection Hex as <- <-.
      set (hit := VaultSearch.mkHit f (VaultSearch.snippet_of content index (length query))).
      exists (hit :: hits). rewrite <- app_assoc. split; [reflexivity|].
      split; [cbn [map VaultSearch.path hit]; now apply sublist_skip|].
      split; [exact Hsent'|].
      split; [rewrite <- app_assoc in Hall'; exact Hall'|].
      split; [|split].
      * intros h [<- | Hh].
        -- exists 0%nat, content, index. rewrite Nat.add_0_r. now split.
        -- destruct (Hhits h Hh) as (j & content' & index' & Hj & Hb & Hrest).
           exists (S j), content', index'. rewrite <- Hshift. now split.
      * intros w Hw. apply (Hwarns w Hw). now left.
      * intros Hres n Hn. rewrite <- app_assoc in Hbound. apply Hbound; [|exact Hn].
        intros m Hm. rewrite length_app in Hm. cbn [length] in Hm.
        replace m with (length results) by lia. now apply enough_false.
Qed.

(** X25. The scanning phase of [searchNotes].  When the search returns,
    the result paths are collected files in listing order; every result
    comes from a file whose body was returned, is not empty and holds the
    lower-cased query in its lower-cased text, and carries the snippet cut
    at that index; before the last result was added there were fewer than
    [maxResults]; the files are fetched in listing order without gaps, all
    of them unless [maxResults] was reached; and a file is warned about
    only when its [GetObject] failed, which never fails the search. *)
Theorem searchNotes_results (toLowerCase : list Z -> list Z) (env : option (list Z))
    (query prefix : list Z) (maxResults : QArith_base.Q)
    (pages : list (VaultOps.Settled VaultList.ListResponse))
    (bodies : nat -> VaultOps.Settled (option (list Z)))
    (results : list VaultSearch.SearchResult) :
  let run := VaultSearch.searchNotes toLowerCase env query prefix maxResults pages bodies in
  VaultSearch.outcome run = Some (VaultOps.fulfilled results) ->
  let allFiles := VaultSearch.gathered (take (length (VaultSearch.lists run)) pages) in
  exists bucket,
    env = Some bucket
    /\ map VaultSearch.path results `sublist_of` allFiles
    /\ (forall n, length results = S n ->
        QArith_base.Qlt (QArith_base.inject_Z (Z.of_nat n)) maxResults)
    /\ VaultSearch.gets run
       = map (VaultOps.GetObject bucket) (take (length (VaultSearch.gets run)) allFiles)
    /\ (VaultSearch.enough maxResults results = false ->
        length (VaultSearch.gets run) = length allFiles)
    /\ (forall h, In h results ->
        exists j content index,
          allFiles !! j = Some (VaultSearch.path h)
          /\ bodies j = VaultOps.fulfilled (Some content)
          /\ content <> []
          /\ VaultSearch.indexOf (toLowerCase content) (toLowerCase query) = Some index
          /\ VaultSearch.snippet h = VaultSearch.snippet_of content index (length query))
    /\ (forall f, In f (VaultSearch.warnings run) ->
        exists j e, allFiles !! j = Some f /\ bodies j = VaultOps.failed e).
Proof.
  cbv zeta. unfold VaultSearch.searchNotes.
  destruct (VaultOps.getBucketName env) as [bucket|e] eqn:Hg; [|discriminate].
  apply getBucketName_fulfilled in Hg as [-> Hb].
  pose proof (collect_spec bucket (Vault.normalizePath prefix) pages [] None
                ltac:(cbn; lia)) as Hspec.
  cbv zeta in Hspec.
  destruct (VaultSearch.collect bucket (Vault.normalizePath prefix) [] None pages)
    as [listed r].
  cbn [fst snd app] in Hspec. destruct Hspec as (_ & _ & _ & _ & Hfiles & _).
  destruct r as [[allFiles|e]|]; [|discriminate|discriminate].
  destruct (Hfiles allFiles eq_refl) as [Hall _].
  destruct (VaultSearch.scan toLowerCase bucket query maxResults allFiles 0 bodies [])
    as [[sent warns] out] eqn:Hscan.
  cbn [VaultSearch.outcome VaultSearch.lists VaultSearch.gets VaultSearch.warnings].
  intros [= <-]. rewrite <- Hall.
  destruct (scan_spec _ _ _ _ _ _ _ _ _ _ _ Hscan)
    as (hits & Hout & Hsub & Hsent & Hfull & Hhits & Hwarn & Hbound).
  cbn [app] in Hout. subst hits.
  exists bucket. split; [reflexivity|]. split; [exact Hsub|].
  split; [apply Hbound; intros n; discriminate|]. split; [exact Hsent|].
  split; [exact Hfull|]. split; [exact Hhits | exact Hwarn].
Qed.

Lemma searchNotes_results_witness :
  VaultSearch.outcome VaultSearch.demo_search
  = Some (VaultOps.fulfilled
            [VaultSearch.mkHit (StaticGate.units "c.md")
               (StaticGate.units "Buy milk. TODO: call home")])
  /\ VaultSearch.gets VaultSearch.demo_search
     = map (VaultOps.GetObject (StaticGate.units "vault"))
         [StaticGate.units "a.md"; StaticGate.units "c.md"]
  /\ VaultSearch.warnings VaultSearch.demo_search = [StaticGate.units "a.md"]
  /\ [StaticGate.units "c.md"]
     `sublist_of` VaultSearch.gathered [VaultSearch.demo_page].
Proof.
  assert (Hout : VaultSearch.outcome VaultSearch.demo_search
                 = Some (VaultOps.fulfilled
                           [VaultSearch.mkHit (StaticGate.units "c.md")
                              (StaticGate.units "Buy milk. TODO: call home")]))
    by (vm_compute; reflexivity).
  split; [exact Hout|]. split; [vm_compute; reflexivity|].
  split; [vm_compute; reflexivity|].
  destruct (searchNotes_results VaultSearch.ascii_lower (Some (StaticGate.units "vault"))
              (StaticGate.units "todo") [] (QArith_base.Qmake 1 1)
              [VaultSearch.demo_page] VaultSearch.demo_bodies _ Hout)
    as (bucket & _ & Hsub & _).
  exact Hsub.
Defined.
